(** * The SNMP responder of the internet connection monitor

    A shallow embedding of [internal/outputs/snmp.go]: the statistics store
    ([Write]), the address-tree snapshot builder ([buildOIDSnapshot]) and the
    request dispatcher ([handleGet], [handleGetNext], [handleGetBulk],
    [handleRequest]), followed by the properties the specification states
    about them.

    Conventions.  Go strings are byte strings ([string]); Go maps are
    [gmap string _]; [int] and [int64] are [Z] with the wrap-around written
    as [wrap64]; [uint32] conversions are [uint32]; [float64] is the IEEE-754
    binary64 model of [SpecFloat]; a function that can panic returns an
    [option], [None] being the panic. *)

From Stdlib Require Import ZArith String Ascii List SpecFloat Lia.
From stdpp Require Import gmap strings list sorting.
Import ListNotations.

Local Open Scope Z_scope.

(** ** Library functions used by the source (Go's [strings], [strconv], [fmt]) *)

Module GoStrings.

Definition bytes (l : list nat) : string :=
  fold_right (fun n s => String (ascii_of_nat n) s) EmptyString l.

Fixpoint rev_string (s acc : string) : string :=
  match s with
  | EmptyString => acc
  | String c s' => rev_string s' (String c acc)
  end.

(** [strings.HasPrefix] *)
Fixpoint HasPrefix (s p : string) {struct p} : bool :=
  match p, s with
  | EmptyString, _ => true
  | String a p', String b s' => Ascii.eqb a b && HasPrefix s' p'
  | String _ _, EmptyString => false
  end.

Fixpoint drop_bytes (n : nat) (s : string) : string :=
  match n, s with
  | S n', String _ s' => drop_bytes n' s'
  | _, _ => s
  end.

(** [strings.TrimPrefix] *)
Definition TrimPrefix (s p : string) : string :=
  if HasPrefix s p then drop_bytes (String.length p) s else s.

(** [strings.HasSuffix] *)
Definition HasSuffix (s p : string) : bool :=
  HasPrefix (rev_string s EmptyString) (rev_string p EmptyString).

(** [s[:len(s)-1]] *)
Fixpoint drop_last (s : string) : string :=
  match s with
  | EmptyString => EmptyString
  | String c EmptyString => EmptyString
  | String c s' => String c (drop_last s')
  end.

(** The UTF-8 encodings of the code points of [unicode.White_Space]:
    U+0009..U+000D, U+0020, U+0085, U+00A0, U+1680, U+2000..U+200A,
    U+2028, U+2029, U+202F, U+205F, U+3000. *)
Definition white_space : list string :=
  [ bytes [9]; bytes [10]; bytes [11]; bytes [12]; bytes [13]; bytes [32];
    bytes [194; 133]; bytes [194; 160]; bytes [225; 154; 128];
    bytes [226; 128; 128]; bytes [226; 128; 129]; bytes [226; 128; 130];
    bytes [226; 128; 131]; bytes [226; 128; 132]; bytes [226; 128; 133];
    bytes [226; 128; 134]; bytes [226; 128; 135]; bytes [226; 128; 136];
    bytes [226; 128; 137]; bytes [226; 128; 138]; bytes [226; 128; 168];
    bytes [226; 128; 169]; bytes [226; 128; 175]; bytes [226; 129; 159];
    bytes [227; 128; 128] ]%nat.

Fixpoint strip_first (pats : list string) (s : string) : option string :=
  match pats with
  | [] => None
  | p :: pats' =>
      if HasPrefix s p then Some (drop_bytes (String.length p) s)
      else strip_first pats' s
  end.

Fixpoint trim_front (fuel : nat) (pats : list string) (s : string) : string :=
  match fuel with
  | O => s
  | S fuel' =>
      match strip_first pats s with
      | Some s' => trim_front fuel' pats s'
      | None => s
      end
  end.

(** [strings.TrimSpace]: all leading and trailing white space removed. *)
Definition TrimSpace (s : string) : string :=
  let l := trim_front (String.length s) white_space s in
  let r := rev_string l EmptyString in
  let pats := List.map (fun p => rev_string p EmptyString) white_space in
  rev_string (trim_front (String.length r) pats r) EmptyString.

(** [strings.Split(s, sep)] for a one-byte separator. *)
Fixpoint Split (s : string) (sep : ascii) : list string :=
  match s with
  | EmptyString => [EmptyString]
  | String c s' =>
      if Ascii.eqb c sep then EmptyString :: Split s' sep
      else match Split s' sep with
           | p :: ps => String c p :: ps
           | [] => [String c EmptyString]
           end
  end.

Definition in_int64 (z : Z) : bool := (- 2 ^ 63 <=? z) && (z <? 2 ^ 63).

Definition digit_of (c : ascii) : option Z :=
  let n := Z.of_N (N_of_ascii c) in
  if (48 <=? n) && (n <=? 57) then Some (n - 48) else None.

Fixpoint parse_digits (s : string) (acc : Z) : option Z :=
  match s with
  | EmptyString => Some acc
  | String c s' =>
      match digit_of c with
      | Some d => parse_digits s' (acc * 10 + d)
      | None => None
      end
  end.

(** [strconv.Atoi] on a 64-bit platform: an optional sign, then one or more
    decimal digits, and a value that fits [int]; [None] is a non-nil error. *)
Definition Atoi (s : string) : option Z :=
  match s with
  | EmptyString => None
  | String c s' =>
      let neg := Ascii.eqb c "-" in
      let body := if neg || Ascii.eqb c "+" then s' else s in
      match body with
      | EmptyString => None
      | _ =>
          match parse_digits body 0 with
          | Some n =>
              let v := if neg then - n else n in
              if in_int64 v then Some v else None
          | None => None
          end
      end
  end.

Definition digit_char (d : Z) : ascii := ascii_of_N (Z.to_N (48 + d)).

Fixpoint utoa (fuel : nat) (n : Z) : string :=
  match fuel with
  | O => EmptyString
  | S fuel' =>
      (if n <? 10 then EmptyString else utoa fuel' (n / 10))
        +:+ String (digit_char (n mod 10)) EmptyString
  end.

(** The verb [%d] of [fmt.Sprintf] at an [int]: at most 19 digits. *)
Definition FormatInt (n : Z) : string :=
  if n <? 0 then String "-" (utoa 19 (- n)) else utoa 19 n.

End GoStrings.
Export GoStrings.

(** ** Machine integers and time *)

Definition wrap64 (z : Z) : Z := (z + 2 ^ 63) mod 2 ^ 64 - 2 ^ 63.

(** Conversion of an integer to [uint32]. *)
Definition uint32 (z : Z) : Z := z mod 2 ^ 32.

(** [time.Time] of the Go library: an instant is its Unix seconds and
    nanoseconds, and the zero value is January 1, year 1, 00:00:00 UTC. *)
Record Time := { unix_sec : Z; unix_nsec : Z }.

Definition zeroTime : Time := {| unix_sec := -62135596800; unix_nsec := 0 |}.

Definition IsZero (t : Time) : bool :=
  (unix_sec t =? -62135596800) && (unix_nsec t =? 0).

Definition Unix (t : Time) : Z := unix_sec t.

(** ** float64 *)

Module Float64.

Definition float64 := spec_float.

Definition of_int (z : Z) : float64 := binary_normalize 53 1024 z 0 false.
Definition add : float64 -> float64 -> float64 := SFadd 53 1024.
Definition mul : float64 -> float64 -> float64 := SFmul 53 1024.
Definition div : float64 -> float64 -> float64 := SFdiv 53 1024.

Definition zero : float64 := S754_zero false.

(** [math.Round]: nearest integer, halves away from zero; zeros,
    infinities and NaN are returned unchanged. *)
Definition Round (x : float64) : float64 :=
  match x with
  | S754_finite s m e =>
      if 0 <=? e then x
      else
        let d := 2 ^ (- e) in
        let q := Z.pos m / d in
        let r := Z.pos m mod d in
        let n := if d <=? 2 * r then q + 1 else q in
        if n =? 0 then S754_zero s
        else binary_normalize 53 1024 (if s then - n else n) 0 s
  | _ => x
  end.

(** The integer part of a finite float (truncation toward zero). *)
Definition trunc (x : float64) : option Z :=
  match x with
  | S754_zero _ => Some 0
  | S754_finite s m e =>
      let a := if 0 <=? e then Z.pos m * 2 ^ e else Z.pos m / 2 ^ (- e) in
      Some (if s then - a else a)
  | _ => None
  end.

End Float64.

(** ** Types of gosnmp and of the [models] and [config] packages *)

(** The ASN.1 tags of [gosnmp.Asn1BER] that the responder reads or produces; [UnknownType] is the zero value and [Null]
    the tag of a variable in a request. *)
Inductive Asn1BER :=
| UnknownType | Integer | OctetString | Null | Counter32 | Gauge32 | TimeTicks
| NoSuchObject | NoSuchInstance | EndOfMibView.

(** The dynamic value of a variable binding: [nil], a [uint32] or a [[]byte]. *)
Inductive PDUValue :=
| ValNil
| ValUint32 (v : Z)
| ValBytes (b : string).

(** [gosnmp.SnmpPDU]. *)
Record SnmpPDU := { Name : string; Type_ : Asn1BER; Value : PDUValue }.

Definition zeroPDU : SnmpPDU :=
  {| Name := EmptyString; Type_ := UnknownType; Value := ValNil |}.

(** [gosnmp.PDUType]. *)
Inductive PDUType :=
| GetRequest | GetNextRequest | GetResponse | SetRequest | Trap
| GetBulkRequest | InformRequest | SNMPv2Trap | Report.

Inductive SNMPError := NoError | GenErr.

Definition Version1 : N := 0%N.
Definition Version2c : N := 1%N.
Definition Version3 : N := 3%N.

(** The fields of [gosnmp.SnmpPacket] that the responder reads or writes. [Version] is a [uint8], [NonRepeaters] a
    [uint8], [MaxRepetitions], [RequestID] and [MsgID] are [uint32]. *)
Record SnmpPacket := {
  Version : N;
  Community : string;
  PDUType_ : PDUType;
  RequestID : N;
  MsgID : N;
  NonRepeaters : N;
  MaxRepetitions : N;
  Error : SNMPError;
  Variables : list SnmpPDU
}.

(** Modelled from the spec: [config.SNMPConfig], declared in the package
    [internal/config]: the fields that the agent reads. *)
Record SNMPConfig := {
  Enabled : bool;
  Port : Z;
  cfgCommunity : string;
  ListenAddress : string;
  EnterpriseOID : string
}.

(** [models.TestResult] of the package [internal/models]: the fields that
    [Write] reads, [Site.Name], [Site.URL], [Status.Success],
    [Timings.TotalDurationMs] (an [int64]) and [Timestamp]. *)
Record TestResult := {
  SiteName : string;
  SiteURL : string;
  Success : bool;
  TotalDurationMs : Z;
  Timestamp : Time
}.

(** ** Addresses *)

Definition dot : ascii := "."%char.

Fixpoint strip_dots (fuel : nat) (trimmed : string) : string :=
  match fuel with
  | O => trimmed
  | S fuel' =>
      if HasSuffix trimmed "." && (1 <? String.length trimmed)%nat
      then strip_dots fuel' (drop_last trimmed)
      else trimmed
  end.

Definition normalizeOID (oid : string) : string :=
  let trimmed := TrimSpace oid in
  if String.eqb trimmed "" then "."
  else
    let trimmed := if HasPrefix trimmed "." then trimmed else "." +:+ trimmed in
    strip_dots (String.length trimmed) trimmed.

(** [ap[i]] converted with [strconv.Atoi]; [0] when [i] is out of range or
    the component is not an integer. *)
Definition component (ap : list string) (i : nat) : Z :=
  match ap !! i with
  | Some p => match Atoi p with Some v => v | None => 0 end
  | None => 0
  end.

(** The loop [for i := 0; i < maxLen; i++] of [compareOIDs], with [n]
    iterations left. *)
Fixpoint compare_loop (ap bp : list string) (i n : nat) : Z :=
  match n with
  | O => 0
  | S n' =>
      let ai := component ap i in
      let bi := component bp i in
      if ai <? bi then -1
      else if ai >? bi then 1
      else compare_loop ap bp (S i) n'
  end.

Definition compareOIDs (a b : string) : Z :=
  if String.eqb a b then 0
  else
    let ap := Split (TrimPrefix a ".") dot in
    let bp := Split (TrimPrefix b ".") dot in
    let maxLen := Nat.max (length ap) (length bp) in
    match compare_loop ap bp 0 maxLen with
    | 0 =>
        if (length ap <? length bp)%nat then -1
        else if (length bp <? length ap)%nat then 1
        else 0
    | c => c
    end.

Fixpoint nextOID (sorted : list string) (current : string) : option string :=
  match sorted with
  | [] => None
  | oid :: rest =>
      if compareOIDs oid current >? 0 then Some oid else nextOID rest current
  end.

(** ** Request dispatcher *)

(** [valueMap[oid]] read without the [ok] flag: the zero value when absent. *)
Definition index_map (valueMap : gmap string SnmpPDU) (oid : string) : SnmpPDU :=
  default zeroPDU (valueMap !! oid).

Definition marker (oid : string) (t : Asn1BER) : SnmpPDU :=
  {| Name := oid; Type_ := t; Value := ValNil |}.

Definition handleGet (vars : list SnmpPDU) (valueMap : gmap string SnmpPDU)
  : list SnmpPDU :=
  fold_left
    (fun results vb =>
       let oid := normalizeOID (Name vb) in
       match valueMap !! oid with
       | Some val => results ++ [val]
       | None => results ++ [marker oid NoSuchObject]
       end)
    vars [].

Definition handleGetNext (vars : list SnmpPDU) (valueMap : gmap string SnmpPDU)
    (sortedOIDs : list string) : list SnmpPDU :=
  fold_left
    (fun results vb =>
       let oid := normalizeOID (Name vb) in
       match nextOID sortedOIDs oid with
       | None => results ++ [marker oid EndOfMibView]
       | Some next => results ++ [index_map valueMap next]
       end)
    vars [].

(** The inner loop [for r := 0; r < maxRepetitions; r++] of [handleGetBulk],
    with [n] repetitions left. *)
Fixpoint bulk_walk (valueMap : gmap string SnmpPDU) (sortedOIDs : list string)
    (n : nat) (current : string) (results : list SnmpPDU) : list SnmpPDU :=
  match n with
  | O => results
  | S n' =>
      match nextOID sortedOIDs current with
      | None => results ++ [marker current EndOfMibView]
      | Some next =>
          let val := index_map valueMap next in
          bulk_walk valueMap sortedOIDs n' (Name val) (results ++ [val])
      end
  end.

(** [make([]gosnmp.SnmpPDU, 0, cap)] on a 64-bit platform: [true] when it
    returns. The run time panics ("makeslice: cap out of range") when the
    capacity is negative, or when that many elements, of 40 bytes each (an
    interface value, a string header and the tag), take more than the 2^48
    bytes that it can address. Within these bounds the allocation is taken
    to succeed, as every other allocation of the program is: the memory of
    the machine is not part of the model. *)
Definition makeslice (cap : Z) : bool := (0 <=? cap) && (cap * 40 <=? 2 ^ 48).

(** [handleGetBulk]; [None] is the panic of [make] at the reply buffer of
    [len(vars)*maxRepetitions] elements, a product of two [int]. *)
Definition handleGetBulk (packet : SnmpPacket) (valueMap : gmap string SnmpPDU)
    (sortedOIDs : list string) : option (list SnmpPDU) :=
  let vars := Variables packet in
  let nonRepeaters := N.to_nat (NonRepeaters packet) in
  let nonRepeaters :=
    if (length vars <? nonRepeaters)%nat then length vars else nonRepeaters in
  let maxRepetitions := Z.of_N (MaxRepetitions packet) in
  let maxRepetitions := if maxRepetitions <=? 0 then 1 else maxRepetitions in
  if negb (makeslice (wrap64 (Z.of_nat (length vars) * maxRepetitions))) then None
  else
    let results :=
      fold_left
        (fun results vb =>
           let oid := normalizeOID (Name vb) in
           match nextOID sortedOIDs oid with
           | None => results ++ [marker oid EndOfMibView]
           | Some next => results ++ [index_map valueMap next]
           end)
        (firstn nonRepeaters vars) [] in
    Some (fold_left
            (fun results vb =>
               let oid := normalizeOID (Name vb) in
               bulk_walk valueMap sortedOIDs (Z.to_nat maxRepetitions) oid results)
            (skipn nonRepeaters vars) results).

(** ** Statistics store *)

Record siteStats := {
  TotalTests : Z;
  SuccessfulTests : Z;
  FailedTests : Z;
  LastSuccessTime : Time;
  LastFailureTime : Time;
  LastDurationMs : Z;
  AvgDurationMs : Float64.float64;
  MaxDurationMs : Z;
  MinDurationMs : Z
}.

(** The fields of [SNMPOutput] that hold data; the lock, the channels and
    the socket are not part of the store. *)
Record SNMPOutput := {
  config : SNMPConfig;
  cache : list TestResult;
  maxSize : Z;
  stats : gmap string siteStats;
  startTime : Time;
  siteIndex : gmap string Z;
  nextSiteIndex : Z
}.

(** The value [s] that [NewSNMPOutput] builds before it starts the agent. *)
Definition newOutput (cfg : SNMPConfig) (now : Time) : SNMPOutput :=
  {| config := cfg;
     cache := [];
     maxSize := 100;
     stats := ∅;
     startTime := now;
     siteIndex := ∅;
     nextSiteIndex := 0 |}.

Inductive NewResult :=
| NewNil                      (* [nil, nil]: the agent is disabled *)
| NewError                    (* [nil, err]: the agent did not start *)
| NewAgent (s : SNMPOutput).

(** [startup] is the outcome of [waitForStartup]: [true] when the listener
    was bound. *)
Definition NewSNMPOutput (cfg : SNMPConfig) (now : Time) (startup : bool)
  : NewResult :=
  if negb (Enabled cfg) then NewNil
  else if startup then NewAgent (newOutput cfg now) else NewError.

(** The site under which a result is counted. *)
Definition siteKey (result : TestResult) : string :=
  if String.eqb (SiteName result) "" then SiteURL result else SiteName result.

Definition newStats (result : TestResult) : siteStats :=
  {| TotalTests := 0; SuccessfulTests := 0; FailedTests := 0;
     LastSuccessTime := zeroTime; LastFailureTime := zeroTime;
     LastDurationMs := 0; AvgDurationMs := Float64.zero;
     MaxDurationMs := TotalDurationMs result;
     MinDurationMs := TotalDurationMs result |}.

(** Lines 191 to 212 of [Write]: the update of the aggregate [st]. *)
Definition updateStats (st : siteStats) (result : TestResult) : siteStats :=
  let d := TotalDurationMs result in
  let total := wrap64 (TotalTests st + 1) in
  let minD := if d <? MinDurationMs st then d else MinDurationMs st in
  let maxD := if d >? MaxDurationMs st then d else MaxDurationMs st in
  let avg :=
    Float64.div
      (Float64.add
         (Float64.mul (AvgDurationMs st) (Float64.of_int (wrap64 (total - 1))))
         (Float64.of_int d))
      (Float64.of_int total) in
  {| TotalTests := total;
     SuccessfulTests :=
       if Success result then wrap64 (SuccessfulTests st + 1)
       else SuccessfulTests st;
     FailedTests :=
       if Success result then FailedTests st else wrap64 (FailedTests st + 1);
     LastSuccessTime :=
       if Success result then Timestamp result else LastSuccessTime st;
     LastFailureTime :=
       if Success result then LastFailureTime st else Timestamp result;
     LastDurationMs := d;
     AvgDurationMs := avg;
     MaxDurationMs := maxD;
     MinDurationMs := minD |}.

(** [Write]; [None] is the run-time panic of [s.cache[1:]] on an empty
    slice, the only way the function can fail to return. *)
Definition Write (s : SNMPOutput) (result : TestResult) : option SNMPOutput :=
  cache0 ←
    (if maxSize s <=? Z.of_nat (length (cache s)) then
       match cache s with
       | [] => None
       | _ :: rest => Some rest
       end
     else Some (cache s));
  let cache1 := cache0 ++ [result] in
  let siteName := siteKey result in
  let '(stats1, siteIndex1, next1) :=
    match stats s !! siteName with
    | Some _ => (stats s, siteIndex s, nextSiteIndex s)
    | None =>
        let stats1 := <[siteName := newStats result]> (stats s) in
        match siteIndex s !! siteName with
        | Some _ => (stats1, siteIndex s, nextSiteIndex s)
        | None =>
            let next := wrap64 (nextSiteIndex s + 1) in
            (stats1, <[siteName := next]> (siteIndex s), next)
        end
    end in
  st ← stats1 !! siteName;
  Some {| config := config s;
          cache := cache1;
          maxSize := maxSize s;
          stats := <[siteName := updateStats st result]> stats1;
          startTime := startTime s;
          siteIndex := siteIndex1;
          nextSiteIndex := next1 |}.

(** A sequence of [Write] calls, in order. *)
Fixpoint writes (s : SNMPOutput) (results : list TestResult) : option SNMPOutput :=
  match results with
  | [] => Some s
  | r :: rest => s' ← Write s r; writes s' rest
  end.

(** ** Snapshot builder *)

(** [sort.Slice]: the library promises a permutation ordered by [less] and
    no more; insertion sort stands for it, and [sort_Slice_unique] shows that
    on the inputs of this program the result does not depend on the
    algorithm. *)
Fixpoint sort_insert {A} (less : A -> A -> bool) (x : A) (l : list A) : list A :=
  match l with
  | [] => [x]
  | y :: l' => if less x y then x :: l else y :: sort_insert less x l'
  end.

Definition sort_Slice {A} (less : A -> A -> bool) (l : list A) : list A :=
  fold_right (sort_insert less) [] l.

Definition gaugePDU (oid : string) (value : Z) : SnmpPDU :=
  {| Name := oid; Type_ := Gauge32; Value := ValUint32 value |}.

Definition counterPDU (oid : string) (value : Z) : SnmpPDU :=
  {| Name := oid; Type_ := Counter32; Value := ValUint32 value |}.

Definition timeTicksPDU (oid : string) (value : Z) : SnmpPDU :=
  {| Name := oid; Type_ := TimeTicks; Value := ValUint32 (uint32 (value * 100)) |}.

Definition octetStringPDU (oid : string) (value : string) : SnmpPDU :=
  {| Name := oid; Type_ := OctetString; Value := ValBytes value |}.

Record siteEntry := { name : string; index : Z; entry_stats : siteStats }.

Definition entry_less (a b : siteEntry) : bool :=
  if index a =? index b then String.ltb (name a) (name b)
  else index a <? index b.

(** [time.Duration.Seconds] of a duration of [d] nanoseconds. *)
Definition Seconds (d : Z) : Float64.float64 :=
  let sec := Z.quot d 1000000000 in
  let nsec := Z.rem d 1000000000 in
  Float64.add (Float64.of_int sec)
    (Float64.div (Float64.of_int nsec) (Float64.of_int 1000000000)).

Definition defaultBase : string := ".1.3.6.1.4.1.99999".

Definition snapshotBase (cfg : SNMPConfig) : string :=
  let base := normalizeOID (EnterpriseOID cfg) in
  if String.eqb base "." then defaultBase else base.

Section Platform.

(** Go leaves the result of converting a float that the target type cannot
    hold to the implementation; [out_of_range] is that result. *)
Variable out_of_range : Float64.float64 -> Z.

(** [uint32(x)] at a [float64]. *)
Definition uint32_of_float64 (x : Float64.float64) : Z :=
  match Float64.trunc x with
  | Some v => if (0 <=? v) && (v <? 2 ^ 32) then v else out_of_range x
  | None => out_of_range x
  end.

Definition timeGauge (oid : string) (t : Time) : SnmpPDU :=
  if negb (IsZero t) then gaugePDU oid (uint32 (Unix t)) else gaugePDU oid 0.

(** The body of the loop over [entries]: the ten leaves of one site. *)
Definition siteLeaves (siteBase : string) (values : gmap string SnmpPDU)
    (entry : siteEntry) : gmap string SnmpPDU :=
  let st := entry_stats entry in
  let prefix := siteBase +:+ "." +:+ FormatInt (index entry) in
  let values := <[prefix +:+ ".1" := octetStringPDU (prefix +:+ ".1") (name entry)]> values in
  let values := <[prefix +:+ ".2" := counterPDU (prefix +:+ ".2") (uint32 (TotalTests st))]> values in
  let values := <[prefix +:+ ".3" := counterPDU (prefix +:+ ".3") (uint32 (SuccessfulTests st))]> values in
  let values := <[prefix +:+ ".4" := counterPDU (prefix +:+ ".4") (uint32 (FailedTests st))]> values in
  let values := <[prefix +:+ ".5" := timeGauge (prefix +:+ ".5") (LastSuccessTime st)]> values in
  let values := <[prefix +:+ ".6" := timeGauge (prefix +:+ ".6") (LastFailureTime st)]> values in
  let values := <[prefix +:+ ".7" := gaugePDU (prefix +:+ ".7") (uint32 (LastDurationMs st))]> values in
  let values := <[prefix +:+ ".8" := gaugePDU (prefix +:+ ".8")
                    (uint32_of_float64 (Float64.Round (AvgDurationMs st)))]> values in
  let values := <[prefix +:+ ".9" := gaugePDU (prefix +:+ ".9") (uint32 (MaxDurationMs st))]> values in
  let values := <[prefix +:+ ".10" := gaugePDU (prefix +:+ ".10") (uint32 (MinDurationMs st))]> values in
  values.

(** The loop [for name, st := range s.stats] that collects the entries.
    Go visits a map in no fixed order; [map_to_list] is one such order. *)
Definition collectEntries (s : SNMPOutput) : list siteEntry :=
  fold_left
    (fun entries '(nm, st) =>
       match siteIndex s !! nm with
       | None => entries
       | Some idx => entries ++ [{| name := nm; index := idx; entry_stats := st |}]
       end)
    (map_to_list (stats s)) [].

(** [buildOIDSnapshot], [elapsed] nanoseconds after [startTime]
    ([time.Since(s.startTime)]). *)
Definition buildOIDSnapshot (s : SNMPOutput) (elapsed : Z)
  : list string * gmap string SnmpPDU :=
  let base := snapshotBase (config s) in
  let values : gmap string SnmpPDU := ∅ in
  let cacheSize := uint32 (Z.of_nat (length (cache s))) in
  let maxSize := uint32 (maxSize s) in
  let siteCount := uint32 (Z.of_nat (size (siteIndex s))) in
  let uptime := uint32_of_float64 (Seconds elapsed) in
  let values := <[base +:+ ".1.0" := gaugePDU (base +:+ ".1.0") cacheSize]> values in
  let values := <[base +:+ ".2.0" := gaugePDU (base +:+ ".2.0") maxSize]> values in
  let values := <[base +:+ ".3.0" := gaugePDU (base +:+ ".3.0") siteCount]> values in
  let values := <[base +:+ ".4.0" := timeTicksPDU (base +:+ ".4.0") uptime]> values in
  let entries := sort_Slice entry_less (collectEntries s) in
  let siteBase := base +:+ ".5" in
  let values := fold_left (siteLeaves siteBase) entries values in
  let oids := fold_left (fun oids '(oid, _) => oids ++ [oid]) (map_to_list values) [] in
  let oids := sort_Slice (fun a b => compareOIDs a b <? 0) oids in
  (oids, values).

(** ** Request handler *)

(** What [handleRequest] does to the outside: it logs, it calls
    [WriteToUDP] with one datagram for the requester, or it panics, which
    ends the goroutine and, nothing recovering it, the process. *)
Inductive Event :=
| Log (msg : string)
| Send (datagram : list Byte.byte)
| Panic.

(** Whether a trace holds a panic. *)
Definition panicked (trace : list Event) : bool :=
  existsb (fun e => match e with Panic => true | _ => false end) trace.

(** The result of [gosnmp.Default.SnmpDecodePacket]. *)
Inductive Decoded :=
| DecodeError
| DecodedNil
| DecodedPacket (p : SnmpPacket).

(** [MarshalMsg] of gosnmp ([None]: it returned an error). *)
Variable MarshalMsg : SnmpPacket -> option (list Byte.byte).

(** The reply that [handleRequest] builds for an authorised request, and
    what it logs on the way; [None] when [handleGetBulk] panics. *)
Definition buildResponse (s : SNMPOutput) (elapsed : Z) (snmpPacket : SnmpPacket)
  : option (SnmpPacket * list Event) :=
  let '(sortedOIDs, valueMap) := buildOIDSnapshot s elapsed in
  let response vars err :=
    {| Version := Version snmpPacket;
       Community := Community snmpPacket;
       PDUType_ := GetResponse;
       RequestID := RequestID snmpPacket;
       MsgID := MsgID snmpPacket;
       NonRepeaters := NonRepeaters snmpPacket;
       MaxRepetitions := MaxRepetitions snmpPacket;
       Error := err;
       Variables := vars |} in
  match PDUType_ snmpPacket with
  | GetRequest =>
      Some (response (handleGet (Variables snmpPacket) valueMap) NoError, [])
  | GetNextRequest =>
      Some (response (handleGetNext (Variables snmpPacket) valueMap sortedOIDs) NoError, [])
  | GetBulkRequest =>
      match handleGetBulk snmpPacket valueMap sortedOIDs with
      | Some vars => Some (response vars NoError, [])
      | None => None
      end
  | _ =>
      Some (response (Variables snmpPacket) GenErr, [Log "SNMP unsupported PDU type"])
  end.

(** [handleRequest]: [decoded] is the decoded datagram, [listener] tells
    whether [s.listener] is set and [write_ok] whether [WriteToUDP]
    succeeds. The result is the trace of the call. *)
Definition handleRequest (s : SNMPOutput) (elapsed : Z) (listener write_ok : bool)
    (decoded : Decoded) : list Event :=
  match decoded with
  | DecodeError => [Log "SNMP decode error"]
  | DecodedNil => []
  | DecodedPacket snmpPacket =>
      if negb (N.eqb (Version snmpPacket) Version2c)
         && negb (N.eqb (Version snmpPacket) Version1)
      then [Log "SNMP unsupported version"]
      else if negb (String.eqb (Community snmpPacket) (cfgCommunity (config s)))
      then [Log "SNMP unauthorized community"]
      else
        match buildResponse s elapsed snmpPacket with
        | None => [Panic]
        | Some (response, logs) =>
            match MarshalMsg response with
            | None => logs ++ [Log "SNMP marshal error"]
            | Some respBytes =>
                if negb listener then logs
                else if write_ok then logs ++ [Send respBytes]
                else logs ++ [Send respBytes; Log "SNMP write error"]
            end
        end
  end.

End Platform.

(** ** Accessors of the store *)

(** [GetAllStats]: the copy that the loop over [s.stats] builds. *)
Definition GetAllStats (s : SNMPOutput) : gmap string siteStats :=
  fold_left (fun statsCopy '(site, st) => <[site := st]> statsCopy)
    (map_to_list (stats s)) ∅.

(** One entry of the map [sites] of [GetSNMPData]; its keys are the nine
    constant strings of the source. *)
Record siteData := {
  total_tests : Z;
  successful_tests : Z;
  failed_tests : Z;
  last_success_time : Z;
  last_failure_time : Z;
  last_duration_ms : Z;
  avg_duration_ms : Float64.float64;
  max_duration_ms : Z;
  min_duration_ms : Z
}.

(** The map that [GetSNMPData] returns; its keys are the five constant
    strings of the source. *)
Record SNMPData := {
  cache_size : Z;
  cache_max_size : Z;
  monitored_sites : Z;
  uptime_seconds : Z;
  sites : gmap string siteData
}.

(** The inner map that [GetSNMPData] builds for one site. *)
Definition siteDataOf (st : siteStats) : siteData :=
  {| total_tests := TotalTests st;
     successful_tests := SuccessfulTests st;
     failed_tests := FailedTests st;
     last_success_time := Unix (LastSuccessTime st);
     last_failure_time := Unix (LastFailureTime st);
     last_duration_ms := LastDurationMs st;
     avg_duration_ms := AvgDurationMs st;
     max_duration_ms := MaxDurationMs st;
     min_duration_ms := MinDurationMs st |}.

Section PlatformInt.

(** The result of converting to [int] or [int64] a float that the type
    cannot hold. *)
Variable out_of_range_int : Float64.float64 -> Z.

(** [int(x)] and [int64(x)] at a [float64]. *)
Definition int64_of_float64 (x : Float64.float64) : Z :=
  match Float64.trunc x with
  | Some v => if in_int64 v then v else out_of_range_int x
  | None => out_of_range_int x
  end.

(** [GetSNMPData], [elapsed] nanoseconds after [startTime]. *)
Definition GetSNMPData (s : SNMPOutput) (elapsed : Z) : SNMPData :=
  {| cache_size := Z.of_nat (length (cache s));
     cache_max_size := maxSize s;
     monitored_sites := Z.of_nat (size (siteIndex s));
     uptime_seconds := int64_of_float64 (Seconds elapsed);
     sites :=
       fold_left (fun sites '(siteName, st) => <[siteName := siteDataOf st]> sites)
         (map_to_list (stats s)) ∅ |}.

End PlatformInt.

(** ** The agent loop *)

(** What [ReadFromUDP] returns in one iteration of the loop of
    [runSNMPAgent]: a timeout, the error of a closed socket, another error,
    or a datagram, given by what [SnmpDecodePacket] makes of it. *)
Inductive ReadResult :=
| ReadTimeout
| ReadClosed
| ReadFailed
| ReadPacket (decoded : Decoded).

(** What one iteration finds: whether [s.done] is closed at the head of the
    loop, whether [SetReadDeadline] succeeds, the result of the read,
    whether [s.done] is closed when a read error is looked at, the store
    and the time since the start when the datagram is handled, and whether
    [WriteToUDP] succeeds. *)
Record Iteration := {
  done_closed : bool;
  deadline_ok : bool;
  read : ReadResult;
  done_closed_after_read : bool;
  store : SNMPOutput;
  elapsed_ns : Z;
  write_succeeds : bool
}.

(** How the goroutine of [runSNMPAgent] stands: in its loop, returned, or
    ended by a panic. *)
Inductive Outcome := Reading | Returned | Panicked.

Section Agent.

Variable out_of_range : Float64.float64 -> Z.
Variable MarshalMsg : SnmpPacket -> option (list Byte.byte).

(** The loop of [runSNMPAgent] once the listener is bound, run against the
    iterations [script]: the trace, and how the goroutine stands when the
    script ends. A panic of [handleRequest] is recovered nowhere: it ends
    the goroutine, and nothing of the script after it is read. *)
Fixpoint runSNMPAgent (script : list Iteration) : list Event * Outcome :=
  match script with
  | [] => ([], Reading)
  | it :: rest =>
      if done_closed it then ([], Returned)
      else
        let logs :=
          if deadline_ok it then [] else [Log "SNMP agent deadline error"] in
        match read it with
        | ReadTimeout =>
            let '(trace, outcome) := runSNMPAgent rest in (logs ++ trace, outcome)
        | ReadClosed => (logs, Returned)
        | ReadFailed =>
            if done_closed_after_read it then (logs, Returned)
            else
              let '(trace, outcome) := runSNMPAgent rest in
              (logs ++ [Log "SNMP agent read error"] ++ trace, outcome)
        | ReadPacket decoded =>
            let handled :=
              handleRequest out_of_range MarshalMsg (store it) (elapsed_ns it)
                true (write_succeeds it) decoded in
            if panicked handled then (logs ++ handled, Panicked)
            else
              let '(trace, outcome) := runSNMPAgent rest in
              (logs ++ handled ++ trace, outcome)
        end
  end.

End Agent.

(** ** The health check [cmd/snmpcheck] *)

Module Snmpcheck.

(** [normalizeOID] of [cmd/snmpcheck/main.go]: as the agent's, but blank
    input gives the default base. *)
Definition normalizeOID (oid : string) : string :=
  let trimmed := TrimSpace oid in
  if String.eqb trimmed "" then ".1.3.6.1.4.1.99999"
  else
    let trimmed := if HasPrefix trimmed "." then trimmed else "." +:+ trimmed in
    strip_dots (String.length trimmed) trimmed.

(** The two addresses that [main] derives from the flag [base]. *)
Definition cacheOID (baseOID : string) : string := normalizeOID baseOID +:+ ".1.0".

Definition sitePrefix (baseOID : string) : string := normalizeOID baseOID +:+ ".5.".

(** The function that [main] hands to [client.Walk]: it counts the
    variables in [totalVars] and the site rows in [siteEntries]. *)
Definition walkFn (sitePrefix : string) (counts : Z * Z) (pdu : SnmpPDU) : Z * Z :=
  let '(totalVars, siteEntries) := counts in
  let totalVars := wrap64 (totalVars + 1) in
  if HasPrefix (Name pdu) sitePrefix && HasSuffix (Name pdu) ".1"
  then (totalVars, wrap64 (siteEntries + 1))
  else (totalVars, siteEntries).

(** The two checks of [main] after the walk: [true] when neither is fatal. *)
Definition walkHealthy (counts : Z * Z) : bool :=
  negb (counts.1 =? 0) && negb (counts.2 =? 0).

End Snmpcheck.

(** ** The browser's failure classification ([internal/browser]) *)

Module Browser.

(** [strings.Index]: the byte offset of the first occurrence, [None] for -1. *)
Fixpoint Index (s substr : string) : option nat :=
  if HasPrefix s substr then Some 0%nat
  else match s with
       | EmptyString => None
       | String _ s' => option_map S (Index s' substr)
       end.

(** [strings.Contains]. *)
Definition Contains (s substr : string) : bool :=
  match Index s substr with Some _ => true | None => false end.

(** [s[:n]] *)
Fixpoint take_bytes (n : nat) (s : string) : string :=
  match n, s with
  | S n', String c s' => String c (take_bytes n' s')
  | _, _ => EmptyString
  end.

(** The loop of [strings.Split] for a separator that is not empty: cut at
    the first occurrence, go on behind it. *)
Fixpoint split_loop (fuel : nat) (s sep : string) : list string :=
  match fuel with
  | O => [s]
  | S fuel' =>
      match Index s sep with
      | None => [s]
      | Some i =>
          take_bytes i s :: split_loop fuel' (drop_bytes (i + String.length sep) s) sep
      end
  end.

(** [strings.Split(s, sep)] for a separator that is not empty. *)
Definition Split (s sep : string) : list string :=
  split_loop (String.length s) s sep.

(** [models.TimingMetrics]; a [*int64] is an [option]. *)
Record TimingMetrics := {
  DNSLookupMs : option Z;
  TCPConnectionMs : option Z;
  TLSHandshakeMs : option Z;
  TimeToFirstByteMs : option Z;
  DOMContentLoadedMs : option Z;
  FullPageLoadMs : option Z;
  NetworkIdleMs : option Z;
  TotalDurationMs : Z
}.

(** The fields of [network.ResourceTiming] that [mergeNetworkTiming] reads. *)
Record ResourceTiming := {
  DNSStart : Float64.float64;
  DNSEnd : Float64.float64;
  ConnectStart : Float64.float64;
  ConnectEnd : Float64.float64;
  SslStart : Float64.float64;
  SslEnd : Float64.float64
}.

(** [models.ErrorInfo]. *)
Record ErrorInfo := {
  ErrorType : string;
  ErrorMessage : string;
  FailurePhase : string;
  StackTrace : string
}.

(** [models.StatusInfo]. *)
Record StatusInfo := {
  Success : bool;
  HTTPStatus : Z;
  Message : string
}.

(** A value of a JavaScript object decoded into [map[string]interface{}]:
    a [float64] or something else. *)
Inductive Dynamic :=
| DynFloat (f : Float64.float64)
| DynOther.

Definition sub : Float64.float64 -> Float64.float64 -> Float64.float64 :=
  SFsub 53 1024.

(** [a > b] and [a >= b] at [float64]; both are false when an operand is
    NaN. *)
Definition gt (a b : Float64.float64) : bool := SFltb b a.

Definition ge (a b : Float64.float64) : bool := SFleb b a.

(** [inferFailurePhase]; [timings] is a pointer. *)
Definition inferFailurePhase (timings : option TimingMetrics) (siteURL : string)
  : string :=
  match timings with
  | None => "unknown"
  | Some timings =>
      let hasDNS := bool_decide (DNSLookupMs timings <> None) in
      let hasTCP := bool_decide (TCPConnectionMs timings <> None) in
      let hasTLS := bool_decide (TLSHandshakeMs timings <> None) in
      let hasTTFB := bool_decide (TimeToFirstByteMs timings <> None) in
      let isHTTPS := HasPrefix siteURL "https://" in
      if negb hasDNS then "dns"
      else if negb hasTCP then "tcp"
      else if isHTTPS && negb hasTLS then "tls"
      else if negb hasTTFB then "http"
      else "http"
  end.

Section Platform.

(** The result of converting to [int64] a float that the type cannot hold. *)
Variable out_of_range_int : Float64.float64 -> Z.

(** [strings.ToLower]. *)
Variable ToLower : string -> string.

Definition int64 (x : Float64.float64) : Z := int64_of_float64 out_of_range_int x.

(** [mergeNetworkTiming]; the metrics after the call. *)
Definition mergeNetworkTiming (timings : TimingMetrics)
    (networkTiming : option ResourceTiming) : TimingMetrics :=
  match networkTiming with
  | None => timings
  | Some networkTiming =>
      let dns :=
        if bool_decide (DNSLookupMs timings = None)
           && ge (DNSStart networkTiming) Float64.zero
           && ge (DNSEnd networkTiming) Float64.zero
        then Some (int64 (sub (DNSEnd networkTiming) (DNSStart networkTiming)))
        else DNSLookupMs timings in
      let tcp :=
        if bool_decide (TCPConnectionMs timings = None)
           && ge (ConnectStart networkTiming) Float64.zero
           && ge (ConnectEnd networkTiming) Float64.zero
        then
          Some (if ge (SslStart networkTiming) Float64.zero
                then int64 (sub (SslStart networkTiming) (ConnectStart networkTiming))
                else int64 (sub (ConnectEnd networkTiming) (ConnectStart networkTiming)))
        else TCPConnectionMs timings in
      let tls :=
        if bool_decide (TLSHandshakeMs timings = None)
           && ge (SslStart networkTiming) Float64.zero
           && ge (SslEnd networkTiming) Float64.zero
        then Some (int64 (sub (SslEnd networkTiming) (SslStart networkTiming)))
        else TLSHandshakeMs timings in
      {| DNSLookupMs := dns;
         TCPConnectionMs := tcp;
         TLSHandshakeMs := tls;
         TimeToFirstByteMs := TimeToFirstByteMs timings;
         DOMContentLoadedMs := DOMContentLoadedMs timings;
         FullPageLoadMs := FullPageLoadMs timings;
         NetworkIdleMs := NetworkIdleMs timings;
         TotalDurationMs := TotalDurationMs timings |}
  end.

(** The helper [getFloat] of [extractTimings]. *)
Definition getFloat (perfData : gmap string Dynamic) (key : string)
  : Float64.float64 :=
  match perfData !! key with
  | Some (DynFloat f) => f
  | _ => Float64.zero
  end.

(** [extractTimings]; a nil map is [None]. *)
Definition extractTimings (perfData : option (gmap string Dynamic)) (totalMs : Z)
  : TimingMetrics :=
  let timings :=
    {| DNSLookupMs := None; TCPConnectionMs := None; TLSHandshakeMs := None;
       TimeToFirstByteMs := None; DOMContentLoadedMs := None;
       FullPageLoadMs := None; NetworkIdleMs := None;
       TotalDurationMs := totalMs |} in
  match perfData with
  | None => timings
  | Some perfData =>
      let domainLookupStart := getFloat perfData "domainLookupStart" in
      let domainLookupEnd := getFloat perfData "domainLookupEnd" in
      let connectStart := getFloat perfData "connectStart" in
      let connectEnd := getFloat perfData "connectEnd" in
      let secureConnectionStart := getFloat perfData "secureConnectionStart" in
      let requestStart := getFloat perfData "requestStart" in
      let responseStart := getFloat perfData "responseStart" in
      let domContentLoadedEventEnd := getFloat perfData "domContentLoadedEventEnd" in
      let loadEventEnd := getFloat perfData "loadEventEnd" in
      {| DNSLookupMs :=
           if gt domainLookupEnd Float64.zero
           then Some (int64 (sub domainLookupEnd domainLookupStart))
           else None;
         TCPConnectionMs :=
           if gt connectEnd Float64.zero then
             if gt secureConnectionStart Float64.zero
             then Some (int64 (sub secureConnectionStart connectStart))
             else Some (int64 (sub connectEnd connectStart))
           else None;
         TLSHandshakeMs :=
           if gt secureConnectionStart Float64.zero
              && gt connectEnd secureConnectionStart
           then Some (int64 (sub connectEnd secureConnectionStart))
           else None;
         TimeToFirstByteMs :=
           if gt responseStart Float64.zero
           then Some (int64 (sub responseStart requestStart))
           else None;
         DOMContentLoadedMs :=
           if gt domContentLoadedEventEnd Float64.zero
           then Some (int64 domContentLoadedEventEnd)
           else None;
         FullPageLoadMs :=
           if gt loadEventEnd Float64.zero then Some (int64 loadEventEnd) else None;
         NetworkIdleMs :=
           if gt loadEventEnd Float64.zero then Some (int64 loadEventEnd) else None;
         TotalDurationMs := totalMs |}
  end.

(** [isChromeStartupFailure]; [err] is the text [err.Error()]. *)
Definition isChromeStartupFailure (err : string) : bool :=
  let errStr := ToLower err in
  Contains errStr "chrome failed to start"
  || Contains errStr "failed to start chrome"
  || Contains errStr "failed to allocate"
  || Contains errStr "cannot start chrome".

(** [parseErrorType]; [err] is [None] for a nil error and the text
    [err.Error()] otherwise. *)
Definition parseErrorType (err : option string) (chromeError : string) : string :=
  if negb (String.eqb chromeError "") then
    let first :=
      if Contains chromeError "net::" then
        match Split chromeError "net::" with
        | _ :: part :: _ => Some (TrimSpace part)
        | _ => None
        end
      else None in
    match first with
    | Some code => code
    | None =>
        let second :=
          if Contains chromeError "net::ERR_" then
            match Index chromeError "ERR_" with
            | Some start =>
                let errCode := drop_bytes start chromeError in
                Some (match Index errCode " " with
                      | Some spaceIdx => take_bytes spaceIdx errCode
                      | None => errCode
                      end)
            | None => None
            end
          else None in
        match second with
        | Some code => code
        | None => chromeError
        end
    end
  else
    match err with
    | None => "unknown"
    | Some err =>
        let errStr := ToLower err in
        if Contains errStr "context deadline exceeded" || Contains errStr "timeout"
        then "timeout"
        else "unknown"
    end.

(** What [TestSite] returns once [chromedp.Run] is back. *)
Inductive TestOutcome :=
| ChromeStartupFailure                  (* [nil, ErrChromeStartupFailure] *)
| Result (status : StatusInfo) (timings : TimingMetrics) (error : option ErrorInfo).

(** The part of [TestSite] after [chromedp.Run]: [err] is the error of the
    run, [navigationEntry] the evaluated performance entry, [totalDuration]
    the elapsed milliseconds, [errorText] and [timing] what the network
    listener captured. *)
Definition TestSite (siteURL : string) (err : option string)
    (navigationEntry : option (gmap string Dynamic)) (totalDuration : Z)
    (errorText : string) (timing : option ResourceTiming) : TestOutcome :=
  let timings := extractTimings navigationEntry totalDuration in
  let timings :=
    match timing with
    | Some _ => mergeNetworkTiming timings timing
    | None => timings
    end in
  match err with
  | Some e =>
      if isChromeStartupFailure e then ChromeStartupFailure
      else
        let errorType := parseErrorType err errorText in
        let failurePhase := inferFailurePhase (Some timings) siteURL in
        Result {| Success := false; HTTPStatus := 0; Message := "Failed to load page" |}
               timings
               (Some {| ErrorType := errorType; ErrorMessage := e;
                        FailurePhase := failurePhase; StackTrace := "" |})
  | None =>
      Result {| Success := true; HTTPStatus := 200;
                Message := "Page loaded successfully" |}
             timings None
  end.

End Platform.

End Browser.

(** * Specification-side definitions

    The functions and predicates in which the properties below are stated:
    what one request gets, what a comparison reads, which stores a run of
    writes reaches, and which bindings a snapshot holds. *)

(** ** Replies *)

(** The reply of [handleGet] to one variable binding. *)
Definition getReply (valueMap : gmap string SnmpPDU) (vb : SnmpPDU) : SnmpPDU :=
  match valueMap !! normalizeOID (Name vb) with
  | Some val => val
  | None => marker (normalizeOID (Name vb)) NoSuchObject
  end.

(** The reply of [handleGetNext] to one variable binding. *)
Definition nextReply (valueMap : gmap string SnmpPDU) (sortedOIDs : list string)
    (vb : SnmpPDU) : SnmpPDU :=
  match nextOID sortedOIDs (normalizeOID (Name vb)) with
  | None => marker (normalizeOID (Name vb)) EndOfMibView
  | Some next => index_map valueMap next
  end.

(** The replies that one walk cursor contributes. *)
Fixpoint walkReplies (valueMap : gmap string SnmpPDU) (sortedOIDs : list string)
    (n : nat) (current : string) : list SnmpPDU :=
  match n with
  | O => []
  | S n' =>
      match nextOID sortedOIDs current with
      | None => [marker current EndOfMibView]
      | Some next =>
          let val := index_map valueMap next in
          val :: walkReplies valueMap sortedOIDs n' (Name val)
      end
  end.

(** Whether a cursor runs off the end of the table within [n] repetitions. *)
Fixpoint exhausted (valueMap : gmap string SnmpPDU) (sortedOIDs : list string)
    (n : nat) (current : string) : bool :=
  match n with
  | O => false
  | S n' =>
      match nextOID sortedOIDs current with
      | None => true
      | Some next => exhausted valueMap sortedOIDs n' (Name (index_map valueMap next))
      end
  end.

(** The two counts of [handleGetBulk] after clamping. *)
Definition clampNonRepeaters (packet : SnmpPacket) : nat :=
  Nat.min (N.to_nat (NonRepeaters packet)) (length (Variables packet)).

Definition clampMaxRepetitions (packet : SnmpPacket) : nat :=
  Nat.max 1 (N.to_nat (MaxRepetitions packet)).

(** The capacity that [handleGetBulk] asks for its reply buffer: the
    number of variables times the repetitions, as an [int]. *)
Definition bulkCapacity (packet : SnmpPacket) : Z :=
  wrap64 (Z.of_nat (length (Variables packet))
          * Z.max 1 (Z.of_N (MaxRepetitions packet))).

(** ** Addresses as integer sequences *)

(** The components of an address as [compareOIDs] reads them. *)
Definition atoi0 (p : string) : Z :=
  match Atoi p with Some v => v | None => 0 end.

(** The dotted components of an address, and their integer values. *)
Definition oid_parts (a : string) : list string := Split (TrimPrefix a ".") dot.

Definition oid_values (a : string) : list Z := map atoi0 (oid_parts a).

(** Component-wise comparison of two integer sequences over [n] positions,
    the shorter one read as if it went on with zeros. *)
Fixpoint lexpad (n : nat) (x y : list Z) : Z :=
  match n with
  | O => 0
  | S n' =>
      if hd 0 x <? hd 0 y then -1
      else if hd 0 x >? hd 0 y then 1
      else lexpad n' (tl x) (tl y)
  end.

(** The first position where the two sequences differ decides; when none
    does, the shorter sequence is the smaller. *)
Definition compare_values (x y : list Z) : Z :=
  match lexpad (Nat.max (length x) (length y)) x y with
  | 0 =>
      if (length x <? length y)%nat then -1
      else if (length y <? length x)%nat then 1
      else 0
  | c => c
  end.

(** The [less] function that [buildOIDSnapshot] hands to [sort.Slice]. *)
Definition oid_less (a b : string) : bool := compareOIDs a b <? 0.

(** No byte of [s] is the separator. *)
Fixpoint no_sep (sep : ascii) (s : string) : bool :=
  match s with
  | EmptyString => true
  | String c s' => negb (Ascii.eqb c sep) && no_sep sep s'
  end.

(** Strings of decimal digits. *)
Definition is_digit (c : ascii) : bool :=
  match digit_of c with Some _ => true | None => false end.

Fixpoint digits_only (s : string) : bool :=
  match s with
  | EmptyString => true
  | String c s' => is_digit c && digits_only s'
  end.

(** [.z1.z2...] *)
Fixpoint dotted (suffix : list Z) : string :=
  match suffix with
  | [] => ""
  | z :: rest => "." +:+ FormatInt z +:+ dotted rest
  end.

(** The address [base.z1.z2...]. *)
Definition leaf_oid (base : string) (suffix : list Z) : string :=
  base +:+ dotted suffix.

(** Every component fits an [int]. *)
Definition all_int64 (l : list Z) : Prop := Forall (fun z => in_int64 z = true) l.

(** The suffixes of the layout: the four scalars, and the ten columns of
    the site with index [idx]. *)
Definition scalarSuffixes : list (list Z) := [[1; 0]; [2; 0]; [3; 0]; [4; 0]].

Definition leafColumns : list Z := [1; 2; 3; 4; 5; 6; 7; 8; 9; 10].

Definition leafSuffixes (idx : Z) : list (list Z) :=
  map (fun j => [5; idx; j]) leafColumns.

Definition allSuffixes (indices : list Z) : list (list Z) :=
  scalarSuffixes ++ concat (map leafSuffixes indices).

(** ** Sorting *)

(** [a] may stand before [b]. *)
Definition not_after {A} (less : A -> A -> bool) (a b : A) : Prop := less b a = false.

(** ** Stores *)

(** The distinct elements of [names], in the order of their first occurrence. *)
Definition firstSeen (names : list string) : list string :=
  fold_left (fun acc n => if bool_decide (n ∈ acc) then acc else acc ++ [n]) names [].

(** The sites of a run, in the order they were first seen. *)
Definition distinctSites (rs : list TestResult) : list string :=
  firstSeen (map siteKey rs).

(** The aggregate of site [n] after the results [rs]: one [updateStats] per
    result of the site, starting from [newStats] of its first result. *)
Definition aggregateOf (n : string) (rs : list TestResult) : option siteStats :=
  fold_left
    (fun agg r =>
       if bool_decide (siteKey r = n)
       then Some (updateStats (default (newStats r) agg) r)
       else agg)
    rs None.

(** What one [Write] does to each part of the store. *)
Record WriteStep (s : SNMPOutput) (r : TestResult) (s' : SNMPOutput) : Prop := {
  step_config : config s' = config s;
  step_startTime : startTime s' = startTime s;
  step_maxSize : maxSize s' = maxSize s;
  step_cache :
    cache s' =
    (if maxSize s <=? Z.of_nat (length (cache s)) then tail (cache s) else cache s) ++ [r];
  step_stats :
    stats s' =
    <[siteKey r := updateStats (default (newStats r) (stats s !! siteKey r)) r]> (stats s);
  step_siteIndex :
    siteIndex s' =
    match stats s !! siteKey r, siteIndex s !! siteKey r with
    | None, None => <[siteKey r := wrap64 (nextSiteIndex s + 1)]> (siteIndex s)
    | _, _ => siteIndex s
    end;
  step_next :
    nextSiteIndex s' =
    match stats s !! siteKey r, siteIndex s !! siteKey r with
    | None, None => wrap64 (nextSiteIndex s + 1)
    | _, _ => nextSiteIndex s
    end
}.

(** The store after the results [rs] have been written to a new agent. *)
Record Reached (cfg : SNMPConfig) (now : Time) (rs : list TestResult)
    (s : SNMPOutput) : Prop := {
  reached_config : config s = cfg;
  reached_startTime : startTime s = now;
  reached_maxSize : maxSize s = 100;
  reached_cache : cache s = drop (length rs - 100) rs;
  reached_next :
    nextSiteIndex s = wrap64 (Z.of_nat (length (firstSeen (map siteKey rs))));
  reached_index : forall n i,
    siteIndex s !! n = Some i <->
    exists k, firstSeen (map siteKey rs) !! k = Some n /\ i = wrap64 (Z.of_nat (S k));
  reached_stats : forall n,
    is_Some (stats s !! n) <-> n ∈ firstSeen (map siteKey rs)
}.

(** Every index of the store is an [int]. *)
Definition int64_indices (s : SNMPOutput) : Prop :=
  forall n i, siteIndex s !! n = Some i -> in_int64 i = true.

(** No two sites share an index. *)
Definition index_inj (s : SNMPOutput) : Prop :=
  forall n1 n2 i, siteIndex s !! n1 = Some i -> siteIndex s !! n2 = Some i -> n1 = n2.

(** ** Bindings of a snapshot *)

(** One assignment [values[k] = v]. *)
Definition insert_binding (m : gmap string SnmpPDU) (kv : string * SnmpPDU)
  : gmap string SnmpPDU := <[kv.1 := kv.2]> m.

(** The entries in the order in which [buildOIDSnapshot] writes their leaves. *)
Definition snapshotEntries (s : SNMPOutput) : list siteEntry :=
  sort_Slice entry_less (collectEntries s).

(** What one iteration of the loop over [s.stats] adds to the entries: a
    site enters when it has both an aggregate and an index. *)
Definition entryOf (s : SNMPOutput) (kv : string * siteStats) : list siteEntry :=
  match siteIndex s !! kv.1 with
  | None => []
  | Some idx => [{| name := kv.1; index := idx; entry_stats := kv.2 |}]
  end.

Section SnapshotSpec.
Variable oor : Float64.float64 -> Z.

(** The four scalars, as [buildOIDSnapshot] writes them. *)
Definition scalarBindings (s : SNMPOutput) (elapsed : Z) : list (string * SnmpPDU) :=
  let base := snapshotBase (config s) in
  [ (base +:+ ".1.0", gaugePDU (base +:+ ".1.0") (uint32 (Z.of_nat (length (cache s)))));
    (base +:+ ".2.0", gaugePDU (base +:+ ".2.0") (uint32 (maxSize s)));
    (base +:+ ".3.0", gaugePDU (base +:+ ".3.0") (uint32 (Z.of_nat (size (siteIndex s)))));
    (base +:+ ".4.0", timeTicksPDU (base +:+ ".4.0") (uint32_of_float64 oor (Seconds elapsed))) ].

(** The ten leaves of one site, as [siteLeaves] writes them. *)
Definition leafBindings (siteBase : string) (entry : siteEntry) : list (string * SnmpPDU) :=
  let st := entry_stats entry in
  let prefix := siteBase +:+ "." +:+ FormatInt (index entry) in
  [ (prefix +:+ ".1", octetStringPDU (prefix +:+ ".1") (name entry));
    (prefix +:+ ".2", counterPDU (prefix +:+ ".2") (uint32 (TotalTests st)));
    (prefix +:+ ".3", counterPDU (prefix +:+ ".3") (uint32 (SuccessfulTests st)));
    (prefix +:+ ".4", counterPDU (prefix +:+ ".4") (uint32 (FailedTests st)));
    (prefix +:+ ".5", timeGauge (prefix +:+ ".5") (LastSuccessTime st));
    (prefix +:+ ".6", timeGauge (prefix +:+ ".6") (LastFailureTime st));
    (prefix +:+ ".7", gaugePDU (prefix +:+ ".7") (uint32 (LastDurationMs st)));
    (prefix +:+ ".8", gaugePDU (prefix +:+ ".8")
                        (uint32_of_float64 oor (Float64.Round (AvgDurationMs st))));
    (prefix +:+ ".9", gaugePDU (prefix +:+ ".9") (uint32 (MaxDurationMs st)));
    (prefix +:+ ".10", gaugePDU (prefix +:+ ".10") (uint32 (MinDurationMs st))) ].

(** Every assignment to [values] that [buildOIDSnapshot] makes, in order. *)
Definition snapshotBindings (s : SNMPOutput) (elapsed : Z) : list (string * SnmpPDU) :=
  scalarBindings s elapsed
  ++ flat_map (leafBindings (snapshotBase (config s) +:+ ".5")) (snapshotEntries s).

(** The two results of [buildOIDSnapshot]. *)
Definition snapshotOIDs (s : SNMPOutput) (elapsed : Z) : list string :=
  (buildOIDSnapshot oor s elapsed).1.

Definition snapshotValues (s : SNMPOutput) (elapsed : Z) : gmap string SnmpPDU :=
  (buildOIDSnapshot oor s elapsed).2.

End SnapshotSpec.

(** ** The data of the repository's test [TestSNMPAgentRespondsToGetAndWalk] *)

Definition testConfig : SNMPConfig :=
  {| Enabled := true; Port := 0; cfgCommunity := "public";
     ListenAddress := "127.0.0.1"; EnterpriseOID := ".1.3.6.1.4.1.55555" |}.

Definition testNow : Time := {| unix_sec := 1700000000; unix_nsec := 0 |}.

Definition resultSuccess : TestResult :=
  {| SiteName := "example.com"; SiteURL := "https://example.com";
     Success := true; TotalDurationMs := 150; Timestamp := testNow |}.

Definition resultFailure : TestResult :=
  {| SiteName := "example.com"; SiteURL := "https://example.com";
     Success := false; TotalDurationMs := 320;
     Timestamp := {| unix_sec := 1700000000; unix_nsec := 500000000 |} |}.

(** A result that names its site by URL only. *)
Definition resultNoName : TestResult :=
  {| SiteName := ""; SiteURL := "https://example.org";
     Success := true; TotalDurationMs := 90; Timestamp := testNow |}.

(** A request variable: the address asked for, with no value. *)
Definition request (oid : string) : SnmpPDU :=
  {| Name := oid; Type_ := Null; Value := ValNil |}.

(** A platform on which an out-of-range conversion gives 0. *)
Definition zero_out_of_range (x : Float64.float64) : Z := 0.

(** The store and the snapshot of the test, five seconds after the start. *)
Definition testStore : SNMPOutput :=
  default (newOutput testConfig testNow)
    (writes (newOutput testConfig testNow) [resultSuccess; resultFailure]).

Definition testOIDs : list string := snapshotOIDs zero_out_of_range testStore 5000000000.

Definition testValues : gmap string SnmpPDU :=
  snapshotValues zero_out_of_range testStore 5000000000.

(** A bulk request for one address with one repetition. *)
Definition bulkOne (oid : string) : SnmpPacket :=
  {| Version := Version2c; Community := "public"; PDUType_ := GetBulkRequest;
     RequestID := 1; MsgID := 0; NonRepeaters := 0; MaxRepetitions := 1;
     Error := NoError; Variables := [request oid] |}.

(** A bulk request for [n] addresses with 2^31 - 1 repetitions each. *)
Definition bulkMany (n : nat) : SnmpPacket :=
  {| Version := Version2c; Community := "public"; PDUType_ := GetBulkRequest;
     RequestID := 2; MsgID := 0; NonRepeaters := 0; MaxRepetitions := 2147483647;
     Error := NoError; Variables := repeat (request ".1.3.6.1.4.1.55555") n |}.

(** An iteration of the agent loop that reads the request [p]. *)
Definition reads (p : SnmpPacket) : Iteration :=
  {| done_closed := false; deadline_ok := true; read := ReadPacket (DecodedPacket p);
     done_closed_after_read := false; store := testStore; elapsed_ns := 5000000000;
     write_succeeds := true |}.

(** ** Walks and per-site histories *)

(** The addresses of a table that come after [current], in table order. *)
Definition above (sorted : list string) (current : string) : list string :=
  filter (fun t => 0 < compareOIDs t current) sorted.

(** The results of site [n] among [rs], in the order they were written. *)
Definition siteResults (n : string) (rs : list TestResult) : list TestResult :=
  filter (fun r => siteKey r = n) rs.

(** The bytes that can start, and the bytes that can end, one of the
    patterns [pats]. *)
Definition leads (pats : list string) (c : ascii) : bool :=
  existsb (fun p => match p with
                    | EmptyString => true
                    | String a _ => Ascii.eqb a c
                    end) pats.

(** The last byte of a string. *)
Definition last_byte (s : string) : option ascii :=
  match rev_string s "" with
  | EmptyString => None
  | String c _ => Some c
  end.

(** The results among [rs] that succeeded, and those that failed. *)
Definition successes (rs : list TestResult) : list TestResult :=
  filter (fun r => Success r = true) rs.

Definition failures (rs : list TestResult) : list TestResult :=
  filter (fun r => Success r = false) rs.

(** What an aggregate records of the history [h] of its site. *)
Record Summarises (st : siteStats) (h : list TestResult) : Prop := {
  sum_total : TotalTests st = wrap64 (Z.of_nat (length h));
  sum_successful : SuccessfulTests st = wrap64 (Z.of_nat (length (successes h)));
  sum_failed : FailedTests st = wrap64 (Z.of_nat (length (failures h)));
  sum_last : Some (LastDurationMs st) = last (map TotalDurationMs h);
  sum_last_success :
    LastSuccessTime st = default zeroTime (last (map Timestamp (successes h)));
  sum_last_failure :
    LastFailureTime st = default zeroTime (last (map Timestamp (failures h)));
  sum_bounds :
    Forall (fun r => MinDurationMs st <= TotalDurationMs r <= MaxDurationMs st) h;
  sum_min : Exists (fun r => TotalDurationMs r = MinDurationMs st) h;
  sum_max : Exists (fun r => TotalDurationMs r = MaxDurationMs st) h
}.

(** A datagram handed to [WriteToUDP]. *)
Definition is_send (e : Event) : bool :=
  match e with Send _ => true | _ => false end.

(** The request kinds that the responder answers. *)
Definition supported (t : PDUType) : bool :=
  match t with
  | GetRequest | GetNextRequest | GetBulkRequest => true
  | _ => false
  end.

(** ** The health check against the agent *)

(** The counts of [main] after a walk that delivers [pdus]. *)
Definition walkCounts (sitePrefix : string) (pdus : list SnmpPDU) : Z * Z :=
  fold_left (Snmpcheck.walkFn sitePrefix) pdus (0, 0).

(** ** Failure phases *)

(** The stages of a page load in the order of the network stack. *)
Definition phaseRank (phase : string) : nat :=
  if String.eqb phase "dns" then 0
  else if String.eqb phase "tcp" then 1
  else if String.eqb phase "tls" then 2
  else if String.eqb phase "http" then 3
  else 4.

(** ** The agent loop *)

(** An iteration at which [runSNMPAgent] returns. *)
Definition stops (it : Iteration) : bool :=
  done_closed it
  || match read it with
     | ReadClosed => true
     | ReadFailed => done_closed_after_read it
     | _ => false
     end.

(** A datagram on which [handleRequest] panics: a request of a supported
    version and of the community of [s], of type GetBulk, for which the
    reply buffer cannot be made. *)
Definition fatal (s : SNMPOutput) (decoded : Decoded) : bool :=
  match decoded with
  | DecodedPacket p =>
      (N.eqb (Version p) Version2c || N.eqb (Version p) Version1)
      && String.eqb (Community p) (cfgCommunity (config s))
      && match PDUType_ p with GetBulkRequest => true | _ => false end
      && negb (makeslice (bulkCapacity p))
  | _ => false
  end.

(** An iteration at which the goroutine of [runSNMPAgent] ends in a panic. *)
Definition crashes (it : Iteration) : bool :=
  negb (stops it)
  && match read it with
     | ReadPacket decoded => fatal (store it) decoded
     | _ => false
     end.

(** The datagrams among the events of a trace. *)
Definition sent (trace : list Event) : list (list Byte.byte) :=
  flat_map (fun e => match e with Send d => [d] | _ => [] end) trace.

Section LoopSpec.
Variable oor : Float64.float64 -> Z.
Variable MarshalMsg : SnmpPacket -> option (list Byte.byte).

(** The datagrams that the loop sends in one iteration that goes on. *)
Definition answers (it : Iteration) : list (list Byte.byte) :=
  match read it with
  | ReadPacket decoded =>
      sent (handleRequest oor MarshalMsg (store it) (elapsed_ns it) true
              (write_succeeds it) decoded)
  | _ => []
  end.

End LoopSpec.

(** * Properties *)

(** ** Loops that append one reply per element *)

Section AppendLoops.
Context {A B : Type}.

Lemma fold_left_snoc_map (f : A -> B) (l : list A) (acc : list B) :
    fold_left (fun results x => results ++ [f x]) l acc = acc ++ map f l.
  Proof.
    revert acc. induction l as [|x l IH]; intros acc; simpl.
    - by rewrite app_nil_r.
    - rewrite IH. by rewrite <- app_assoc.
  Qed.

Lemma fold_left_app_concat (f : A -> list B) (l : list A) (acc : list B) :
    fold_left (fun results x => results ++ f x) l acc = acc ++ concat (map f l).
  Proof.
    revert acc. induction l as [|x l IH]; intros acc; simpl.
    - by rewrite app_nil_r.
    - rewrite IH. by rewrite <- app_assoc.
  Qed.

Lemma fold_left_ext (f g : B -> A -> B) (l : list A) (acc : B) :
    (forall r x, f r x = g r x) -> fold_left f l acc = fold_left g l acc.
  Proof.
    intros E. revert acc. induction l as [|x l IH]; intros acc; simpl; [done|].
    by rewrite E, IH.
  Qed.
End AppendLoops.

(** ** Get *)

Lemma handleGet_map vars valueMap :
  handleGet vars valueMap = map (getReply valueMap) vars.
Proof.
  unfold handleGet.
  rewrite (fold_left_ext _ (fun results vb => results ++ [getReply valueMap vb])).
  - by rewrite fold_left_snoc_map.
  - intros r x. unfold getReply. by destruct (valueMap !! _).
Qed.

(** ** GetNext *)

Lemma handleGetNext_map vars valueMap sortedOIDs :
  handleGetNext vars valueMap sortedOIDs = map (nextReply valueMap sortedOIDs) vars.
Proof.
  unfold handleGetNext.
  rewrite (fold_left_ext _ (fun results vb => results ++ [nextReply valueMap sortedOIDs vb])).
  - by rewrite fold_left_snoc_map.
  - intros r x. unfold nextReply. by destruct (nextOID _ _).
Qed.

Lemma nextOID_Some sorted current oid :
  nextOID sorted current = Some oid ->
  exists before after,
    sorted = before ++ oid :: after /\
    compareOIDs oid current > 0 /\
    Forall (fun t => compareOIDs t current <= 0) before.
Proof.
  induction sorted as [|x l IH]; simpl; [done|].
  destruct (compareOIDs x current >? 0) eqn:E.
  - intros [= ->]. exists [], l. split_and!; [done|lia|constructor].
  - intros H. destruct (IH H) as (b & a & -> & Hgt & Hb).
    exists (x :: b), a. split_and!; [done|done|]. constructor; [lia|done].
Qed.

Lemma nextOID_None sorted current :
  nextOID sorted current = None <->
  Forall (fun t => compareOIDs t current <= 0) sorted.
Proof.
  induction sorted as [|x l IH]; simpl.
  - split; [constructor|done].
  - destruct (compareOIDs x current >? 0) eqn:E.
    + split; [done|]. intros H. inversion H; subst. lia.
    + rewrite IH. split.
      * intros H. constructor; [lia|done].
      * intros H. by inversion H.
Qed.

(** ** GetBulk *)

Lemma bulk_walk_app valueMap sortedOIDs n current results :
  bulk_walk valueMap sortedOIDs n current results =
  results ++ walkReplies valueMap sortedOIDs n current.
Proof.
  revert current results. induction n as [|n IH]; intros current results; simpl.
  - by rewrite app_nil_r.
  - destruct (nextOID sortedOIDs current); [|done].
    rewrite IH. by rewrite <- app_assoc.
Qed.

Lemma handleGetBulk_eq packet valueMap sortedOIDs :
  handleGetBulk packet valueMap sortedOIDs =
  if makeslice (bulkCapacity packet) then
    Some (map (nextReply valueMap sortedOIDs)
            (firstn (clampNonRepeaters packet) (Variables packet))
          ++ concat (map (fun vb => walkReplies valueMap sortedOIDs
                                      (clampMaxRepetitions packet) (normalizeOID (Name vb)))
                       (skipn (clampNonRepeaters packet) (Variables packet))))
  else None.
Proof.
  unfold handleGetBulk.
  set (k := if (_ <? _)%nat then _ else _).
  set (m := if (_ <=? 0) then _ else _).
  assert (k = clampNonRepeaters packet) as ->.
  { unfold k, clampNonRepeaters. destruct (Nat.ltb_spec (length (Variables packet))
      (N.to_nat (NonRepeaters packet))); lia. }
  assert (m = Z.max 1 (Z.of_N (MaxRepetitions packet))) as ->.
  { unfold m. destruct (Z.leb_spec (Z.of_N (MaxRepetitions packet)) 0); lia. }
  fold (bulkCapacity packet).
  replace (Z.to_nat (Z.max 1 (Z.of_N (MaxRepetitions packet))))
    with (clampMaxRepetitions packet) by (unfold clampMaxRepetitions; lia).
  destruct (makeslice (bulkCapacity packet)); [|done]. cbn [negb]. f_equal.
  rewrite (fold_left_ext _ (fun results vb => results ++
     walkReplies valueMap sortedOIDs (clampMaxRepetitions packet) (normalizeOID (Name vb)))).
  2:{ intros. apply bulk_walk_app. }
  rewrite fold_left_app_concat. f_equal.
  rewrite (fold_left_ext _ (fun results vb => results ++ [nextReply valueMap sortedOIDs vb])).
  - by rewrite fold_left_snoc_map.
  - intros. unfold nextReply. by destruct (nextOID _ _).
Qed.

Lemma walkReplies_length valueMap sortedOIDs n current :
  (length (walkReplies valueMap sortedOIDs n current) <= n)%nat.
Proof.
  revert current. induction n as [|n IH]; intros current; simpl; [lia|].
  destruct (nextOID _ _); simpl; [|lia]. specialize (IH (Name (index_map valueMap s))). lia.
Qed.

Lemma walkReplies_full valueMap sortedOIDs n current :
  exhausted valueMap sortedOIDs n current = false ->
  length (walkReplies valueMap sortedOIDs n current) = n.
Proof.
  revert current. induction n as [|n IH]; intros current; simpl; [done|].
  destruct (nextOID _ _); [|done]. intros H. simpl. by rewrite IH.
Qed.

Lemma walkReplies_exhausted valueMap sortedOIDs n current :
  exhausted valueMap sortedOIDs n current = true ->
  exists values last,
    walkReplies valueMap sortedOIDs n current = values ++ [marker last EndOfMibView] /\
    nextOID sortedOIDs last = None.
Proof.
  revert current. induction n as [|n IH]; intros current; simpl; [done|].
  destruct (nextOID _ _) eqn:E.
  - intros H. destruct (IH _ H) as (vs & l & -> & Hl).
    exists (index_map valueMap s :: vs), l. done.
  - intros _. exists [], current. done.
Qed.

(** ** The address comparison *)

Lemma component_drop ap i :
  component ap i = hd 0 (drop i (map atoi0 ap)).
Proof.
  unfold component. revert i.
  induction ap as [|p ap IH]; intros [|i]; simpl; done || apply IH.
Qed.

Lemma tl_drop {A} (l : list A) i : tl (drop i l) = drop (S i) l.
Proof.
  revert i. induction l as [|x l IH]; intros [|i]; simpl;
    first [done | by rewrite drop_0 | apply IH].
Qed.

Lemma compare_loop_lexpad ap bp i n :
  compare_loop ap bp i n = lexpad n (drop i (map atoi0 ap)) (drop i (map atoi0 bp)).
Proof.
  revert i. induction n as [|n IH]; intros i; simpl; [done|].
  rewrite <- !component_drop. rewrite !tl_drop. by rewrite IH.
Qed.

Lemma lexpad_refl n x : lexpad n x x = 0.
Proof.
  revert x. induction n as [|n IH]; intros x; simpl; [done|].
  rewrite Z.ltb_irrefl. replace (hd 0 x >? hd 0 x) with false by lia. apply IH.
Qed.

Lemma lexpad_opp n x y : lexpad n y x = - lexpad n x y.
Proof.
  revert x y. induction n as [|n IH]; intros x y; simpl; [done|].
  destruct (Z.ltb_spec (hd 0 x) (hd 0 y)), (Z.ltb_spec (hd 0 y) (hd 0 x));
    destruct (Z.gtb_spec (hd 0 x) (hd 0 y)), (Z.gtb_spec (hd 0 y) (hd 0 x));
    try lia. apply IH.
Qed.

Lemma lexpad_range n x y : lexpad n x y = -1 \/ lexpad n x y = 0 \/ lexpad n x y = 1.
Proof.
  revert x y. induction n as [|n IH]; intros x y; simpl; [auto|].
  destruct (_ <? _); [auto|]. destruct (_ >? _); [auto|]. apply IH.
Qed.

Lemma lexpad_nil n : lexpad n [] [] = 0.
Proof. induction n; simpl; done. Qed.

Lemma lexpad_more n k x y :
  (length x <= n)%nat -> (length y <= n)%nat ->
  lexpad (n + k) x y = lexpad n x y.
Proof.
  revert x y. induction n as [|n IH]; intros x y Hx Hy.
  - destruct x, y; simpl in *; try lia. apply lexpad_nil.
  - simpl. destruct (_ <? _); [done|]. destruct (_ >? _); [done|].
    apply IH; destruct x, y; simpl in *; lia.
Qed.

Lemma lexpad_trans n x y z :
  lexpad n x y <= 0 -> lexpad n y z <= 0 ->
  lexpad n x z <= 0 /\
  (lexpad n x z = 0 -> lexpad n x y = 0 /\ lexpad n y z = 0).
Proof.
  revert x y z. induction n as [|n IH]; intros x y z; simpl; [done|].
  destruct (Z.ltb_spec (hd 0 x) (hd 0 y)), (Z.ltb_spec (hd 0 y) (hd 0 z)),
    (Z.ltb_spec (hd 0 x) (hd 0 z));
    destruct (Z.gtb_spec (hd 0 x) (hd 0 y)), (Z.gtb_spec (hd 0 y) (hd 0 z)),
      (Z.gtb_spec (hd 0 x) (hd 0 z)); try lia.
  apply IH.
Qed.

Lemma lexpad_zero_eq n x y :
  lexpad n x y = 0 -> (length x <= n)%nat -> length x = length y -> x = y.
Proof.
  revert x y. induction n as [|n IH]; intros x y.
  - destruct x, y; simpl; try done; lia.
  - simpl. destruct (Z.ltb_spec (hd 0 x) (hd 0 y)) as [|Hge]; [done|].
    destruct (Z.gtb_spec (hd 0 x) (hd 0 y)) as [|Hle]; [done|].
    destruct x as [|a x], y as [|b y]; simpl in *; try done.
    intros Hz Hl [= Hlen]. f_equal; [lia|]. apply IH; [done|lia|done].
Qed.

Lemma lexpad_app p n x y :
  lexpad (length p + n) (p ++ x) (p ++ y) = lexpad n x y.
Proof.
  induction p as [|a p IH]; simpl; [done|].
  rewrite Z.ltb_irrefl. replace (a >? a) with false by lia. done.
Qed.

(** [compare_values] read at any common bound on the two lengths. *)
Lemma compare_values_at n x y :
  (length x <= n)%nat -> (length y <= n)%nat ->
  compare_values x y =
  match lexpad n x y with
  | 0 =>
      if (length x <? length y)%nat then -1
      else if (length y <? length x)%nat then 1
      else 0
  | c => c
  end.
Proof.
  intros Hx Hy. unfold compare_values.
  replace n with (Nat.max (length x) (length y) + (n - Nat.max (length x) (length y)))%nat by lia.
  rewrite lexpad_more; [done|lia|lia].
Qed.

Lemma compare_values_range x y :
  compare_values x y = -1 \/ compare_values x y = 0 \/ compare_values x y = 1.
Proof.
  unfold compare_values.
  destruct (lexpad_range (Nat.max (length x) (length y)) x y) as [->| [->| ->]]; auto.
  destruct (_ <? _)%nat; auto. destruct (_ <? _)%nat; auto.
Qed.

Lemma compare_values_refl x : compare_values x x = 0.
Proof.
  unfold compare_values. rewrite lexpad_refl. by rewrite Nat.ltb_irrefl.
Qed.

Lemma compare_values_opp x y : compare_values y x = - compare_values x y.
Proof.
  unfold compare_values. rewrite (Nat.max_comm (length y)).
  rewrite (lexpad_opp _ x y).
  destruct (lexpad_range (Nat.max (length x) (length y)) x y) as [->| [->| ->]]; simpl; try done.
  destruct (Nat.ltb_spec (length x) (length y)), (Nat.ltb_spec (length y) (length x));
    simpl; done || lia.
Qed.

Lemma compare_values_zero_eq x y : compare_values x y = 0 -> x = y.
Proof.
  unfold compare_values.
  destruct (lexpad (Nat.max (length x) (length y)) x y) eqn:E; try done.
  destruct (Nat.ltb_spec (length x) (length y)); [done|].
  destruct (Nat.ltb_spec (length y) (length x)); [done|].
  intros _. eapply lexpad_zero_eq; [exact E|lia|lia].
Qed.

Lemma compare_values_trans x y z :
  compare_values x y <= 0 -> compare_values y z <= 0 -> compare_values x z <= 0.
Proof.
  set (n := Nat.max (length x) (Nat.max (length y) (length z))).
  rewrite (compare_values_at n x y), (compare_values_at n y z),
    (compare_values_at n x z) by lia.
  pose proof (lexpad_trans n x y z) as T.
  destruct (lexpad_range n x y) as [Exy| [Exy| Exy]],
    (lexpad_range n y z) as [Eyz| [Eyz| Eyz]],
    (lexpad_range n x z) as [Exz| [Exz| Exz]];
    rewrite Exy, Eyz, Exz in *; try lia.
  destruct (Nat.ltb_spec (length x) (length y)), (Nat.ltb_spec (length y) (length x)),
    (Nat.ltb_spec (length y) (length z)), (Nat.ltb_spec (length z) (length y)),
    (Nat.ltb_spec (length x) (length z)), (Nat.ltb_spec (length z) (length x));
    lia.
Qed.

Lemma compare_values_app p x y :
  compare_values (p ++ x) (p ++ y) = compare_values x y.
Proof.
  unfold compare_values. rewrite !length_app.
  replace (Nat.max (length p + length x) (length p + length y))
    with (length p + Nat.max (length x) (length y))%nat by lia.
  rewrite lexpad_app.
  destruct (lexpad _ x y); try done.
  destruct (Nat.ltb_spec (length x) (length y)),
    (Nat.ltb_spec (length p + length x) (length p + length y)); try lia.
  destruct (Nat.ltb_spec (length y) (length x)),
    (Nat.ltb_spec (length p + length y) (length p + length x)); lia || done.
Qed.

Lemma compareOIDs_values a b :
  compareOIDs a b = compare_values (oid_values a) (oid_values b).
Proof.
  unfold compareOIDs. destruct (String.eqb_spec a b) as [->|_].
  - by rewrite compare_values_refl.
  - unfold compare_values, oid_values, oid_parts. rewrite !length_map.
    rewrite compare_loop_lexpad. by rewrite !drop_0.
Qed.

Lemma compareOIDs_refl a : compareOIDs a a = 0.
Proof. rewrite compareOIDs_values. apply compare_values_refl. Qed.

Lemma compareOIDs_opp a b : compareOIDs b a = - compareOIDs a b.
Proof. rewrite !compareOIDs_values. apply compare_values_opp. Qed.

Lemma compareOIDs_trans a b c :
  compareOIDs a b <= 0 -> compareOIDs b c <= 0 -> compareOIDs a c <= 0.
Proof. rewrite !compareOIDs_values. apply compare_values_trans. Qed.

Lemma compareOIDs_lt_le a b c :
  compareOIDs a b < 0 -> compareOIDs b c <= 0 -> compareOIDs a c < 0.
Proof.
  intros Hab Hbc.
  destruct (Z_lt_le_dec (compareOIDs a c) 0) as [|Hac]; [done|].
  assert (compareOIDs c a <= 0) as Hca by (rewrite compareOIDs_opp; lia).
  pose proof (compareOIDs_trans _ _ _ Hbc Hca) as Hba.
  rewrite compareOIDs_opp in Hba. lia.
Qed.

Lemma compareOIDs_le_lt a b c :
  compareOIDs a b <= 0 -> compareOIDs b c < 0 -> compareOIDs a c < 0.
Proof.
  intros Hab Hbc.
  destruct (Z_lt_le_dec (compareOIDs a c) 0) as [|Hac]; [done|].
  assert (compareOIDs c a <= 0) as Hca by (rewrite compareOIDs_opp; lia).
  pose proof (compareOIDs_trans _ _ _ Hca Hab) as Hcb.
  rewrite compareOIDs_opp in Hcb. lia.
Qed.

(** ** Sorting *)

Section SortSlice.
Context {A : Type} (less : A -> A -> bool).

Lemma sort_insert_perm x l : sort_insert less x l ≡ₚ x :: l.
  Proof.
    induction l as [|y l IH]; simpl; [done|].
    destruct (less x y); [done|]. rewrite IH. apply Permutation_swap.
  Qed.

Lemma sort_Slice_perm l : sort_Slice less l ≡ₚ l.
  Proof.
    induction l as [|x l IH]; simpl; [done|].
    rewrite sort_insert_perm. by rewrite IH.
  Qed.

Hypothesis less_asym : forall a b, less a b = true -> less b a = false.
Hypothesis not_after_trans :
    forall a b c, not_after less a b -> not_after less b c -> not_after less a c.

Lemma sort_insert_sorted x l :
    StronglySorted (not_after less) l -> StronglySorted (not_after less) (sort_insert less x l).
  Proof.
    induction 1 as [|y l Hl IH Hy]; simpl.
    - repeat constructor.
    - destruct (less x y) eqn:E.
      + constructor; [by constructor|].
        assert (not_after less x y) by (by apply less_asym).
        constructor; [done|].
        eapply Forall_impl; [exact Hy|]. intros z Hz. by eapply not_after_trans.
      + constructor; [done|].
        rewrite sort_insert_perm. by constructor.
  Qed.

Lemma sort_Slice_sorted l : StronglySorted (not_after less) (sort_Slice less l).
  Proof.
    induction l as [|x l IH]; simpl; [constructor|]. by apply sort_insert_sorted.
  Qed.

  (** Any other ordered arrangement of the same elements is the same list,
      when no two distinct elements are interchangeable. *)
Lemma sort_Slice_unique l l' :
    (forall a b, a ∈ l -> b ∈ l -> not_after less a b -> not_after less b a -> a = b) ->
    l' ≡ₚ l -> StronglySorted (not_after less) l' -> l' = sort_Slice less l.
  Proof.
    intros Hanti Hp Hs.
    apply (StronglySorted_unique_strong (not_after less)); [|done|apply sort_Slice_sorted|].
    - intros a b Ha Hb. apply Hanti.
      + by rewrite <- Hp.
      + by rewrite <- (sort_Slice_perm l).
    - by rewrite sort_Slice_perm.
  Qed.
End SortSlice.

Lemma StronglySorted_mono {A} (R R' : A -> A -> Prop) l :
  (forall a b, R a b -> R' a b) -> StronglySorted R l -> StronglySorted R' l.
Proof.
  intros HR. induction 1 as [|x l Hl IH Hx]; constructor; [done|].
  eapply Forall_impl; [exact Hx|]. intros y. apply HR.
Qed.

Lemma not_after_oid a b : not_after oid_less a b <-> compareOIDs a b <= 0.
Proof.
  unfold not_after, oid_less. rewrite (compareOIDs_opp a b).
  destruct (Z.ltb_spec (- compareOIDs a b) 0); split; (done || lia).
Qed.

Lemma sort_oids_sorted l :
  StronglySorted (fun a b => compareOIDs a b <= 0) (sort_Slice oid_less l).
Proof.
  eapply StronglySorted_mono; [|apply sort_Slice_sorted].
  - intros a b. by rewrite not_after_oid.
  - unfold oid_less. intros a b Hab. rewrite (compareOIDs_opp a b). lia.
  - intros a b c. rewrite !not_after_oid. apply compareOIDs_trans.
Qed.

(** ** Strings *)

#[local] Arguments Ascii.eqb : simpl never.

Lemma append_cons x (a b : string) : String x a +:+ b = String x (a +:+ b).
Proof. reflexivity. Qed.

Lemma append_nil_l (b : string) : "" +:+ b = b.
Proof. reflexivity. Qed.

Lemma append_assoc (a b c : string) : (a +:+ b) +:+ c = a +:+ (b +:+ c).
Proof.
  induction a as [|x a IH]; [done|]. rewrite !append_cons. by rewrite IH.
Qed.

Lemma append_nil_r (a : string) : a +:+ "" = a.
Proof. induction a as [|x a IH]; [done|]. rewrite append_cons. by rewrite IH. Qed.

Lemma append_inv_head (a b c : string) : a +:+ b = a +:+ c -> b = c.
Proof.
  induction a as [|x a IH]; [done|]. rewrite !append_cons. intros [= H]. by apply IH.
Qed.

Lemma Split_nonempty s sep : Split s sep <> [].
Proof.
  destruct s as [|c s]; simpl; [done|].
  destruct (Ascii.eqb c sep); [done|]. by destruct (Split s sep).
Qed.

Lemma Split_app_sep x y sep :
  Split (x +:+ String sep y) sep = Split x sep ++ Split y sep.
Proof.
  induction x as [|c x IH]; [rewrite append_nil_l|rewrite append_cons]; simpl.
  - by rewrite Ascii.eqb_refl.
  - destruct (Ascii.eqb c sep); [by rewrite IH|].
    rewrite IH. pose proof (Split_nonempty x sep). by destruct (Split x sep).
Qed.

Lemma Split_no_sep s sep : no_sep sep s = true -> Split s sep = [s].
Proof.
  induction s as [|c s IH]; simpl; [done|].
  intros [Hc Hs]%andb_true_iff. apply negb_true_iff in Hc. rewrite Hc.
  by rewrite IH.
Qed.

Lemma no_sep_app sep a b : no_sep sep (a +:+ b) = no_sep sep a && no_sep sep b.
Proof.
  induction a as [|c a IH]; [done|]. rewrite append_cons. simpl.
  rewrite IH. by rewrite andb_assoc.
Qed.

Lemma TrimPrefix_app base y :
  base <> "" -> TrimPrefix (base +:+ y) "." = TrimPrefix base "." +:+ y.
Proof.
  destruct base as [|c base]; [done|]. intros _.
  rewrite append_cons. unfold TrimPrefix. simpl.
  by destruct (Ascii.eqb "." c).
Qed.

(** *** Decimal integers *)

Lemma digit_of_char d : 0 <= d <= 9 -> digit_of (digit_char d) = Some d.
Proof.
  intros H.
  assert (d = 0 \/ d = 1 \/ d = 2 \/ d = 3 \/ d = 4 \/ d = 5 \/ d = 6 \/ d = 7
          \/ d = 8 \/ d = 9) as Hd by lia.
  repeat (destruct Hd as [->|Hd]; [reflexivity|]). by subst.
Qed.

Lemma is_digit_not_sep c : is_digit c = true ->
  Ascii.eqb c "." = false /\ Ascii.eqb c "-" = false /\ Ascii.eqb c "+" = false.
Proof.
  intros H. split_and!; destruct (Ascii.eqb_spec c "."), (Ascii.eqb_spec c "-"),
    (Ascii.eqb_spec c "+"); subst; done.
Qed.

Lemma digits_only_app a b : digits_only (a +:+ b) = digits_only a && digits_only b.
Proof.
  induction a as [|c a IH]; [done|]. rewrite append_cons. simpl.
  rewrite IH. by rewrite andb_assoc.
Qed.

Lemma digits_only_no_sep s : digits_only s = true -> no_sep dot s = true.
Proof.
  induction s as [|c s IH]; simpl; [done|].
  intros [Hc Hs]%andb_true_iff. destruct (is_digit_not_sep c Hc) as (Hdot & _).
  unfold dot. rewrite Hdot. simpl. by apply IH.
Qed.

Lemma parse_digits_snoc s d acc :
  0 <= d <= 9 ->
  parse_digits (s +:+ String (digit_char d) "") acc =
  match parse_digits s acc with Some v => Some (v * 10 + d) | None => None end.
Proof.
  intros Hd. revert acc.
  induction s as [|c s IH]; intros acc; [rewrite append_nil_l|rewrite append_cons]; simpl.
  - by rewrite digit_of_char.
  - destruct (digit_of c); [apply IH|done].
Qed.

Lemma utoa_S fuel n :
  utoa (S fuel) n =
  (if n <? 10 then "" else utoa fuel (n / 10)) +:+ String (digit_char (n mod 10)) "".
Proof. reflexivity. Qed.

#[local] Arguments utoa : simpl never.

Lemma utoa_digits fuel n : 0 <= n -> digits_only (utoa fuel n) = true.
Proof.
  revert n. induction fuel as [|fuel IH]; intros n Hn; [done|]. rewrite utoa_S.
  rewrite digits_only_app. simpl. unfold is_digit.
  rewrite digit_of_char by (pose proof (Z.mod_pos_bound n 10); lia).
  rewrite andb_true_r. destruct (n <? 10); [done|].
  apply IH. apply Z.div_pos; lia.
Qed.

Lemma utoa_nonempty fuel n : utoa (S fuel) n <> "".
Proof. rewrite utoa_S. by destruct (if n <? 10 then _ else _). Qed.

Lemma parse_utoa fuel n :
  0 <= n < 10 ^ Z.of_nat fuel -> parse_digits (utoa fuel n) 0 = Some n.
Proof.
  revert n. induction fuel as [|fuel IH]; intros n Hn.
  - assert (n = 0) as -> by (simpl in Hn; lia). done.
  - rewrite utoa_S. rewrite parse_digits_snoc by (pose proof (Z.mod_pos_bound n 10); lia).
    destruct (Z.ltb_spec n 10).
    + simpl. f_equal. rewrite Z.mod_small; lia.
    + rewrite IH.
      * f_equal. pose proof (Z.div_mod n 10). lia.
      * rewrite Nat2Z.inj_succ, Z.pow_succ_r in Hn by lia.
        split; [apply Z.div_pos; lia|]. apply Z.div_lt_upper_bound; lia.
Qed.

Lemma Atoi_digits s n :
  s <> "" -> digits_only s = true -> parse_digits s 0 = Some n ->
  in_int64 n = true -> Atoi s = Some n.
Proof.
  destruct s as [|c s]; [done|]. intros _ Hd Hp Hr.
  simpl in Hd. apply andb_true_iff in Hd as [Hc _].
  destruct (is_digit_not_sep c Hc) as (_ & Hm & Hplus).
  unfold Atoi. rewrite Hm, Hplus. simpl orb. cbv iota. rewrite Hp. by rewrite Hr.
Qed.

Lemma in_int64_iff z :
  in_int64 z = true <-> -9223372036854775808 <= z <= 9223372036854775807.
Proof.
  unfold in_int64. rewrite andb_true_iff, Z.leb_le, Z.ltb_lt.
  change (2 ^ 63) with 9223372036854775808. lia.
Qed.

Lemma Atoi_minus body n :
  body <> "" -> parse_digits body 0 = Some n -> in_int64 (- n) = true ->
  Atoi (String "-" body) = Some (- n).
Proof.
  intros Hne Hp Hr. unfold Atoi. cbv zeta. rewrite Ascii.eqb_refl. simpl orb. cbv iota.
  destruct body as [|c body]; [done|]. by rewrite Hp, Hr.
Qed.

Lemma Atoi_FormatInt z : in_int64 z = true -> Atoi (FormatInt z) = Some z.
Proof.
  intros Hz. pose proof Hz as Hr. apply in_int64_iff in Hr.
  assert (10 ^ Z.of_nat 19 = 10000000000000000000) as E10 by reflexivity.
  unfold FormatInt. destruct (Z.ltb_spec z 0).
  - rewrite <- (Z.opp_involutive z) at 2. apply Atoi_minus.
    + apply utoa_nonempty.
    + apply parse_utoa. lia.
    + by rewrite Z.opp_involutive.
  - apply Atoi_digits; [apply utoa_nonempty|apply utoa_digits; lia| |done].
    apply parse_utoa. lia.
Qed.

Lemma FormatInt_no_dot z : no_sep dot (FormatInt z) = true.
Proof.
  unfold FormatInt. destruct (Z.ltb_spec z 0).
  - simpl. apply digits_only_no_sep, utoa_digits. lia.
  - apply digits_only_no_sep, utoa_digits. lia.
Qed.

(** ** Addresses of the tree *)

Lemma Split_dotted x suffix :
  Split (x +:+ dotted suffix) dot = Split x dot ++ map FormatInt suffix.
Proof.
  revert x. induction suffix as [|z l IH]; intros x.
  - simpl. by rewrite append_nil_r, app_nil_r.
  - change (dotted (z :: l)) with (String dot (FormatInt z) +:+ dotted l).
    rewrite <- append_assoc, IH, Split_app_sep.
    rewrite (Split_no_sep (FormatInt z)) by apply FormatInt_no_dot.
    by rewrite <- app_assoc.
Qed.

Lemma map_atoi0_FormatInt l : all_int64 l -> map atoi0 (map FormatInt l) = l.
Proof.
  induction 1 as [|z l Hz Hl IH]; simpl; [done|].
  unfold atoi0 at 1. rewrite Atoi_FormatInt by done. by rewrite IH.
Qed.

Lemma oid_values_leaf base suffix :
  base <> "" -> all_int64 suffix ->
  oid_values (leaf_oid base suffix) = oid_values base ++ suffix.
Proof.
  intros Hb Hs. unfold oid_values, oid_parts, leaf_oid.
  rewrite TrimPrefix_app by done. rewrite Split_dotted, map_app.
  by rewrite map_atoi0_FormatInt.
Qed.

Lemma compareOIDs_leaf base s1 s2 :
  base <> "" -> all_int64 s1 -> all_int64 s2 ->
  compareOIDs (leaf_oid base s1) (leaf_oid base s2) = compare_values s1 s2.
Proof.
  intros Hb H1 H2. rewrite compareOIDs_values, !oid_values_leaf by done.
  apply compare_values_app.
Qed.

Lemma leaf_oid_inj base s1 s2 :
  base <> "" -> all_int64 s1 -> all_int64 s2 ->
  leaf_oid base s1 = leaf_oid base s2 -> s1 = s2.
Proof.
  intros Hb H1 H2 E. apply (f_equal oid_values) in E.
  rewrite !oid_values_leaf in E by done. by apply app_inv_head in E.
Qed.

(** *** [normalizeOID] *)

Lemma drop_last_length t : String.length (drop_last t) = pred (String.length t).
Proof.
  induction t as [|c t IH]; [done|]. destruct t as [|c' t]; [done|].
  change (drop_last (String c (String c' t))) with (String c (drop_last (String c' t))).
  simpl String.length in *. by rewrite IH.
Qed.

Lemma length_zero_empty t : String.length t = 0%nat -> t = "".
Proof. by destruct t. Qed.

Lemma strip_dots_nonempty fuel t : t <> "" -> strip_dots fuel t <> "".
Proof.
  revert t. induction fuel as [|fuel IH]; intros t Ht; simpl; [done|].
  destruct (HasSuffix t "." && (1 <? String.length t)%nat) eqn:E; [|done].
  apply IH. apply andb_true_iff in E as [_ E]. apply Nat.ltb_lt in E.
  intros Hd. apply (f_equal String.length) in Hd. rewrite drop_last_length in Hd.
  simpl in Hd. lia.
Qed.

(** The loop of [normalizeOID] runs to its exit condition: the fuel given to
    [strip_dots] is never used up. *)
Lemma strip_dots_done fuel t :
  (String.length t <= fuel)%nat ->
  HasSuffix (strip_dots fuel t) "." && (1 <? String.length (strip_dots fuel t))%nat = false.
Proof.
  revert t. induction fuel as [|fuel IH]; intros t Ht; simpl.
  - apply andb_false_iff. right. apply Nat.ltb_ge. lia.
  - destruct (HasSuffix t "." && (1 <? String.length t)%nat) eqn:E; [|done].
    apply IH. rewrite drop_last_length. lia.
Qed.

Lemma normalizeOID_nonempty oid : normalizeOID oid <> "".
Proof.
  unfold normalizeOID. destruct (String.eqb_spec (TrimSpace oid) ""); [done|].
  apply strip_dots_nonempty. by destruct (HasPrefix _ _).
Qed.

Lemma snapshotBase_nonempty cfg : snapshotBase cfg <> "".
Proof.
  unfold snapshotBase. destruct (String.eqb _ _); [done|]. apply normalizeOID_nonempty.
Qed.

(** ** The statistics store *)

Lemma firstSeen_snoc names n :
  firstSeen (names ++ [n]) =
  if bool_decide (n ∈ firstSeen names) then firstSeen names else firstSeen names ++ [n].
Proof. unfold firstSeen. by rewrite fold_left_app. Qed.

Lemma firstSeen_elem names n : n ∈ firstSeen names <-> n ∈ names.
Proof.
  induction names as [|m names IH] using rev_ind.
  - done.
  - rewrite firstSeen_snoc. case_bool_decide as Hm.
    + rewrite elem_of_app, list_elem_of_singleton, <- IH.
      split; [by left|]. by intros [?| ->].
    + rewrite !elem_of_app, !list_elem_of_singleton, IH. done.
Qed.

Lemma firstSeen_NoDup names : NoDup (firstSeen names).
Proof.
  induction names as [|m names IH] using rev_ind.
  - constructor.
  - rewrite firstSeen_snoc. case_bool_decide as Hm; [done|].
    apply NoDup_app. split_and!; [done| |apply NoDup_singleton].
    intros x Hx ->%list_elem_of_singleton. done.
Qed.

Lemma firstSeen_length names : (length (firstSeen names) <= length names)%nat.
Proof.
  induction names as [|m names IH] using rev_ind; [done|].
  rewrite firstSeen_snoc, length_app. simpl.
  case_bool_decide; [lia|]. rewrite length_app. simpl. lia.
Qed.

Lemma firstSeen_prefix names more :
  exists extra, firstSeen (names ++ more) = firstSeen names ++ extra.
Proof.
  induction more as [|m more IH] using rev_ind.
  - exists []. by rewrite !app_nil_r.
  - destruct IH as [extra IH]. rewrite app_assoc, firstSeen_snoc, IH.
    case_bool_decide; [by exists extra|].
    exists (extra ++ [m]). by rewrite app_assoc.
Qed.

(** The powers of two behind [wrap64], as numerals for [lia]. *)
Ltac wrap_consts :=
  unfold wrap64;
  change (2 ^ 63) with 9223372036854775808 in *;
  change (2 ^ 64) with 18446744073709551616 in *.

Lemma wrap64_range z : in_int64 (wrap64 z) = true.
Proof.
  apply in_int64_iff. wrap_consts.
  pose proof (Z.mod_pos_bound (z + 9223372036854775808) 18446744073709551616). lia.
Qed.

Lemma wrap64_small z : in_int64 z = true -> wrap64 z = z.
Proof. intros H%in_int64_iff. wrap_consts. rewrite Z.mod_small; lia. Qed.

Lemma wrap64_succ z : wrap64 (wrap64 z + 1) = wrap64 (z + 1).
Proof.
  wrap_consts. f_equal.
  replace ((z + 9223372036854775808) mod 18446744073709551616 - 9223372036854775808 + 1
             + 9223372036854775808)
    with ((z + 9223372036854775808) mod 18446744073709551616 + 1) by lia.
  replace (z + 1 + 9223372036854775808) with ((z + 9223372036854775808) + 1) by lia.
  by rewrite Zplus_mod_idemp_l.
Qed.

Lemma Write_step s r :
  (maxSize s <= Z.of_nat (length (cache s)) -> cache s <> []) ->
  exists s', Write s r = Some s' /\ WriteStep s r s'.
Proof.
  intros Hc. unfold Write.
  destruct (maxSize s <=? Z.of_nat (length (cache s))) eqn:Eleb.
  - apply Z.leb_le in Eleb as Hfull.
    destruct (cache s) as [|old rest] eqn:Ec; [by destruct (Hc Hfull)|]. simpl.
    destruct (stats s !! siteKey r) as [st|] eqn:Es;
      [|destruct (siteIndex s !! siteKey r) eqn:Ei]; simpl;
      rewrite ?Es, ?lookup_insert_eq; simpl; eexists; (split; [done|]);
      constructor; simpl; rewrite ?Ec, ?Eleb, ?Es, ?Ei, ?insert_insert_eq; done.
  - simpl.
    destruct (stats s !! siteKey r) as [st|] eqn:Es;
      [|destruct (siteIndex s !! siteKey r) eqn:Ei]; simpl;
      rewrite ?Es, ?lookup_insert_eq; simpl; eexists; (split; [done|]);
      constructor; simpl; rewrite ?Eleb, ?Es, ?Ei, ?insert_insert_eq; done.
Qed.

Lemma writes_snoc s rs r :
  writes s (rs ++ [r]) = s' ← writes s rs; Write s' r.
Proof.
  revert s. induction rs as [|x rs IH]; intros s; simpl.
  - by destruct (Write s r).
  - destruct (Write s x); simpl; [apply IH|done].
Qed.

Lemma writes_app s rs more :
  writes s (rs ++ more) = s' ← writes s rs; writes s' more.
Proof.
  revert s. induction rs as [|x rs IH]; intros s; simpl; [done|].
  destruct (Write s x); simpl; [apply IH|done].
Qed.

Lemma drop_snoc_window {A} (l : list A) (x : A) (cap : nat) :
  (0 < cap)%nat ->
  drop (length (l ++ [x]) - cap) (l ++ [x]) =
  (if (cap <=? length (drop (length l - cap) l))%nat
   then tail (drop (length l - cap) l) else drop (length l - cap) l) ++ [x].
Proof.
  intros Hcap. rewrite length_app. simpl. rewrite length_drop.
  destruct (Nat.leb_spec cap (length l - (length l - cap))) as [Hfull|Hroom].
  - assert (cap <= length l)%nat by lia.
    rewrite drop_app_le by lia. f_equal.
    replace (length l + 1 - cap)%nat with (S (length l - cap)) by lia.
    rewrite <- tl_drop. done.
  - assert (length l < cap)%nat by lia.
    replace (length l + 1 - cap)%nat with 0%nat by lia.
    replace (length l - cap)%nat with 0%nat by lia. by rewrite !drop_0.
Qed.

(** A buffer that holds the last results up to capacity is not empty when
    it is full. *)
Lemma window_full_nonempty (rs : list TestResult) :
  100 <= Z.of_nat (length (drop (length rs - 100) rs)) -> drop (length rs - 100) rs <> [].
Proof.
  rewrite length_drop. intros Hlen Hnil. apply (f_equal length) in Hnil.
  rewrite length_drop in Hnil. simpl in Hnil. lia.
Qed.

Lemma writes_reached cfg now rs :
  exists s, writes (newOutput cfg now) rs = Some s /\ Reached cfg now rs s.
Proof.
  induction rs as [|r rs IH] using rev_ind.
  - exists (newOutput cfg now). split; [done|]. constructor; simpl; try done.
    + intros n i. rewrite lookup_empty. split; [done|]. by intros (k & Hk & _).
    + intros n. rewrite lookup_empty. split; [by intros [? ?]|].
      by intros ?%elem_of_nil.
  - destruct IH as (s & Hs & R). rewrite writes_snoc, Hs. simpl.
    destruct R as [Rc Rt Rm Rch Rn Ri Rs].
    destruct (Write_step s r) as (s' & Hw & W).
    { rewrite Rm, Rch. apply window_full_nonempty. }
    exists s'. split; [done|].
    destruct W as [Wc Wt Wm Wch Wst Wi Wn].
    assert (stats s !! siteKey r = None <-> siteKey r ∉ firstSeen (map siteKey rs)) as Hnew.
    { rewrite <- Rs. rewrite eq_None_not_Some. done. }
    assert (siteIndex s !! siteKey r = None <-> siteKey r ∉ firstSeen (map siteKey rs)) as Hnewi.
    { rewrite eq_None_not_Some. split.
      - intros Hn Hin. apply Hn. apply list_elem_of_lookup in Hin as [k Hk].
        eexists. apply Ri. eauto.
      - intros Hn [i Hi]. apply Ri in Hi as (k & Hk & _). apply Hn.
        apply list_elem_of_lookup. eauto. }
    assert (firstSeen (map siteKey (rs ++ [r])) =
            if bool_decide (siteKey r ∈ firstSeen (map siteKey rs))
            then firstSeen (map siteKey rs)
            else firstSeen (map siteKey rs) ++ [siteKey r]) as Efs.
    { rewrite map_app. simpl map. apply firstSeen_snoc. }
    constructor; rewrite ?Efs.
    + congruence.
    + congruence.
    + congruence.
    + rewrite Wch, Rm, Rch.
      rewrite (drop_snoc_window rs r 100) by lia.
      destruct (Z.leb_spec 100 (Z.of_nat (length (drop (length rs - 100) rs)))),
        (Nat.leb_spec 100 (length (drop (length rs - 100) rs))); done || lia.
    + rewrite Wn. case_bool_decide as Hin.
      * assert (is_Some (stats s !! siteKey r)) as [st E] by (by apply Rs).
        by rewrite E.
      * apply Hnew in Hin as E. apply Hnewi in Hin as E'. rewrite E, E'.
        rewrite Rn, wrap64_succ, length_app. simpl. f_equal. lia.
    + intros n i. rewrite Wi. case_bool_decide as Hin.
      * assert (is_Some (stats s !! siteKey r)) as [st E] by (by apply Rs).
        rewrite E. apply Ri.
      * apply Hnew in Hin as E. apply Hnewi in Hin as E'. rewrite E, E'.
        rewrite Rn, wrap64_succ. destruct (decide (n = siteKey r)) as [->|Hne].
        -- rewrite lookup_insert_eq. split.
           ++ intros [= <-]. exists (length (firstSeen (map siteKey rs))). split.
              ** rewrite lookup_app_r by lia. by rewrite Nat.sub_diag.
              ** f_equal. lia.
           ++ intros (k & Hk & ->). f_equal.
              destruct (decide (k < length (firstSeen (map siteKey rs)))%nat) as [Hlt|Hge].
              ** rewrite lookup_app_l in Hk by done.
                 destruct Hin. apply list_elem_of_lookup. eauto.
              ** rewrite lookup_app_r in Hk by lia.
                 destruct (k - length (firstSeen (map siteKey rs)))%nat eqn:Ek; [|done].
                 f_equal. lia.
        -- rewrite lookup_insert_ne by done. rewrite Ri. split.
           ++ intros (k & Hk & ->). exists k. split; [|done].
              apply lookup_app_l_Some. done.
           ++ intros (k & Hk & ->). exists k. split; [|done].
              apply lookup_app_Some in Hk as [Hk|[_ Hk]]; [done|].
              destruct (k - length (firstSeen (map siteKey rs)))%nat; simpl in Hk;
                [injection Hk as Hk'; by destruct Hne|done].
    + intros n. rewrite Wst. rewrite lookup_insert_is_Some. rewrite Rs.
      case_bool_decide as Hin.
      * split; [intros [<-|[_ H]]; done|]. intros H.
        destruct (decide (siteKey r = n)); [by left|by right].
      * rewrite elem_of_app, list_elem_of_singleton. split.
        -- intros [<-|[_ H]]; [by right|by left].
        -- intros [H| ->]; [|by left].
           destruct (decide (siteKey r = n)); [by left|by right].
Qed.

(** ** The snapshot *)

Lemma fold_insert_snoc (l : list (string * SnmpPDU)) kv m :
  fold_left insert_binding (l ++ [kv]) m = <[kv.1 := kv.2]> (fold_left insert_binding l m).
Proof. by rewrite fold_left_app. Qed.

(** A binding read from the map is one that was written. *)
Lemma fold_insert_lookup_elem (l : list (string * SnmpPDU)) k v :
  fold_left insert_binding l ∅ !! k = Some v -> (k, v) ∈ l.
Proof.
  induction l as [|[k' v'] l IH] using rev_ind.
  - simpl. by rewrite lookup_empty.
  - rewrite fold_insert_snoc. simpl. rewrite lookup_insert.
    case_decide as Hk; simpl.
    + intros [= <-]. subst. apply elem_of_app. right. apply list_elem_of_here.
    + intros H. apply elem_of_app. left. by apply IH.
Qed.

(** When no address is written twice, the map holds exactly what was written. *)
Lemma fold_insert_lookup (l : list (string * SnmpPDU)) k v :
  NoDup l.*1 ->
  fold_left insert_binding l ∅ !! k = Some v <-> (k, v) ∈ l.
Proof.
  induction l as [|[k' v'] l IH] using rev_ind; intros Hnd.
  - simpl. rewrite lookup_empty. split; [done|]. by intros ?%elem_of_nil.
  - rewrite fmap_app in Hnd. apply NoDup_app in Hnd as (Hl & Hdis & _).
    rewrite fold_insert_snoc. simpl. rewrite lookup_insert, elem_of_app, list_elem_of_singleton.
    case_decide as Hk; simpl.
    + subst k'. split.
      * intros [= <-]. by right.
      * intros [Hin|[= <-]]; [|done].
        destruct (Hdis k).
        -- apply list_elem_of_fmap. by exists (k, v).
        -- apply list_elem_of_here.
    + rewrite IH by done. split; [by left|]. intros [?|[= <- <-]]; done.
Qed.

Section Snapshot.
Variable oor : Float64.float64 -> Z.

Lemma siteLeaves_fold sb m e :
  siteLeaves oor sb m e = fold_left insert_binding (leafBindings oor sb e) m.
Proof. reflexivity. Qed.

Lemma fold_siteLeaves sb es m :
  fold_left (siteLeaves oor sb) es m =
  fold_left insert_binding (flat_map (leafBindings oor sb) es) m.
Proof.
  revert m. induction es as [|e es IH]; intros m; [done|].
  cbn [fold_left flat_map]. rewrite fold_left_app, <- siteLeaves_fold. apply IH.
Qed.

Lemma buildOIDSnapshot_values s elapsed :
  (buildOIDSnapshot oor s elapsed).2 =
  fold_left insert_binding (snapshotBindings oor s elapsed) ∅.
Proof.
  unfold buildOIDSnapshot, snapshotBindings. cbv zeta. cbn [snd].
  rewrite fold_siteLeaves, fold_left_app. reflexivity.
Qed.

Lemma buildOIDSnapshot_oids s elapsed :
  (buildOIDSnapshot oor s elapsed).1 =
  sort_Slice oid_less (map_to_list (buildOIDSnapshot oor s elapsed).2).*1.
Proof.
  unfold buildOIDSnapshot. cbv zeta. cbn [fst snd]. f_equal.
  rewrite (fold_left_ext _ (fun oids kv => oids ++ [kv.1])) by (by intros r [k v]).
  by rewrite fold_left_snoc_map.
Qed.

Lemma collectEntries_concat s :
  collectEntries s = concat (map (entryOf s) (map_to_list (stats s))).
Proof.
  unfold collectEntries.
  rewrite (fold_left_ext _ (fun entries kv => entries ++ entryOf s kv)).
  - by rewrite fold_left_app_concat.
  - intros r [nm st]. unfold entryOf. simpl.
    destruct (siteIndex s !! nm); [done|]. by rewrite app_nil_r.
Qed.

Lemma elem_of_concat_map {A B} (f : A -> list B) (l : list A) (y : B) :
  y ∈ concat (map f l) <-> exists x, x ∈ l /\ y ∈ f x.
Proof.
  induction l as [|a l IH]; simpl.
  - split; [by intros ?%elem_of_nil|]. by intros (x & ?%elem_of_nil & _).
  - rewrite elem_of_app, IH. split.
    + intros [H|(x & Hx & Hy)].
      * exists a. split; [apply list_elem_of_here|done].
      * exists x. split; [by apply list_elem_of_further|done].
    + intros (x & [->|Hx]%elem_of_cons & Hy); [by left|]. right. eauto.
Qed.

Lemma elem_of_collectEntries s e :
  e ∈ collectEntries s <->
  stats s !! name e = Some (entry_stats e) /\ siteIndex s !! name e = Some (index e).
Proof.
  rewrite collectEntries_concat, elem_of_concat_map. split.
  - intros ([nm st] & Hin & He). apply elem_of_map_to_list in Hin.
    unfold entryOf in He. simpl in He.
    destruct (siteIndex s !! nm) eqn:E; [|by apply elem_of_nil in He].
    apply list_elem_of_singleton in He as ->. done.
  - intros [Hs Hi]. exists (name e, entry_stats e). split.
    + by apply elem_of_map_to_list.
    + unfold entryOf. simpl. rewrite Hi. apply list_elem_of_singleton. by destruct e.
Qed.

Lemma elem_of_snapshotEntries s e :
  e ∈ snapshotEntries s <->
  stats s !! name e = Some (entry_stats e) /\ siteIndex s !! name e = Some (index e).
Proof.
  unfold snapshotEntries. rewrite (sort_Slice_perm entry_less). apply elem_of_collectEntries.
Qed.

End Snapshot.

(** ** The addresses a snapshot holds *)

Lemma fst_concat_map {A B C} (f : A -> list (B * C)) (l : list A) :
  (concat (map f l)).*1 = concat (map (fun x => (f x).*1) l).
Proof.
  induction l as [|x l IH]; simpl; [done|]. by rewrite fmap_app, IH.
Qed.

Lemma map_concat_map {A B C} (g : B -> C) (f : A -> list B) (l : list A) :
  map g (concat (map f l)) = concat (map (fun x => map g (f x)) l).
Proof.
  induction l as [|x l IH]; simpl; [done|]. by rewrite map_app, IH.
Qed.

Lemma allSuffixes_elem indices sfx :
  sfx ∈ allSuffixes indices <->
  sfx ∈ scalarSuffixes \/ exists idx j, idx ∈ indices /\ j ∈ leafColumns /\ sfx = [5; idx; j].
Proof.
  unfold allSuffixes. rewrite elem_of_app, elem_of_concat_map.
  split; (intros [H|H]; [by left|right]).
  - destruct H as (idx & Hi & Hs). apply list_elem_of_fmap in Hs as (j & -> & Hj). eauto.
  - destruct H as (idx & j & Hi & Hj & ->). exists idx. split; [done|].
    apply list_elem_of_fmap. eauto.
Qed.

Lemma leafColumns_int64 j : j ∈ leafColumns -> in_int64 j = true.
Proof.
  unfold leafColumns. rewrite !elem_of_cons, elem_of_nil.
  intros H. repeat (destruct H as [->|H]; [done|]). done.
Qed.

Lemma allSuffixes_int64 indices sfx :
  Forall (fun i => in_int64 i = true) indices ->
  sfx ∈ allSuffixes indices -> all_int64 sfx.
Proof.
  intros Hi. rewrite allSuffixes_elem. intros [H|(idx & j & Hidx & Hj & ->)].
  - unfold scalarSuffixes in H. rewrite !elem_of_cons, elem_of_nil in H.
    repeat (destruct H as [->|H]; [by repeat constructor|]). done.
  - rewrite Forall_forall in Hi. repeat constructor; [by apply Hi|by apply leafColumns_int64].
Qed.

Lemma allSuffixes_NoDup indices : NoDup indices -> NoDup (allSuffixes indices).
Proof.
  intros Hnd. unfold allSuffixes. apply NoDup_app. split_and!.
  - by apply (bool_decide_unpack _).
  - intros sfx Hs (idx & _ & Hl)%elem_of_concat_map.
    apply list_elem_of_fmap in Hl as (j & -> & _).
    unfold scalarSuffixes in Hs. rewrite !elem_of_cons, elem_of_nil in Hs.
    repeat (destruct Hs as [?|Hs]; [done|]). done.
  - induction Hnd as [|i l Hi Hl IH]; cbn [map concat]; [constructor|].
    apply NoDup_app. split_and!; [|
      intros sfx (j & -> & _)%list_elem_of_fmap (i' & Hi' & (j' & [= <- _] & _)%list_elem_of_fmap)%elem_of_concat_map;
      done | done].
    unfold leafSuffixes. apply NoDup_fmap_2_strong.
    + by intros x y _ _ [= ->].
    + by apply (bool_decide_unpack _).
Qed.

Section SnapshotKeys.
Variable oor : Float64.float64 -> Z.

Lemma scalarBindings_keys s elapsed :
  (scalarBindings oor s elapsed).*1 = map (leaf_oid (snapshotBase (config s))) scalarSuffixes.
Proof. reflexivity. Qed.

Lemma leafBindings_keys base e :
  (leafBindings oor (base +:+ ".5") e).*1 = map (leaf_oid base) (leafSuffixes (index e)).
Proof.
  unfold leafBindings, leafSuffixes, leafColumns, leaf_oid. cbv zeta.
  cbn [map fmap list_fmap fst]. rewrite !append_assoc. reflexivity.
Qed.

Lemma snapshotBindings_keys s elapsed :
  (snapshotBindings oor s elapsed).*1 =
  map (leaf_oid (snapshotBase (config s))) (allSuffixes (map index (snapshotEntries s))).
Proof.
  unfold snapshotBindings, allSuffixes. rewrite fmap_app, map_app. f_equal.
  rewrite flat_map_concat_map, fst_concat_map, map_concat_map, map_map.
  f_equal. apply map_ext. intros e. apply leafBindings_keys.
Qed.

Lemma snapshotEntries_index s idx :
  idx ∈ map index (snapshotEntries s) ->
  exists n, siteIndex s !! n = Some idx /\ is_Some (stats s !! n).
Proof.
  intros (e & -> & He)%list_elem_of_fmap. apply elem_of_snapshotEntries in He as [Hs Hi].
  exists (name e). eauto.
Qed.

Lemma snapshotEntries_int64 s :
  int64_indices s ->
  Forall (fun i => in_int64 i = true) (map index (snapshotEntries s)).
Proof.
  intros Ht. apply Forall_forall. intros idx (n & Hn & _)%snapshotEntries_index.
  by apply (Ht n).
Qed.

Lemma collectEntries_NoDup s : index_inj s -> NoDup (map index (collectEntries s)).
Proof.
  intros Hinj. rewrite collectEntries_concat.
  pose proof (NoDup_fst_map_to_list (stats s)) as Hnd.
  induction (map_to_list (stats s)) as [|[nm st] l IH]; simpl; [constructor|].
  simpl in Hnd. apply NoDup_cons in Hnd as [Hnm Hl].
  rewrite map_app. unfold entryOf at 1. simpl.
  destruct (siteIndex s !! nm) as [idx|] eqn:E; simpl; [|by apply IH].
  constructor; [|by apply IH].
  intros (e & He & Hin)%list_elem_of_fmap.
  apply elem_of_concat_map in Hin as ([nm' st'] & Hl' & He').
  unfold entryOf in He'. simpl in He'.
  destruct (siteIndex s !! nm') as [idx'|] eqn:E'; [|by apply elem_of_nil in He'].
  apply list_elem_of_singleton in He' as ->. simpl in He. subst idx'.
  assert (nm' = nm) as -> by (by eapply Hinj).
  apply Hnm. apply list_elem_of_fmap. by exists (nm, st').
Qed.

Lemma snapshotEntries_NoDup s : index_inj s -> NoDup (map index (snapshotEntries s)).
Proof.
  intros Hinj. unfold snapshotEntries.
  rewrite (sort_Slice_perm entry_less). by apply collectEntries_NoDup.
Qed.

Lemma snapshotBindings_NoDup s elapsed :
  int64_indices s -> index_inj s -> NoDup (snapshotBindings oor s elapsed).*1.
Proof.
  intros Ht Hinj. rewrite snapshotBindings_keys.
  apply NoDup_fmap_2_strong; [|by apply allSuffixes_NoDup, snapshotEntries_NoDup].
  pose proof (snapshotEntries_int64 s Ht) as Hi.
  intros x y Hx Hy. apply leaf_oid_inj;
    [apply snapshotBase_nonempty|by eapply allSuffixes_int64..].
Qed.

(** Every address of the snapshot is [base.suffix] for a suffix of the layout. *)
Lemma snapshot_key_suffix s elapsed k :
  is_Some ((buildOIDSnapshot oor s elapsed).2 !! k) ->
  exists sfx, sfx ∈ allSuffixes (map index (snapshotEntries s)) /\
              k = leaf_oid (snapshotBase (config s)) sfx.
Proof.
  intros [v Hv]. rewrite buildOIDSnapshot_values in Hv.
  apply fold_insert_lookup_elem in Hv.
  assert (k ∈ (snapshotBindings oor s elapsed).*1) as Hk.
  { apply list_elem_of_fmap. by exists (k, v). }
  rewrite snapshotBindings_keys in Hk.
  apply list_elem_of_fmap in Hk as (sfx & -> & Hs). eauto.
Qed.

Lemma timeGauge_Name oid t : Name (timeGauge oid t) = oid.
Proof. unfold timeGauge. by destruct (negb (IsZero t)). Qed.

Lemma snapshotBindings_Name s elapsed k v :
  (k, v) ∈ snapshotBindings oor s elapsed -> Name v = k.
Proof.
  unfold snapshotBindings. rewrite elem_of_app. intros [H|H].
  - unfold scalarBindings in H. cbv zeta in H. rewrite !elem_of_cons, elem_of_nil in H.
    repeat (destruct H as [[= -> ->]|H]; [done|]). done.
  - rewrite flat_map_concat_map in H. apply elem_of_concat_map in H as (e & _ & H).
    unfold leafBindings in H. cbv zeta in H. rewrite !elem_of_cons, elem_of_nil in H.
    repeat (destruct H as [[= -> ->]|H]; [done || apply timeGauge_Name|]). done.
Qed.

Lemma snapshot_Name s elapsed k v :
  (buildOIDSnapshot oor s elapsed).2 !! k = Some v -> Name v = k.
Proof.
  rewrite buildOIDSnapshot_values. intros H%fold_insert_lookup_elem.
  by eapply snapshotBindings_Name.
Qed.

(** On the addresses of one snapshot the comparison separates any two. *)
Lemma snapshot_compare_zero s elapsed a b :
  int64_indices s ->
  is_Some ((buildOIDSnapshot oor s elapsed).2 !! a) ->
  is_Some ((buildOIDSnapshot oor s elapsed).2 !! b) ->
  compareOIDs a b = 0 -> a = b.
Proof.
  intros Ht (sa & Ha & ->)%snapshot_key_suffix (sb & Hb & ->)%snapshot_key_suffix.
  pose proof (snapshotEntries_int64 s Ht) as Hi.
  rewrite compareOIDs_leaf;
    [|apply snapshotBase_nonempty|by eapply allSuffixes_int64..].
  by intros ->%compare_values_zero_eq.
Qed.

End SnapshotKeys.

(** ** Reachable stores *)

Lemma aggregateOf_snoc n rs r :
  aggregateOf n (rs ++ [r]) =
  if bool_decide (siteKey r = n)
  then Some (updateStats (default (newStats r) (aggregateOf n rs)) r)
  else aggregateOf n rs.
Proof. unfold aggregateOf. by rewrite fold_left_app. Qed.

Lemma writes_stats cfg now rs s n :
  writes (newOutput cfg now) rs = Some s -> stats s !! n = aggregateOf n rs.
Proof.
  revert s. induction rs as [|r rs IH] using rev_ind; intros s.
  - simpl. intros [= <-]. simpl. apply lookup_empty.
  - rewrite writes_snoc. destruct (writes_reached cfg now rs) as (s0 & Hs0 & R).
    rewrite Hs0. simpl. intros Hw.
    destruct (Write_step s0 r) as (s' & Hw' & W).
    { rewrite (reached_maxSize _ _ _ _ R), (reached_cache _ _ _ _ R).
      apply window_full_nonempty. }
    rewrite Hw in Hw'. injection Hw' as <-.
    rewrite (step_stats _ _ _ W), aggregateOf_snoc, lookup_insert.
    case_decide as Hk; case_bool_decide; try done.
    + subst n. by rewrite (IH s0 Hs0).
    + by apply IH.
Qed.

Lemma aggregateOf_never_succeeded n rs st :
  aggregateOf n rs = Some st ->
  (forall r, r ∈ rs -> siteKey r = n -> Success r = false) ->
  LastSuccessTime st = zeroTime.
Proof.
  revert st. induction rs as [|r rs IH] using rev_ind; intros st; [done|].
  rewrite aggregateOf_snoc. intros Hst Hnever.
  assert (forall r', r' ∈ rs -> siteKey r' = n -> Success r' = false) as Hrs.
  { intros r' Hr'. apply Hnever. apply elem_of_app. by left. }
  case_bool_decide as Hk; [|by apply IH].
  injection Hst as <-. simpl.
  rewrite (Hnever r); [|apply elem_of_app; right; apply list_elem_of_here|done].
  destruct (aggregateOf n rs) as [st0|] eqn:E; simpl; [by apply IH|done].
Qed.

Lemma aggregateOf_never_failed n rs st :
  aggregateOf n rs = Some st ->
  (forall r, r ∈ rs -> siteKey r = n -> Success r = true) ->
  LastFailureTime st = zeroTime.
Proof.
  revert st. induction rs as [|r rs IH] using rev_ind; intros st; [done|].
  rewrite aggregateOf_snoc. intros Hst Hnever.
  assert (forall r', r' ∈ rs -> siteKey r' = n -> Success r' = true) as Hrs.
  { intros r' Hr'. apply Hnever. apply elem_of_app. by left. }
  case_bool_decide as Hk; [|by apply IH].
  injection Hst as <-. simpl.
  rewrite (Hnever r); [|apply elem_of_app; right; apply list_elem_of_here|done].
  destruct (aggregateOf n rs) as [st0|] eqn:E; simpl; [by apply IH|done].
Qed.

Lemma reached_int64 cfg now rs s : Reached cfg now rs s -> int64_indices s.
Proof.
  intros R n i Hi. apply (reached_index _ _ _ _ R) in Hi as (k & _ & ->).
  apply wrap64_range.
Qed.

Lemma reached_index_exact cfg now rs s :
  Reached cfg now rs s ->
  Z.of_nat (length (distinctSites rs)) < 2 ^ 63 ->
  forall n i,
    siteIndex s !! n = Some i <->
    exists k, distinctSites rs !! k = Some n /\ i = Z.of_nat k + 1.
Proof.
  intros R Hc n i. rewrite (reached_index _ _ _ _ R). unfold distinctSites in *.
  split; intros (k & Hk & ->); exists k; (split; [done|]);
    apply lookup_lt_Some in Hk as Hlt;
    rewrite wrap64_small; try lia; apply in_int64_iff;
    change (2 ^ 63) with 9223372036854775808 in Hc; lia.
Qed.

Lemma reached_index_inj cfg now rs s :
  Reached cfg now rs s ->
  Z.of_nat (length (distinctSites rs)) < 2 ^ 63 ->
  index_inj s.
Proof.
  intros R Hc n1 n2 i H1 H2.
  apply (reached_index_exact _ _ _ _ R Hc) in H1 as (k1 & Hk1 & ->).
  apply (reached_index_exact _ _ _ _ R Hc) in H2 as (k2 & Hk2 & E).
  assert (k1 = k2) as -> by lia. congruence.
Qed.

Lemma reached_stats_index cfg now rs s n :
  Reached cfg now rs s -> is_Some (stats s !! n) <-> is_Some (siteIndex s !! n).
Proof.
  intros R. rewrite (reached_stats _ _ _ _ R). split.
  - intros [k Hk]%list_elem_of_lookup. eexists. apply (reached_index _ _ _ _ R). eauto.
  - intros [i (k & Hk & _)%(reached_index _ _ _ _ R)]. apply list_elem_of_lookup. eauto.
Qed.

Lemma reached_size cfg now rs s :
  Reached cfg now rs s -> size (siteIndex s) = length (distinctSites rs).
Proof.
  intros R. rewrite <- size_dom.
  assert (dom (siteIndex s) = list_to_set (distinctSites rs)) as ->.
  { apply set_eq. intros n. rewrite elem_of_dom, elem_of_list_to_set.
    rewrite <- (reached_stats_index _ _ _ _ _ R). apply (reached_stats _ _ _ _ R). }
  apply size_list_to_set, firstSeen_NoDup.
Qed.

Lemma reached_cache_length cfg now rs s :
  Reached cfg now rs s -> (length (cache s) <= 100)%nat.
Proof. intros R. rewrite (reached_cache _ _ _ _ R), length_drop. lia. Qed.

Lemma reached_step cfg now rs s r :
  Reached cfg now rs s -> exists s', Write s r = Some s' /\ WriteStep s r s'.
Proof.
  intros R. apply Write_step.
  rewrite (reached_maxSize _ _ _ _ R), (reached_cache _ _ _ _ R).
  apply window_full_nonempty.
Qed.

(** ** The sorted table *)

Lemma StronglySorted_strict (l : list string) :
  StronglySorted (fun a b => compareOIDs a b <= 0) l ->
  NoDup l ->
  (forall a b, a ∈ l -> b ∈ l -> compareOIDs a b = 0 -> a = b) ->
  StronglySorted (fun a b => compareOIDs a b < 0) l.
Proof.
  induction 1 as [|x l Hl IH Hx]; intros Hnd Hsep; [constructor|].
  apply NoDup_cons in Hnd as [Hx' Hnd]. constructor.
  - apply IH; [done|]. intros a b Ha Hb. apply Hsep; by apply list_elem_of_further.
  - rewrite Forall_forall in Hx |- *. intros y Hy. specialize (Hx y Hy).
    destruct (decide (compareOIDs x y = 0)) as [E|]; [|lia].
    apply Hsep in E; [|apply list_elem_of_here|by apply list_elem_of_further].
    by subst.
Qed.

Section SnapshotTable.
Variable oor : Float64.float64 -> Z.

Lemma snapshotOIDs_elem s elapsed k :
  k ∈ snapshotOIDs oor s elapsed <-> is_Some (snapshotValues oor s elapsed !! k).
Proof.
  unfold snapshotOIDs, snapshotValues. rewrite buildOIDSnapshot_oids.
  rewrite (sort_Slice_perm oid_less). rewrite list_elem_of_fmap. split.
  - intros ([k' v] & -> & Hin). apply elem_of_map_to_list in Hin. by exists v.
  - intros [v Hv]. exists (k, v). split; [done|]. by apply elem_of_map_to_list.
Qed.

Lemma snapshotOIDs_NoDup s elapsed : NoDup (snapshotOIDs oor s elapsed).
Proof.
  unfold snapshotOIDs. rewrite buildOIDSnapshot_oids.
  rewrite (sort_Slice_perm oid_less). apply NoDup_fst_map_to_list.
Qed.

Lemma snapshotOIDs_separated s elapsed a b :
  int64_indices s ->
  a ∈ snapshotOIDs oor s elapsed -> b ∈ snapshotOIDs oor s elapsed ->
  compareOIDs a b = 0 -> a = b.
Proof.
  intros Ht Ha%snapshotOIDs_elem Hb%snapshotOIDs_elem.
  by apply (snapshot_compare_zero oor s elapsed).
Qed.

Lemma snapshotOIDs_sorted s elapsed :
  int64_indices s ->
  StronglySorted (fun a b => compareOIDs a b < 0) (snapshotOIDs oor s elapsed).
Proof.
  intros Ht. apply StronglySorted_strict.
  - unfold snapshotOIDs. rewrite buildOIDSnapshot_oids. apply sort_oids_sorted.
  - apply snapshotOIDs_NoDup.
  - intros a b. by apply snapshotOIDs_separated.
Qed.

Lemma snapshotValues_lookup s elapsed k v :
  int64_indices s -> index_inj s ->
  snapshotValues oor s elapsed !! k = Some v <-> (k, v) ∈ snapshotBindings oor s elapsed.
Proof.
  intros Ht Hinj. unfold snapshotValues. rewrite buildOIDSnapshot_values.
  apply fold_insert_lookup. by apply snapshotBindings_NoDup.
Qed.

End SnapshotTable.

(** ** GetNext on a sorted table *)

Lemma nextOID_smallest sorted current next :
  StronglySorted (fun a b => compareOIDs a b < 0) sorted ->
  nextOID sorted current = Some next ->
  next ∈ sorted /\ compareOIDs next current > 0 /\
  forall t, t ∈ sorted -> compareOIDs t current > 0 ->
            t = next \/ compareOIDs next t < 0.
Proof.
  intros Hs (before & after & -> & Hgt & Hb)%nextOID_Some. split_and!.
  - apply elem_of_app. right. apply list_elem_of_here.
  - done.
  - intros t Ht Htc. apply elem_of_app in Ht as [Ht|Ht].
    + rewrite Forall_forall in Hb. specialize (Hb t Ht). lia.
    + apply elem_of_cons in Ht as [->|Ht]; [by left|]. right.
      apply StronglySorted_app_1_r in Hs. inversion Hs as [|? ? _ Hall]; subst.
      rewrite Forall_forall in Hall. by apply Hall.
Qed.

Lemma nextOID_none_top sorted current top :
  StronglySorted (fun a b => compareOIDs a b < 0) sorted ->
  last sorted = Some top ->
  nextOID sorted current = None <-> compareOIDs current top >= 0.
Proof.
  intros Hs Hlast. rewrite nextOID_None, Forall_forall.
  apply last_Some in Hlast as [front ->].
  rewrite (compareOIDs_opp top current). split.
  - intros H. specialize (H top). rewrite elem_of_app, list_elem_of_singleton in H.
    specialize (H (or_intror eq_refl)). lia.
  - intros Htop t [Ht| ->%list_elem_of_singleton]%elem_of_app; [|lia].
    pose proof (StronglySorted_app_1_elem_of _ _ _ t top Hs Ht
                  (list_elem_of_here _ _)) as Hlt. simpl in Hlt.
    apply compareOIDs_trans with top; lia.
Qed.

(** ** The dispatcher *)

(** C4. Get: one reply per requested address, in request order; an address of
    the table yields the value bound to it, any other address a "no such
    object" marker at that address; the reply at a position depends on the
    variable at that position alone, so an absent address changes nothing
    for the others. [handleGet] is a total function: the request as a whole
    cannot fail. *)
Theorem handleGet_per_address (vars : list SnmpPDU) (valueMap : gmap string SnmpPDU) :
  length (handleGet vars valueMap) = length vars /\
  (forall i vb, vars !! i = Some vb ->
     let oid := normalizeOID (Name vb) in
     handleGet vars valueMap !! i =
     Some (match valueMap !! oid with
           | Some val => val
           | None => {| Name := oid; Type_ := NoSuchObject; Value := ValNil |}
           end)) /\
  (forall vars' i, vars' !! i = vars !! i ->
     handleGet vars' valueMap !! i = handleGet vars valueMap !! i).
Proof.
  rewrite handleGet_map. split_and!.
  - apply length_map.
  - intros i vb Hi. cbv zeta. rewrite list_lookup_fmap, Hi. done.
  - intros vars' i Hi. rewrite handleGet_map.
    change (map (getReply valueMap)) with (fmap (M := list) (getReply valueMap)).
    by rewrite !list_lookup_fmap, Hi.
Qed.

Section Dispatcher.
Variable oor : Float64.float64 -> Z.

Lemma snapshotOIDs_nonempty s elapsed :
  exists top, last (snapshotOIDs oor s elapsed) = Some top.
Proof.
  assert (exists k, k ∈ snapshotOIDs oor s elapsed) as [k Hk].
  { exists (snapshotBase (config s) +:+ ".1.0"). apply snapshotOIDs_elem.
    unfold snapshotValues. rewrite buildOIDSnapshot_values.
    unfold snapshotBindings. rewrite fold_left_app.
    generalize (flat_map (leafBindings oor (snapshotBase (config s) +:+ ".5")) (snapshotEntries s)).
    intros l. induction l as [|[k v] l IH] using rev_ind.
    - simpl. unfold insert_binding. simpl. rewrite !lookup_insert_is_Some.
      destruct (decide (snapshotBase (config s) +:+ ".4.0" = snapshotBase (config s) +:+ ".1.0"))
        as [E|]; [by left|right; split; [done|]].
      destruct (decide (snapshotBase (config s) +:+ ".3.0" = snapshotBase (config s) +:+ ".1.0"))
        as [E|]; [by left|right; split; [done|]].
      destruct (decide (snapshotBase (config s) +:+ ".2.0" = snapshotBase (config s) +:+ ".1.0"))
        as [E|]; [by left|right; split; [done|]].
      by left.
    - rewrite fold_insert_snoc. simpl. rewrite lookup_insert_is_Some.
      destruct (decide (k = snapshotBase (config s) +:+ ".1.0")); [by left|by right]. }
  destruct (snapshotOIDs oor s elapsed) as [|x l] using rev_ind.
  - by apply elem_of_nil in Hk.
  - exists x. apply last_snoc.
Qed.

(** C1. GetNext on the snapshot of any store a run of writes can reach: one
    reply per requested address, in request order. For the normalized
    requested address [req], either the table has an address greater than
    [req], and the reply is the value bound to the smallest such address,
    which carries that address as its name;
    or it has none, which is the case exactly when [req] is not below the
    greatest address of the table, and the reply is an end-of-tree marker
    at [req]. *)
Theorem handleGetNext_smallest_greater (cfg : SNMPConfig) (now : Time)
    (rs : list TestResult) (elapsed : Z) (vars : list SnmpPDU) :
  exists s, writes (newOutput cfg now) rs = Some s /\
    let sorted := snapshotOIDs oor s elapsed in
    let values := snapshotValues oor s elapsed in
    let replies := handleGetNext vars values sorted in
    length replies = length vars /\
    forall i vb, vars !! i = Some vb ->
      let req := normalizeOID (Name vb) in
      (exists next pdu,
          next ∈ sorted /\ compareOIDs next req > 0 /\
          (forall t, t ∈ sorted -> compareOIDs t req > 0 ->
                     t = next \/ compareOIDs next t < 0) /\
          values !! next = Some pdu /\ Name pdu = next /\
          replies !! i = Some pdu)
      \/
      ((forall t, t ∈ sorted -> compareOIDs t req <= 0) /\
       (exists top, last sorted = Some top /\ compareOIDs req top >= 0) /\
       replies !! i = Some {| Name := req; Type_ := EndOfMibView; Value := ValNil |}).
Proof.
  destruct (writes_reached cfg now rs) as (s & Hs & R). exists s. split; [done|].
  cbv zeta. pose proof (reached_int64 _ _ _ _ R) as Ht.
  pose proof (snapshotOIDs_sorted oor s elapsed Ht) as Hsorted.
  rewrite handleGetNext_map. split; [apply length_map|].
  intros i vb Hi. rewrite list_lookup_fmap, Hi. simpl. unfold nextReply.
  destruct (nextOID (snapshotOIDs oor s elapsed) (normalizeOID (Name vb))) as [next|] eqn:E.
  - left. destruct (nextOID_smallest _ _ _ Hsorted E) as (Hin & Hgt & Hmin).
    apply snapshotOIDs_elem in Hin as Hv. destruct Hv as [pdu Hpdu].
    exists next, pdu. split_and!; try done.
    + by apply (snapshot_Name oor s elapsed).
    + unfold index_map. by rewrite Hpdu.
  - right. destruct (snapshotOIDs_nonempty s elapsed) as [top Htop]. split_and!.
    + apply nextOID_None in E. by rewrite Forall_forall in E.
    + exists top. split; [done|]. by apply (nextOID_none_top _ _ _ Hsorted Htop).
    + done.
Qed.

(** C2. [compareOIDs] compares the dotted components of two addresses as
    integers, position by position ([oid_values], [compare_values]), so
    [.5.2.1] sorts before [.5.10.1]. On the table of any snapshot it is a
    strict total order: two distinct addresses never compare equal, exactly
    one of them is below the other, the order is transitive, the table is
    strictly ascending in it, and it is the only ascending arrangement of
    its addresses. *)
Theorem compareOIDs_total_on_snapshot (cfg : SNMPConfig) (now : Time)
    (rs : list TestResult) (elapsed : Z) :
  compareOIDs ".5.2.1" ".5.10.1" = -1 /\
  (forall a b, compareOIDs a b = compare_values (oid_values a) (oid_values b)) /\
  exists s, writes (newOutput cfg now) rs = Some s /\
    let table := snapshotOIDs oor s elapsed in
    (forall a b, a ∈ table -> b ∈ table -> a <> b ->
       (compareOIDs a b < 0 /\ compareOIDs b a > 0) \/
       (compareOIDs a b > 0 /\ compareOIDs b a < 0)) /\
    (forall a b, a ∈ table -> b ∈ table -> compareOIDs a b = 0 -> a = b) /\
    (forall a b c, compareOIDs a b < 0 -> compareOIDs b c < 0 -> compareOIDs a c < 0) /\
    StronglySorted (fun a b => compareOIDs a b < 0) table /\
    (forall l, l ≡ₚ table -> StronglySorted (fun a b => compareOIDs a b <= 0) l ->
               l = table).
Proof.
  split; [by vm_compute|]. split; [apply compareOIDs_values|].
  destruct (writes_reached cfg now rs) as (s & Hs & R). exists s. split; [done|].
  cbv zeta. pose proof (reached_int64 _ _ _ _ R) as Ht.
  pose proof (snapshotOIDs_sorted oor s elapsed Ht) as Hsorted.
  split_and!.
  - intros a b Ha Hb Hne. rewrite (compareOIDs_opp a b).
    destruct (decide (compareOIDs a b = 0)) as [E|E].
    + by apply (snapshotOIDs_separated oor s elapsed) in E.
    + lia.
  - intros a b. by apply snapshotOIDs_separated.
  - intros a b c Hab Hbc. apply compareOIDs_lt_le with b; lia.
  - done.
  - intros l Hp Hl.
    apply (StronglySorted_unique_strong (fun a b => compareOIDs a b <= 0)); try done.
    + intros a b Ha Hb Hab Hba. rewrite (compareOIDs_opp a b) in Hba.
      apply (snapshotOIDs_separated oor s elapsed); [done|by rewrite <- Hp|done|lia].
    + eapply StronglySorted_mono; [|exact Hsorted]. simpl. intros. lia.
Qed.

End Dispatcher.

(** C3, as amended. GetBulk, at a request whose reply buffer of
    [len(vars) * r] entries can be made, with [k] non-repeaters (clamped
    to the number of addresses) and [r] repetitions (clamped to at least
    one): the first [k] addresses get one GetNext reply each, and every
    other address is walked as a cursor ([walkReplies]: resolve next, emit,
    advance to the name of the value returned). The reply count is at most
    [k + m * r]; it is exactly that when no cursor is exhausted; an
    exhausted cursor contributes the values it found followed by one
    end-of-tree marker, at most [r] replies in all. *)
Theorem handleGetBulk_reply_count (packet : SnmpPacket)
    (valueMap : gmap string SnmpPDU) (sortedOIDs : list string)
    (Hcap : makeslice (bulkCapacity packet) = true) :
  let vars := Variables packet in
  let k := clampNonRepeaters packet in
  let r := clampMaxRepetitions packet in
  let m := (length vars - k)%nat in
  let walk vb := walkReplies valueMap sortedOIDs r (normalizeOID (Name vb)) in
  exists replies,
    handleGetBulk packet valueMap sortedOIDs = Some replies /\
    (1 <= r)%nat /\ (k <= length vars)%nat /\
    replies = map (nextReply valueMap sortedOIDs) (firstn k vars)
              ++ concat (map walk (skipn k vars)) /\
    (length replies <= k + m * r)%nat /\
    ((forall vb, vb ∈ skipn k vars ->
        exhausted valueMap sortedOIDs r (normalizeOID (Name vb)) = false) ->
     length replies = (k + m * r)%nat) /\
    (forall vb, vb ∈ skipn k vars ->
        exhausted valueMap sortedOIDs r (normalizeOID (Name vb)) = true ->
        exists found last_oid,
          walk vb = found ++ [{| Name := last_oid; Type_ := EndOfMibView; Value := ValNil |}] /\
          nextOID sortedOIDs last_oid = None /\
          (length found < r)%nat).
Proof.
  cbv zeta. rewrite handleGetBulk_eq, Hcap. eexists. split; [reflexivity|].
  set (k := clampNonRepeaters packet). set (r := clampMaxRepetitions packet).
  assert (k <= length (Variables packet))%nat as Hk by (unfold k, clampNonRepeaters; lia).
  assert (forall l : list SnmpPDU,
    (length (concat (map (fun vb => walkReplies valueMap sortedOIDs r
               (normalizeOID (Name vb))) l)) <= length l * r)%nat) as Hle.
  { induction l as [|vb l IH]; simpl; [lia|]. rewrite length_app.
    pose proof (walkReplies_length valueMap sortedOIDs r (normalizeOID (Name vb))). lia. }
  split_and!.
  - unfold r, clampMaxRepetitions. lia.
  - done.
  - done.
  - rewrite length_app, length_map, length_take.
    specialize (Hle (skipn k (Variables packet))). rewrite length_skipn in Hle. lia.
  - intros Hfull. rewrite length_app, length_map, length_take.
    assert (length (concat (map (fun vb => walkReplies valueMap sortedOIDs r
               (normalizeOID (Name vb))) (skipn k (Variables packet))))
            = (length (skipn k (Variables packet)) * r)%nat) as ->.
    { induction (skipn k (Variables packet)) as [|vb l IH]; simpl; [done|].
      rewrite length_app, walkReplies_full.
      - rewrite IH; [lia|]. intros vb' Hvb'. apply Hfull. by apply list_elem_of_further.
      - apply Hfull. apply list_elem_of_here. }
    rewrite length_skipn. lia.
  - intros vb _ Hex.
    destruct (walkReplies_exhausted _ _ _ _ Hex) as (found & last_oid & E & Hnone).
    exists found, last_oid. split_and!; [done|done|].
    pose proof (walkReplies_length valueMap sortedOIDs r (normalizeOID (Name vb))) as Hlen.
    rewrite E, length_app in Hlen. simpl in Hlen. lia.
Qed.

(** ** The store under writes *)

(** C5. After any sequence of writes to a new agent the history buffer holds
    at most 100 results: the last 100 written, in the order written. A
    further write appends its result; when the buffer is at capacity it
    drops exactly the oldest result first and keeps the others in order. The
    write returns: the slice [s.cache[1:]] is never taken of an empty
    buffer. *)
Theorem cache_bounded_fifo (cfg : SNMPConfig) (now : Time)
    (rs : list TestResult) (r : TestResult) :
  exists s s',
    writes (newOutput cfg now) rs = Some s /\ Write s r = Some s' /\
    maxSize s = 100 /\
    (length (cache s) <= 100)%nat /\ (length (cache s') <= 100)%nat /\
    cache s = drop (length rs - 100) rs /\
    ((length (cache s) < 100)%nat -> cache s' = cache s ++ [r]) /\
    (length (cache s) = 100%nat ->
     exists oldest rest, cache s = oldest :: rest /\ cache s' = rest ++ [r]).
Proof.
  destruct (writes_reached cfg now rs) as (s & Hs & R).
  destruct (reached_step _ _ _ _ r R) as (s' & Hw & W).
  exists s, s'. pose proof (reached_cache_length _ _ _ _ R) as Hlen.
  pose proof (step_cache _ _ _ W) as Hc. rewrite (reached_maxSize _ _ _ _ R) in Hc.
  split_and!; try done.
  - apply (reached_maxSize _ _ _ _ R).
  - rewrite Hc, length_app. simpl.
    destruct (Z.leb_spec 100 (Z.of_nat (length (cache s)))).
    + destruct (cache s); simpl in *; lia.
    + lia.
  - apply (reached_cache _ _ _ _ R).
  - intros Hlt. rewrite Hc.
    destruct (Z.leb_spec 100 (Z.of_nat (length (cache s)))); [lia|done].
  - intros Hfull. rewrite Hc.
    destruct (Z.leb_spec 100 (Z.of_nat (length (cache s)))); [|lia].
    destruct (cache s) as [|oldest rest]; [done|]. by exists oldest, rest.
Qed.

Section StoreSnapshot.
Variable oor : Float64.float64 -> Z.

Lemma leaf_key_eq base idx j :
  ((base +:+ ".5") +:+ "." +:+ FormatInt idx) +:+ j = base +:+ ".5." +:+ FormatInt idx +:+ j.
Proof. rewrite !append_assoc. reflexivity. Qed.

Lemma leaf_oid_site base idx j :
  leaf_oid base [5; idx; j] = base +:+ ".5." +:+ FormatInt idx +:+ "." +:+ FormatInt j.
Proof. unfold leaf_oid. cbn [dotted]. rewrite append_nil_r. reflexivity. Qed.

Lemma timeGauge_eq oid t :
  timeGauge oid t =
  {| Name := oid; Type_ := Gauge32;
     Value := ValUint32 (if IsZero t then 0 else uint32 (Unix t)) |}.
Proof. unfold timeGauge. by destruct (IsZero t). Qed.

(** The leaves written for a site are the leaves read from the snapshot. *)
Lemma snapshot_leaves s elapsed n idx st :
  int64_indices s -> index_inj s ->
  siteIndex s !! n = Some idx -> stats s !! n = Some st ->
  Forall (fun kv => snapshotValues oor s elapsed !! kv.1 = Some kv.2)
    (leafBindings oor (snapshotBase (config s) +:+ ".5")
       {| name := n; index := idx; entry_stats := st |}).
Proof.
  intros Ht Hinj Hi Hst. apply Forall_forall. intros [k v] Hkv. simpl.
  apply snapshotValues_lookup; [done..|].
  unfold snapshotBindings. apply elem_of_app. right.
  rewrite flat_map_concat_map. apply elem_of_concat_map.
  eexists. split; [|exact Hkv]. by apply elem_of_snapshotEntries.
Qed.

Lemma snapshot_scalars s elapsed :
  int64_indices s -> index_inj s ->
  Forall (fun kv => snapshotValues oor s elapsed !! kv.1 = Some kv.2)
    (scalarBindings oor s elapsed).
Proof.
  intros Ht Hinj. apply Forall_forall. intros [k v] Hkv. simpl.
  apply snapshotValues_lookup; [done..|].
  unfold snapshotBindings. apply elem_of_app. by left.
Qed.

Lemma snapshot_site_name s elapsed n idx :
  int64_indices s -> index_inj s ->
  siteIndex s !! n = Some idx -> is_Some (stats s !! n) ->
  snapshotValues oor s elapsed
    !! (snapshotBase (config s) +:+ ".5." +:+ FormatInt idx +:+ ".1")
  = Some {| Name := snapshotBase (config s) +:+ ".5." +:+ FormatInt idx +:+ ".1";
            Type_ := OctetString; Value := ValBytes n |}.
Proof.
  intros Ht Hinj Hi [st Hst].
  pose proof (snapshot_leaves s elapsed n idx st Ht Hinj Hi Hst) as Hl.
  unfold leafBindings in Hl. cbv zeta in Hl. simpl name in Hl. simpl index in Hl.
  apply Forall_cons in Hl as [H1 _]. simpl in H1.
  rewrite !leaf_key_eq in H1. exact H1.
Qed.

(** C6. The site indices after any sequence of writes to a new agent, as
    long as the number of distinct sites fits an [int] (as the length of
    any Go map does): the site seen [k+1]-th, counting distinct sites in the
    order of their first result, has index [k+1], and no other site has;
    the map from sites to indices is injective and its values are positive;
    further writes leave every assigned index as it is; and the snapshot
    built before and after them exposes the site under the same address
    [base.5.index.1]. *)
Theorem siteIndex_first_seen (cfg : SNMPConfig) (now : Time)
    (rs more : list TestResult) (elapsed elapsed' : Z) :
  Z.of_nat (length (distinctSites (rs ++ more))) < 2 ^ 63 ->
  exists s s',
    writes (newOutput cfg now) rs = Some s /\ writes s more = Some s' /\
    (forall n i, siteIndex s !! n = Some i <->
                 exists k, distinctSites rs !! k = Some n /\ i = Z.of_nat k + 1) /\
    (forall n1 n2 i, siteIndex s !! n1 = Some i -> siteIndex s !! n2 = Some i -> n1 = n2) /\
    (forall n i, siteIndex s !! n = Some i ->
       0 < i /\ siteIndex s' !! n = Some i /\
       let oid := snapshotBase cfg +:+ ".5." +:+ FormatInt i +:+ ".1" in
       let pdu := {| Name := oid; Type_ := OctetString; Value := ValBytes n |} in
       snapshotValues oor s elapsed !! oid = Some pdu /\
       snapshotValues oor s' elapsed' !! oid = Some pdu).
Proof.
  intros Hc.
  destruct (writes_reached cfg now rs) as (s & Hs & R).
  destruct (writes_reached cfg now (rs ++ more)) as (s' & Hs' & R').
  rewrite writes_app, Hs in Hs'. simpl in Hs'.
  exists s, s'. split; [done|]. split; [done|].
  destruct (firstSeen_prefix (map siteKey rs) (map siteKey more)) as [extra Hex].
  rewrite <- map_app in Hex. fold (distinctSites (rs ++ more)) in Hex.
  fold (distinctSites rs) in Hex.
  assert (Z.of_nat (length (distinctSites rs)) < 2 ^ 63) as Hc0.
  { rewrite Hex, length_app in Hc. lia. }
  pose proof (reached_index_exact _ _ _ _ R Hc0) as Hidx.
  pose proof (reached_index_exact _ _ _ _ R' Hc) as Hidx'.
  split_and!; [done|by apply (reached_index_inj _ _ _ _ R)|].
  intros n i Hi. apply Hidx in Hi as Hk. destruct Hk as (k & Hk & ->).
  assert (siteIndex s' !! n = Some (Z.of_nat k + 1)) as Hi'.
  { apply Hidx'. exists k. split; [|done]. rewrite Hex. by apply lookup_app_l_Some. }
  split; [lia|]. split; [done|]. cbv zeta.
  rewrite <- (reached_config _ _ _ _ R) at 1 2.
  rewrite <- (reached_config _ _ _ _ R').
  split; apply snapshot_site_name;
    eauto using reached_int64, reached_index_inj.
  - apply (reached_stats_index _ _ _ _ _ R). eauto.
  - apply (reached_stats_index _ _ _ _ _ R'). eauto.
Qed.

(** C9. The snapshot of the store after any sequence of writes to a new
    agent (the number of distinct sites fitting an [int]) binds, under the
    base prefix: [.1.0] the history length, [.2.0] the capacity 100, [.3.0]
    the number of distinct sites and [.4.0] the uptime, the first three as
    gauges and the last as time-ticks, the [uint32] seconds times 100 in
    [uint32] arithmetic; and for each site with index [idx] the ten leaves
    [.5.idx.1] to [.5.idx.10]: the name as text, the three counts as
    counters, the two times as gauges (Unix seconds, 0 for the zero time,
    which is what a site that never succeeded, or never failed, has), and
    the last, rounded average, maximal and minimal durations as gauges. It
    binds no other address, and the sorted table lists exactly the bound
    addresses. *)
Theorem buildOIDSnapshot_layout (cfg : SNMPConfig) (now : Time)
    (rs : list TestResult) (elapsed : Z) :
  Z.of_nat (length (distinctSites rs)) < 2 ^ 63 ->
  exists s, writes (newOutput cfg now) rs = Some s /\
    let base := snapshotBase cfg in
    let values := snapshotValues oor s elapsed in
    let bound oid t v := values !! oid = Some {| Name := oid; Type_ := t; Value := v |} in
    bound (base +:+ ".1.0") Gauge32 (ValUint32 (Z.of_nat (length (cache s)))) /\
    bound (base +:+ ".2.0") Gauge32 (ValUint32 100) /\
    bound (base +:+ ".3.0") Gauge32
      (ValUint32 (uint32 (Z.of_nat (length (distinctSites rs))))) /\
    bound (base +:+ ".4.0") TimeTicks
      (ValUint32 (uint32 (uint32_of_float64 oor (Seconds elapsed) * 100))) /\
    (forall n idx, siteIndex s !! n = Some idx ->
       exists st, stats s !! n = Some st /\
         let leaf j := base +:+ ".5." +:+ FormatInt idx +:+ j in
         let seconds t := if IsZero t then 0 else uint32 (Unix t) in
         bound (leaf ".1") OctetString (ValBytes n) /\
         bound (leaf ".2") Counter32 (ValUint32 (uint32 (TotalTests st))) /\
         bound (leaf ".3") Counter32 (ValUint32 (uint32 (SuccessfulTests st))) /\
         bound (leaf ".4") Counter32 (ValUint32 (uint32 (FailedTests st))) /\
         bound (leaf ".5") Gauge32 (ValUint32 (seconds (LastSuccessTime st))) /\
         bound (leaf ".6") Gauge32 (ValUint32 (seconds (LastFailureTime st))) /\
         bound (leaf ".7") Gauge32 (ValUint32 (uint32 (LastDurationMs st))) /\
         bound (leaf ".8") Gauge32
           (ValUint32 (uint32_of_float64 oor (Float64.Round (AvgDurationMs st)))) /\
         bound (leaf ".9") Gauge32 (ValUint32 (uint32 (MaxDurationMs st))) /\
         bound (leaf ".10") Gauge32 (ValUint32 (uint32 (MinDurationMs st))) /\
         ((forall r, r ∈ rs -> siteKey r = n -> Success r = false) ->
          LastSuccessTime st = zeroTime) /\
         ((forall r, r ∈ rs -> siteKey r = n -> Success r = true) ->
          LastFailureTime st = zeroTime)) /\
    (forall oid, is_Some (values !! oid) <->
       oid ∈ [base +:+ ".1.0"; base +:+ ".2.0"; base +:+ ".3.0"; base +:+ ".4.0"] \/
       exists n idx j,
         siteIndex s !! n = Some idx /\ j ∈ leafColumns /\
         oid = base +:+ ".5." +:+ FormatInt idx +:+ "." +:+ FormatInt j) /\
    (forall oid, oid ∈ snapshotOIDs oor s elapsed <-> is_Some (values !! oid)).
Proof.
  intros Hc.
  destruct (writes_reached cfg now rs) as (s & Hs & R). exists s. split; [done|].
  pose proof (reached_int64 _ _ _ _ R) as Ht.
  pose proof (reached_index_inj _ _ _ _ R Hc) as Hinj.
  pose proof (reached_config _ _ _ _ R) as Hcfg.
  cbv zeta. rewrite <- Hcfg.
  pose proof (snapshot_scalars s elapsed Ht Hinj) as Hsc.
  unfold scalarBindings in Hsc. cbv zeta in Hsc.
  apply Forall_cons in Hsc as [H1 Hsc]. apply Forall_cons in Hsc as [H2 Hsc].
  apply Forall_cons in Hsc as [H3 Hsc]. apply Forall_cons in Hsc as [H4 _].
  simpl in H1, H2, H3, H4.
  split_and!.
  - rewrite H1. unfold gaugePDU. do 3 f_equal. unfold uint32.
    pose proof (reached_cache_length _ _ _ _ R).
    apply Z.mod_small. change (2 ^ 32) with 4294967296. lia.
  - rewrite H2. by rewrite (reached_maxSize _ _ _ _ R).
  - rewrite H3. by rewrite (reached_size _ _ _ _ R).
  - exact H4.
  - intros n idx Hi.
    assert (is_Some (stats s !! n)) as [st Hst].
    { apply (reached_stats_index _ _ _ _ _ R). eauto. }
    exists st. split; [done|].
    pose proof (snapshot_leaves s elapsed n idx st Ht Hinj Hi Hst) as Hl.
    unfold leafBindings in Hl. cbv zeta in Hl.
    simpl name in Hl. simpl index in Hl. simpl entry_stats in Hl.
    repeat (apply Forall_cons in Hl as [?Hleaf Hl]).
    simpl in *. rewrite !leaf_key_eq, ?timeGauge_eq in *.
    split_and!; try done.
    + apply (aggregateOf_never_succeeded n rs). by rewrite <- (writes_stats cfg now rs s).
    + apply (aggregateOf_never_failed n rs). by rewrite <- (writes_stats cfg now rs s).
  - intros oid. unfold snapshotValues. split.
    + intros (sfx & Hsfx & ->)%snapshot_key_suffix.
      apply allSuffixes_elem in Hsfx as [Hsc'|(idx & j & Hidx & Hj & ->)].
      * left. unfold scalarSuffixes in Hsc'.
        rewrite !elem_of_cons, elem_of_nil in Hsc'. rewrite !elem_of_cons.
        repeat (destruct Hsc' as [->|Hsc']; [tauto|]). done.
      * right. apply snapshotEntries_index in Hidx as (n & Hn & _).
        exists n, idx, j. split_and!; [done|done|apply leaf_oid_site].
    + intros [Hsc'|(n & idx & j & Hn & Hj & ->)].
      * rewrite !elem_of_cons, elem_of_nil in Hsc'.
        destruct Hsc' as [->|[->|[->|[->|[]]]]]; eauto.
      * assert (is_Some (stats s !! n)) as [st Hst].
        { apply (reached_stats_index _ _ _ _ _ R). eauto. }
        pose proof (snapshot_leaves s elapsed n idx st Ht Hinj Hn Hst) as Hl.
        unfold leafBindings in Hl. cbv zeta in Hl. simpl index in Hl.
        repeat (apply Forall_cons in Hl as [?Hleaf Hl]).
        simpl in *. rewrite !leaf_key_eq in *.
        unfold leafColumns in Hj. rewrite !elem_of_cons, elem_of_nil in Hj.
        unfold snapshotValues in *.
        repeat (destruct Hj as [->|Hj]; [eauto|]). done.
  - intros oid. apply snapshotOIDs_elem.
Qed.

(** C10. A result with an empty site name is counted under its URL: the
    URL is the key of the aggregate that the write creates or updates, a
    second such result with the same URL updates that same aggregate and
    adds no index, and the snapshot exposes the URL as the text at the
    site-name address [base.5.idx.1] of the index the URL was given. *)
Theorem empty_name_counts_under_url (cfg : SNMPConfig) (now : Time)
    (rs : list TestResult) (r1 r2 : TestResult) (elapsed : Z) :
  SiteName r1 = "" -> SiteName r2 = "" -> SiteURL r1 = SiteURL r2 ->
  Z.of_nat (length (distinctSites (rs ++ [r1; r2]))) < 2 ^ 63 ->
  exists s s1 s2,
    writes (newOutput cfg now) rs = Some s /\
    Write s r1 = Some s1 /\ Write s1 r2 = Some s2 /\
    let url := SiteURL r1 in
    siteKey r1 = url /\ siteKey r2 = url /\
    stats s1 = <[url := updateStats (default (newStats r1) (stats s !! url)) r1]> (stats s) /\
    stats s2 =
      <[url := updateStats (updateStats (default (newStats r1) (stats s !! url)) r1) r2]>
        (stats s) /\
    siteIndex s2 = siteIndex s1 /\
    (forall n, n <> url -> siteIndex s1 !! n = siteIndex s !! n) /\
    exists idx,
      siteIndex s2 !! url = Some idx /\
      let oid := snapshotBase cfg +:+ ".5." +:+ FormatInt idx +:+ ".1" in
      snapshotValues oor s2 elapsed !! oid =
      Some {| Name := oid; Type_ := OctetString; Value := ValBytes url |}.
Proof.
  intros Hn1 Hn2 Hurl Hc.
  assert (siteKey r1 = SiteURL r1) as Hk1 by (unfold siteKey; by rewrite Hn1).
  assert (siteKey r2 = SiteURL r1) as Hk2 by (unfold siteKey; by rewrite Hn2, Hurl).
  destruct (writes_reached cfg now rs) as (s & Hs & R).
  destruct (writes_reached cfg now (rs ++ [r1])) as (s1 & Hs1 & R1).
  destruct (writes_reached cfg now ((rs ++ [r1]) ++ [r2])) as (s2 & Hs2 & R2).
  rewrite writes_snoc, Hs1 in Hs2. simpl in Hs2.
  rewrite writes_snoc, Hs in Hs1. simpl in Hs1.
  destruct (reached_step _ _ _ _ r1 R) as (s1' & Hw1 & W1).
  rewrite Hs1 in Hw1. injection Hw1 as <-.
  destruct (reached_step _ _ _ _ r2 R1) as (s2' & Hw2 & W2).
  rewrite Hs2 in Hw2. injection Hw2 as <-.
  exists s, s1, s2. split_and!; try done. cbv zeta.
  pose proof (step_stats _ _ _ W1) as E1. rewrite Hk1 in E1.
  pose proof (step_stats _ _ _ W2) as E2. rewrite Hk2 in E2.
  assert (is_Some (stats s1 !! SiteURL r1)) as [a1 Ha1].
  { rewrite E1, lookup_insert_eq. eauto. }
  assert (is_Some (siteIndex s1 !! SiteURL r1)) as [idx Hidx].
  { apply (reached_stats_index _ _ _ _ _ R1). eauto. }
  split_and!; try done.
  - rewrite E2, E1, lookup_insert_eq. simpl. by rewrite insert_insert_eq.
  - rewrite (step_siteIndex _ _ _ W2), Hk2, Ha1. done.
  - intros n Hne. rewrite (step_siteIndex _ _ _ W1), Hk1.
    destruct (stats s !! SiteURL r1); [done|].
    destruct (siteIndex s !! SiteURL r1); [done|]. by rewrite lookup_insert_ne.
  - assert (siteIndex s2 !! SiteURL r1 = Some idx) as Hidx2.
    { rewrite (step_siteIndex _ _ _ W2), Hk2, Ha1. done. }
    exists idx. split; [done|]. cbv zeta.
    rewrite <- (reached_config _ _ _ _ R2).
    rewrite <- app_assoc in R2. simpl in R2.
    apply snapshot_site_name; eauto using reached_int64, reached_index_inj.
    apply (reached_stats_index _ _ _ _ _ R2). eauto.
Qed.

(** ** The request handler *)

Variable MarshalMsg : SnmpPacket -> option (list Byte.byte).

(** C8. A decoded request whose version is neither 1 nor 2c, or whose
    community differs from the configured one, is logged and dropped:
    [handleRequest] returns before it builds a snapshot or a response, and
    its trace holds no datagram. Conversely a datagram is sent only for a
    request that passed both checks. *)
Theorem handleRequest_unauthorized_silent (s : SNMPOutput) (elapsed : Z)
    (listener write_ok : bool) (p : SnmpPacket) :
  let trace := handleRequest oor MarshalMsg s elapsed listener write_ok (DecodedPacket p) in
  (Version p <> Version1 /\ Version p <> Version2c ->
   trace = [Log "SNMP unsupported version"]) /\
  (Community p <> cfgCommunity (config s) ->
   trace = [Log "SNMP unsupported version"] \/
   trace = [Log "SNMP unauthorized community"]) /\
  (forall datagram, Send datagram ∈ trace ->
     (Version p = Version1 \/ Version p = Version2c) /\
     Community p = cfgCommunity (config s)).
Proof.
  cbv zeta. unfold handleRequest.
  destruct (N.eqb_spec (Version p) Version2c) as [E2|E2],
    (N.eqb_spec (Version p) Version1) as [E1|E1]; simpl;
    destruct (String.eqb_spec (Community p) (cfgCommunity (config s))) as [Ec|Ec]; simpl.
  all: split_and!; try (intros; tauto); try (intros [? ?]; done).
  all: try (intros d Hd; split; [tauto|done]).
  all: try (intros d Hd; rewrite ?elem_of_cons, ?elem_of_nil in Hd;
            destruct Hd as [Hd|Hd]; done).
Qed.

End StoreSnapshot.

(** ** The order in which Go visits a map does not matter *)

Lemma fold_insert_perm (l l' : list (string * SnmpPDU)) :
  NoDup l.*1 -> l ≡ₚ l' ->
  fold_left insert_binding l ∅ = fold_left insert_binding l' ∅.
Proof.
  intros Hnd Hp. apply map_eq. intros k. apply option_eq. intros v.
  rewrite !fold_insert_lookup; [by rewrite Hp|by rewrite <- Hp|done].
Qed.

(** Whatever order the loop over [s.stats] collects the entries in, and
    however [sort.Slice] arranges them, the same values are bound. *)
Lemma snapshot_values_order_free oor s elapsed (entries : list siteEntry) :
  int64_indices s -> index_inj s ->
  entries ≡ₚ collectEntries s ->
  fold_left (siteLeaves oor (snapshotBase (config s) +:+ ".5")) entries
    (fold_left insert_binding (scalarBindings oor s elapsed) ∅)
  = snapshotValues oor s elapsed.
Proof.
  intros Ht Hinj Hp. unfold snapshotValues.
  rewrite buildOIDSnapshot_values, fold_siteLeaves, <- fold_left_app.
  symmetry. apply fold_insert_perm; [by apply snapshotBindings_NoDup|].
  unfold snapshotBindings. apply Permutation_app_head.
  apply Permutation_flat_map.
  unfold snapshotEntries. by rewrite (sort_Slice_perm entry_less), Hp.
Qed.

(** ** The scenario of the repository's test *)

Example test_cache_size :
  handleGet [request ".1.3.6.1.4.1.55555.1.0"] testValues
  = [{| Name := ".1.3.6.1.4.1.55555.1.0"; Type_ := Gauge32; Value := ValUint32 2 |}].
Proof. by vm_compute. Qed.

Example test_missing_oid :
  handleGet [request ".1.3.6.1.4.1.55555.99.0"] testValues
  = [{| Name := ".1.3.6.1.4.1.55555.99.0"; Type_ := NoSuchObject; Value := ValNil |}].
Proof. by vm_compute. Qed.

Example test_end_of_mib :
  handleGetNext [request ".1.3.6.1.4.1.55555.5.1.10"] testValues testOIDs
  = [{| Name := ".1.3.6.1.4.1.55555.5.1.10"; Type_ := EndOfMibView; Value := ValNil |}].
Proof. by vm_compute. Qed.

Example test_walk :
  map (fun pdu => (Name pdu, Value pdu))
      (walkReplies testValues testOIDs 20 ".1.3.6.1.4.1.55555")
  = [ (".1.3.6.1.4.1.55555.1.0", ValUint32 2);
      (".1.3.6.1.4.1.55555.2.0", ValUint32 100);
      (".1.3.6.1.4.1.55555.3.0", ValUint32 1);
      (".1.3.6.1.4.1.55555.4.0", ValUint32 500);
      (".1.3.6.1.4.1.55555.5.1.1", ValBytes "example.com");
      (".1.3.6.1.4.1.55555.5.1.2", ValUint32 2);
      (".1.3.6.1.4.1.55555.5.1.3", ValUint32 1);
      (".1.3.6.1.4.1.55555.5.1.4", ValUint32 1);
      (".1.3.6.1.4.1.55555.5.1.5", ValUint32 1700000000);
      (".1.3.6.1.4.1.55555.5.1.6", ValUint32 1700000000);
      (".1.3.6.1.4.1.55555.5.1.7", ValUint32 320);
      (".1.3.6.1.4.1.55555.5.1.8", ValUint32 235);
      (".1.3.6.1.4.1.55555.5.1.9", ValUint32 320);
      (".1.3.6.1.4.1.55555.5.1.10", ValUint32 150);
      (".1.3.6.1.4.1.55555.5.1.10", ValNil) ].
Proof. by vm_compute. Qed.

Example test_running_average :
  AvgDurationMs <$> stats testStore !! "example.com" = Some (Float64.of_int 235).
Proof. by vm_compute. Qed.

Example test_authorized_request :
  handleRequest zero_out_of_range (fun _ => Some []) testStore 5000000000 true true
    (DecodedPacket (bulkOne ".1.3.6.1.4.1.55555.5.1.10"))
  = [Send []].
Proof. by vm_compute. Qed.

(** The reply buffer of 3276 cursors with 2^31 - 1 repetitions is the
    largest of its kind that [make] accepts; with 3277 cursors
    [handleGetBulk] panics, and [handleRequest] with it. *)
Example test_bulk_capacity :
  makeslice (bulkCapacity (bulkMany 3276)) = true /\
  makeslice (bulkCapacity (bulkMany 3277)) = false /\
  handleGetBulk (bulkMany 3277) testValues testOIDs = None /\
  handleRequest zero_out_of_range (fun _ => Some []) testStore 5000000000 true true
    (DecodedPacket (bulkMany 3277))
  = [Panic].
Proof. by vm_compute. Qed.

(** The agent answers a first request, dies at a request whose reply buffer
    cannot be made, and leaves the request after it unanswered. *)
Example test_agent_panic :
  runSNMPAgent zero_out_of_range (fun _ => Some [])
    [reads (bulkOne ".1.3.6.1.4.1.55555.5.1.10"); reads (bulkMany 3277);
     reads (bulkOne ".1.3.6.1.4.1.55555.5.1.10")]
  = ([Send []; Panic], Panicked).
Proof. by vm_compute. Qed.

(** ** Counterexample and witnesses *)

(** C3, as stated, fails: a cursor that starts at the last address of the
    table is exhausted at once, and with one repetition its single reply,
    the end-of-tree marker, makes the count [k + m * r], not fewer. *)
Lemma getbulk_exhausted_not_fewer :
  let packet := bulkOne ".1.3.6.1.4.1.55555.5.1.10" in
  let k := clampNonRepeaters packet in
  let r := clampMaxRepetitions packet in
  let m := (length (Variables packet) - k)%nat in
  exhausted testValues testOIDs r (normalizeOID ".1.3.6.1.4.1.55555.5.1.10") = true /\
  exists replies,
    handleGetBulk packet testValues testOIDs = Some replies /\
    replies
    = [{| Name := ".1.3.6.1.4.1.55555.5.1.10"; Type_ := EndOfMibView; Value := ValNil |}] /\
    ~ (length replies < k + m * r)%nat.
Proof.
  cbv zeta. split; [by vm_compute|]. eexists. split_and!; [by vm_compute|done|].
  vm_compute. intros H. apply le_S_n in H. inversion H.
Qed.

(** C3 at the request of the test: one cursor, one repetition. *)
Lemma handleGetBulk_reply_count_witness :
  makeslice (bulkCapacity (bulkOne ".1.3.6.1.4.1.55555.5.1.10")) = true /\
  exists replies,
    handleGetBulk (bulkOne ".1.3.6.1.4.1.55555.5.1.10") testValues testOIDs
    = Some replies /\
    (length replies <= 1)%nat.
Proof.
  split; [reflexivity|].
  destruct (handleGetBulk_reply_count (bulkOne ".1.3.6.1.4.1.55555.5.1.10")
              testValues testOIDs eq_refl)
    as (replies & Hr & _ & _ & _ & Hle & _).
  exists replies. split; [exact Hr|exact Hle].
Defined.

(** C6 at the test's results, with a site named by its URL in between. *)
Lemma siteIndex_first_seen_witness :
  Z.of_nat (length (distinctSites ([resultSuccess; resultNoName] ++ [resultFailure]))) < 2 ^ 63 /\
  exists s s',
    writes (newOutput testConfig testNow) [resultSuccess; resultNoName] = Some s /\
    writes s [resultFailure] = Some s' /\
    siteIndex s !! "https://example.org" = Some 2 /\
    siteIndex s' !! "https://example.org" = Some 2.
Proof.
  assert (Z.of_nat (length (distinctSites ([resultSuccess; resultNoName] ++ [resultFailure])))
          < 2 ^ 63) as Hc by (by vm_compute).
  split; [exact Hc|].
  destruct (siteIndex_first_seen zero_out_of_range testConfig testNow
              [resultSuccess; resultNoName] [resultFailure] 0 0 Hc)
    as (s & s' & Hs & Hs' & Hidx & _ & Hkeep).
  exists s, s'. split; [exact Hs|]. split; [exact Hs'|].
  assert (siteIndex s !! "https://example.org" = Some 2) as H2.
  { apply Hidx. exists 1%nat. split; reflexivity. }
  split; [exact H2|]. apply (Hkeep _ _ H2).
Defined.

(** C9 at the store of the test. *)
Lemma buildOIDSnapshot_layout_witness :
  Z.of_nat (length (distinctSites [resultSuccess; resultFailure])) < 2 ^ 63 /\
  exists s,
    writes (newOutput testConfig testNow) [resultSuccess; resultFailure] = Some s /\
    snapshotValues zero_out_of_range s 5000000000 !! (snapshotBase testConfig +:+ ".2.0")
    = Some {| Name := snapshotBase testConfig +:+ ".2.0"; Type_ := Gauge32;
              Value := ValUint32 100 |}.
Proof.
  assert (Z.of_nat (length (distinctSites [resultSuccess; resultFailure])) < 2 ^ 63)
    as Hc by (by vm_compute).
  split; [exact Hc|].
  destruct (buildOIDSnapshot_layout zero_out_of_range testConfig testNow
              [resultSuccess; resultFailure] 5000000000 Hc)
    as (s & Hs & _ & H2 & _).
  exists s. split; [exact Hs|exact H2].
Defined.

(** C10 at two results of the same unnamed site. *)
Lemma empty_name_counts_under_url_witness :
  SiteName resultNoName = "" /\
  SiteURL resultNoName = SiteURL resultNoName /\
  Z.of_nat (length (distinctSites ([resultSuccess] ++ [resultNoName; resultNoName]))) < 2 ^ 63 /\
  exists s s1 s2,
    writes (newOutput testConfig testNow) [resultSuccess] = Some s /\
    Write s resultNoName = Some s1 /\ Write s1 resultNoName = Some s2 /\
    siteKey resultNoName = "https://example.org" /\
    siteIndex s2 = siteIndex s1.
Proof.
  assert (Z.of_nat (length (distinctSites ([resultSuccess] ++ [resultNoName; resultNoName])))
          < 2 ^ 63) as Hc by (by vm_compute).
  split; [reflexivity|]. split; [reflexivity|]. split; [exact Hc|].
  destruct (empty_name_counts_under_url zero_out_of_range testConfig testNow
              [resultSuccess] resultNoName resultNoName 0 eq_refl eq_refl eq_refl Hc)
    as (s & s1 & s2 & Hs & H1 & H2 & Hk & _ & _ & _ & Hi & _).
  exists s, s1, s2. split; [exact Hs|]. split; [exact H1|]. split; [exact H2|].
  split; [exact Hk|exact Hi].
Defined.

(** * Further properties of the responder *)

(** ** Normal form of addresses *)

Lemma rev_string_app a b acc :
  rev_string (a +:+ b) acc = rev_string b (rev_string a acc).
Proof.
  revert acc. induction a as [|c a IH]; intros acc.
  - by rewrite append_nil_l.
  - rewrite append_cons. simpl. apply IH.
Qed.

Lemma rev_string_acc s acc : rev_string s acc = rev_string s "" +:+ acc.
Proof.
  revert acc. induction s as [|c s IH]; intros acc; simpl.
  - by rewrite append_nil_l.
  - rewrite IH, (IH (String c "")), append_assoc, append_cons, append_nil_l. done.
Qed.

Lemma rev_string_involutive s : rev_string (rev_string s "") "" = s.
Proof.
  induction s as [|c s IH]; simpl; [done|].
  by rewrite (rev_string_acc s (String c "")), rev_string_app, IH.
Qed.

Lemma leads_strip pats c s :
  leads pats c = false -> strip_first pats (String c s) = None.
Proof.
  induction pats as [|p pats IH]; simpl; [done|].
  destruct p as [|a p]; [done|].
  intros [Ha Hr]%orb_false_iff. simpl. rewrite Ha. simpl. by apply IH.
Qed.

Lemma trim_front_id fuel pats s :
  strip_first pats s = None -> trim_front fuel pats s = s.
Proof. intros H. destruct fuel; simpl; [done|]. by rewrite H. Qed.

(** A string whose first byte starts no white space and whose last byte
    ends none is left alone by [TrimSpace]. *)
Lemma TrimSpace_id c s d :
  leads white_space c = false ->
  last_byte (String c s) = Some d ->
  leads (map (fun p => rev_string p "") white_space) d = false ->
  TrimSpace (String c s) = String c s.
Proof.
  intros Hc Hd Hl. unfold TrimSpace.
  rewrite (trim_front_id _ _ _ (leads_strip _ _ _ Hc)).
  unfold last_byte in Hd.
  destruct (rev_string (String c s) "") as [|d' r] eqn:Er; [done|].
  injection Hd as ->.
  rewrite (trim_front_id _ _ _ (leads_strip _ _ _ Hl)).
  rewrite <- Er. apply rev_string_involutive.
Qed.

Lemma HasPrefix_dot s : HasPrefix s "." = true <-> exists s', s = String "." s'.
Proof.
  destruct s as [|c s]; simpl.
  - split; [done|]. by intros [? ?].
  - rewrite andb_true_r. split.
    + intros H%Ascii.eqb_eq. subst. by exists s.
    + intros [s' [= -> ->]]. apply Ascii.eqb_refl.
Qed.

Lemma strip_dots_prefix fuel t :
  HasPrefix t "." = true -> HasPrefix (strip_dots fuel t) "." = true.
Proof.
  revert t. induction fuel as [|fuel IH]; intros t Ht; simpl; [done|].
  destruct (HasSuffix t "." && (1 <? String.length t)%nat) eqn:E; [|done].
  apply IH. apply andb_true_iff in E as [_ Hlen%Nat.ltb_lt].
  apply HasPrefix_dot in Ht as [s' ->].
  destruct s' as [|c s']; simpl in Hlen; [lia|].
  apply HasPrefix_dot. by eexists.
Qed.

Lemma strip_dots_id fuel t : HasSuffix t "." = false -> strip_dots fuel t = t.
Proof. intros H. destruct fuel; simpl; [done|]. by rewrite H. Qed.

Lemma normalizeOID_normal_form_prefix oid : HasPrefix (normalizeOID oid) "." = true.
Proof.
  unfold normalizeOID. destruct (String.eqb (TrimSpace oid) ""); [done|].
  apply strip_dots_prefix.
  destruct (HasPrefix (TrimSpace oid) ".") eqn:E; [done|].
  by rewrite append_cons.
Qed.

(** X1: [normalizeOID] always returns an address in normal form: it starts
    with a dot, it does not end with one unless it is the root ".", and
    blank input gives the root. *)
Theorem normalizeOID_normal_form (oid : string) :
  let r := normalizeOID oid in
  HasPrefix r "." = true /\
  (HasSuffix r "." = true -> r = ".") /\
  (TrimSpace oid = "" -> r = ".").
Proof.
  intros r.
  pose proof (normalizeOID_normal_form_prefix oid) as Hp. fold r in Hp.
  split; [done|]. split.
  - intros Hs.
    assert (Hd : HasSuffix r "." && (1 <? String.length r)%nat = false).
    { unfold r, normalizeOID. destruct (String.eqb (TrimSpace oid) ""); [done|].
      by apply strip_dots_done. }
    rewrite Hs in Hd. simpl in Hd. apply Nat.ltb_ge in Hd.
    apply HasPrefix_dot in Hp as [s' Hr]. rewrite Hr in Hd |- *.
    destruct s'; simpl in Hd; [done|lia].
  - intros Ht. unfold r, normalizeOID. by rewrite Ht.
Qed.

Lemma normalizeOID_id (oid : string) :
  TrimSpace oid = oid ->
  HasPrefix oid "." = true ->
  HasSuffix oid "." = false ->
  normalizeOID oid = oid.
Proof.
  intros Ht Hp Hs. unfold normalizeOID. rewrite Ht, Hp.
  destruct (String.eqb oid "") eqn:E.
  - apply String.eqb_eq in E. by subst.
  - by apply strip_dots_id.
Qed.

(** X2: an address already in normal form (no white space around it, a
    leading dot, and no trailing dot unless it is the root ".") is returned
    unchanged. *)
Theorem normalizeOID_fixed_point (oid : string) :
  TrimSpace oid = oid ->
  HasPrefix oid "." = true ->
  HasSuffix oid "." = false \/ oid = "." ->
  normalizeOID oid = oid.
Proof.
  intros Ht Hp [Hs| ->].
  - by apply normalizeOID_id.
  - reflexivity.
Qed.

Lemma is_digit_ends_no_space d :
  is_digit d = true ->
  leads (map (fun p => rev_string p "") white_space) d = false.
Proof.
  destruct d as [[] [] [] [] [] [] [] []]; intros H;
    first [discriminate H | reflexivity].
Qed.

Lemma last_byte_snoc x d : last_byte (x +:+ String d "") = Some d.
Proof. unfold last_byte. by rewrite rev_string_app. Qed.

(** An address that starts with a dot and ends with a digit is in normal
    form. *)
Lemma normalizeOID_dot_digit x d :
  HasPrefix x "." = true -> is_digit d = true ->
  normalizeOID (x +:+ String d "") = x +:+ String d "".
Proof.
  intros Hx Hd. apply HasPrefix_dot in Hx as [x' ->].
  apply normalizeOID_id.
  - rewrite append_cons. eapply TrimSpace_id.
    + reflexivity.
    + rewrite <- append_cons. apply last_byte_snoc.
    + by apply is_digit_ends_no_space.
  - by rewrite append_cons.
  - unfold HasSuffix. rewrite rev_string_app. simpl.
    apply is_digit_not_sep in Hd as (Hd & _ & _).
    rewrite andb_true_r. rewrite <- Hd.
    apply eq_true_iff_eq. rewrite !Ascii.eqb_eq. split; congruence.
Qed.

Lemma FormatInt_last z :
  exists x d, FormatInt z = x +:+ String d "" /\ is_digit d = true.
Proof.
  assert (Hu : forall n, exists x d,
             utoa 19 n = x +:+ String d "" /\ is_digit d = true).
  { intros n. rewrite utoa_S. eexists _, _. split; [done|].
    unfold is_digit. rewrite digit_of_char; [done|].
    pose proof (Z.mod_pos_bound n 10). lia. }
  unfold FormatInt. destruct (z <? 0).
  - destruct (Hu (- z)) as (x & d & -> & Hd).
    exists (String "-" x), d. by rewrite append_cons.
  - apply Hu.
Qed.

Lemma dotted_last sfx :
  sfx <> [] -> exists x d, dotted sfx = x +:+ String d "" /\ is_digit d = true.
Proof.
  induction sfx as [|z rest IH]; [done|]. intros _. simpl.
  destruct rest as [|z' rest'].
  - destruct (FormatInt_last z) as (x & d & -> & Hd). simpl.
    exists ("." +:+ x), d. split; [|done].
    by rewrite append_nil_r, append_assoc.
  - destruct IH as (x & d & -> & Hd); [done|].
    exists ("." +:+ FormatInt z +:+ x), d. split; [|done].
    by rewrite !append_assoc.
Qed.

Lemma snapshotBase_dot cfg : HasPrefix (snapshotBase cfg) "." = true.
Proof.
  unfold snapshotBase. destruct (String.eqb _ "."); [done|].
  apply normalizeOID_normal_form_prefix.
Qed.

(** ** Fetching what the table lists *)

Section Fetch.
Variable oor : Float64.float64 -> Z.

Lemma snapshotBindings_Type s elapsed k v :
  (k, v) ∈ snapshotBindings oor s elapsed ->
  Type_ v ∈ [Gauge32; Counter32; TimeTicks; OctetString].
Proof.
  unfold snapshotBindings. rewrite elem_of_app. intros [H|H].
  - unfold scalarBindings in H. cbv zeta in H. rewrite !elem_of_cons, elem_of_nil in H.
    repeat (destruct H as [[= -> ->]|H]; [simpl; set_solver|]). done.
  - rewrite flat_map_concat_map in H. apply elem_of_concat_map in H as (e & _ & H).
    unfold leafBindings in H. cbv zeta in H. rewrite !elem_of_cons, elem_of_nil in H.
    repeat (destruct H as [[= -> ->]|H];
            [rewrite ?timeGauge_eq; simpl; set_solver|]).
    done.
Qed.

Lemma snapshot_address_normal s elapsed k :
  is_Some (snapshotValues oor s elapsed !! k) -> normalizeOID k = k.
Proof.
  intros Hv. destruct (snapshot_key_suffix oor s elapsed k Hv) as (sfx & Hs & ->).
  assert (sfx <> []) as Hne.
  { apply allSuffixes_elem in Hs as [Hs|(idx & j & _ & _ & ->)]; [|done].
    unfold scalarSuffixes in Hs. rewrite !elem_of_cons, elem_of_nil in Hs.
    by repeat (destruct Hs as [->|Hs]; [done|]). }
  destruct (dotted_last sfx Hne) as (x & d & Hx & Hd).
  unfold leaf_oid. rewrite Hx, <- append_assoc.
  apply normalizeOID_dot_digit; [|done].
  pose proof (snapshotBase_dot (config s)) as [b ->]%HasPrefix_dot.
  by rewrite append_cons.
Qed.

(** X3: every address that the sorted table lists is in normal form, is
    bound to a value that carries this address as its name and one of the
    four value types, and a Get of it returns that value. *)
Theorem listed_address_is_fetched (s : SNMPOutput) (elapsed : Z) :
  Forall
    (fun k =>
       normalizeOID k = k /\
       exists v,
         snapshotValues oor s elapsed !! k = Some v /\
         Name v = k /\
         Type_ v ∈ [Gauge32; Counter32; TimeTicks; OctetString] /\
         handleGet [request k] (snapshotValues oor s elapsed) = [v])
    (snapshotOIDs oor s elapsed).
Proof.
  apply Forall_forall. intros k Hk.
  apply snapshotOIDs_elem in Hk as Hv.
  pose proof (snapshot_address_normal _ _ _ Hv) as Hn.
  split; [done|]. destruct Hv as [v Hv]. exists v.
  split; [done|]. split; [by eapply snapshot_Name|]. split.
  - unfold snapshotValues in Hv. rewrite buildOIDSnapshot_values in Hv.
    apply fold_insert_lookup_elem in Hv. by eapply snapshotBindings_Type.
  - rewrite handleGet_map. simpl. unfold getReply. simpl. by rewrite Hn, Hv.
Qed.

End Fetch.

(** ** The comparison on arbitrary strings *)

(** X4: on all strings, addresses or not, [compareOIDs] is a total preorder:
    its result is -1, 0 or 1, swapping the arguments negates it, "not after"
    is transitive, and two strings compare equal exactly when they have the
    same integer components.  It is not an order on strings: an address
    and the same address without its leading dot compare equal. *)
Theorem compareOIDs_total_preorder (a b c : string) :
  (compareOIDs a b = -1 \/ compareOIDs a b = 0 \/ compareOIDs a b = 1) /\
  compareOIDs b a = - compareOIDs a b /\
  (compareOIDs a b <= 0 -> compareOIDs b c <= 0 -> compareOIDs a c <= 0) /\
  (compareOIDs a b = 0 <-> oid_values a = oid_values b) /\
  (HasPrefix a "." = false -> compareOIDs ("." +:+ a) a = 0).
Proof.
  split; [rewrite compareOIDs_values; apply compare_values_range|].
  split; [apply compareOIDs_opp|].
  split; [apply compareOIDs_trans|].
  rewrite !compareOIDs_values. split; [split|].
  - apply compare_values_zero_eq.
  - intros ->. apply compare_values_refl.
  - intros Ha. replace (oid_values ("." +:+ a)) with (oid_values a).
    + apply compare_values_refl.
    + unfold oid_values, oid_parts, TrimPrefix. rewrite Ha.
      by rewrite append_cons, append_nil_l.
Qed.

(** ** Walking the table *)

Lemma nextOID_head sorted current :
  nextOID sorted current = head (above sorted current).
Proof.
  unfold above. induction sorted as [|oid rest IH]; simpl; [done|].
  rewrite filter_cons, Z.gtb_ltb.
  destruct (decide (0 < compareOIDs oid current)) as [H|H].
  - by apply Z.ltb_lt in H as ->.
  - by apply Z.ltb_nlt in H as ->.
Qed.

Lemma filter_all {A} (P : A -> Prop) `{!forall x, Decision (P x)} (l : list A) :
  Forall P l -> filter P l = l.
Proof.
  induction 1 as [|x l Hx _ IH]; [done|].
  by rewrite filter_cons, decide_True, IH.
Qed.

(** In a table in strictly ascending order, the addresses after the first
    address after [current] are the remaining addresses after [current]. *)
Lemma above_step sorted current next rest :
  StronglySorted (fun a b => compareOIDs a b < 0) sorted ->
  above sorted current = next :: rest ->
  above sorted next = rest.
Proof.
  unfold above. induction 1 as [|x l Hl IH Hx]; [done|].
  rewrite !filter_cons.
  destruct (decide (0 < compareOIDs x current)) as [Hc|Hc].
  - assert (Forall (fun t => 0 < compareOIDs t current) l) as Hall.
    { eapply Forall_impl; [exact Hx|]. intros t Ht. simpl in Ht.
      assert (compareOIDs current t < 0); [|rewrite (compareOIDs_opp current t); lia].
      eapply compareOIDs_lt_le; [|apply Z.lt_le_incl, Ht].
      rewrite (compareOIDs_opp x current). lia. }
    rewrite (filter_all _ _ Hall). intros [= -> ->].
    rewrite decide_False by (rewrite compareOIDs_refl; lia).
    apply filter_all. eapply Forall_impl; [exact Hx|].
    intros t Ht. simpl in Ht. rewrite (compareOIDs_opp next t). lia.
  - intros E. rewrite decide_False; [by apply IH|].
    assert (next ∈ l) as Hn.
    { assert (next ∈ filter (fun t => 0 < compareOIDs t current) l) as Hin
        by (rewrite E; left).
      by apply list_elem_of_filter in Hin as [_ ?]. }
    rewrite Forall_forall in Hx. specialize (Hx _ Hn). simpl in Hx. lia.
Qed.

(** A walk returns the values of the addresses after its start, in table
    order, and then one end marker at the last address it reached. *)
Lemma walkReplies_above valueMap sorted :
  StronglySorted (fun a b => compareOIDs a b < 0) sorted ->
  (forall k, k ∈ sorted -> Name (index_map valueMap k) = k) ->
  forall n current,
    walkReplies valueMap sorted n current =
    take n (map (index_map valueMap) (above sorted current)
            ++ [marker (default current (last (above sorted current))) EndOfMibView]).
Proof.
  intros Hs Hname. induction n as [|n IH]; intros current; [done|].
  simpl. rewrite nextOID_head.
  destruct (above sorted current) as [|next rest] eqn:E;
    [simpl; by rewrite take_nil|].
  simpl. f_equal.
  assert (next ∈ sorted) as Hin.
  { assert (next ∈ above sorted current) as Hin by (rewrite E; left).
    unfold above in Hin. by apply list_elem_of_filter in Hin as [_ ?]. }
  rewrite (Hname _ Hin), IH, (above_step _ _ _ _ Hs E).
  do 3 f_equal. rewrite last_cons. by destruct (last rest).
Qed.

Lemma StronglySorted_filter_list {A} (R : A -> A -> Prop) (P : A -> Prop)
    `{!forall x, Decision (P x)} (l : list A) :
  StronglySorted R l -> StronglySorted R (filter P l).
Proof.
  induction 1 as [|x l Hl IH Hx]; [constructor|].
  rewrite filter_cons. case_decide; [|done].
  constructor; [done|]. apply Forall_forall. intros y [_ Hy]%list_elem_of_filter.
  rewrite Forall_forall in Hx. by apply Hx.
Qed.

Section Walk.
Variable oor : Float64.float64 -> Z.

(** X5: on the table of a store reached by writes, a GetBulk returns
    exactly when its reply buffer, of as many entries as it has variables
    times the repetition count, can be made, and panics otherwise. When it
    returns, its repeating part holds, for each start address, the values
    of the table addresses after it, in ascending order and each once, cut
    after the repetition count; when the table runs out first, one
    end-of-tree marker at the last address reached follows, and nothing
    after it. *)
Theorem handleGetBulk_walks_in_order (cfg : SNMPConfig) (now : Time)
    (rs : list TestResult) (elapsed : Z) (packet : SnmpPacket) :
  exists s, writes (newOutput cfg now) rs = Some s /\
    let sorted := snapshotOIDs oor s elapsed in
    let values := snapshotValues oor s elapsed in
    let k := clampNonRepeaters packet in
    let r := clampMaxRepetitions packet in
    let walk vb :=
      let start := normalizeOID (Name vb) in
      let rest := above sorted start in
      take r (map (index_map values) rest
              ++ [marker (default start (last rest)) EndOfMibView]) in
    handleGetBulk packet values sorted =
      (if makeslice (bulkCapacity packet) then
         Some (map (nextReply values sorted) (firstn k (Variables packet))
               ++ concat (map walk (skipn k (Variables packet))))
       else None) /\
    (forall start,
        map Name (map (index_map values) (above sorted start)) = above sorted start /\
        StronglySorted (fun a b => compareOIDs a b < 0) (above sorted start) /\
        forall t, t ∈ above sorted start <-> t ∈ sorted /\ compareOIDs t start > 0).
Proof.
  destruct (writes_reached cfg now rs) as (s & Hw & Hr).
  exists s. split; [done|]. cbv zeta.
  pose proof (reached_int64 _ _ _ _ Hr) as Hi.
  pose proof (snapshotOIDs_sorted oor s elapsed Hi) as Hs.
  assert (Hname : forall k, k ∈ snapshotOIDs oor s elapsed ->
                            Name (index_map (snapshotValues oor s elapsed) k) = k).
  { intros k [v Hv]%snapshotOIDs_elem. unfold index_map. rewrite Hv. simpl.
    by eapply snapshot_Name. }
  split.
  - rewrite handleGetBulk_eq. destruct (makeslice (bulkCapacity packet)); [|done].
    f_equal. f_equal. f_equal.
    apply map_ext. intros vb. by apply walkReplies_above.
  - intros start. split; [|split].
    + rewrite map_map. rewrite <- (map_id (above _ start)) at 2.
      apply map_ext_in. intros t Ht%list_elem_of_In. apply Hname.
      unfold above in Ht. by apply list_elem_of_filter in Ht as [_ ?].
    + unfold above. by apply StronglySorted_filter_list.
    + intros t. unfold above. rewrite list_elem_of_filter. split.
      * intros [? ?]. split; [done|lia].
      * intros [? ?]. split; [lia|done].
Qed.

End Walk.

(** X6: a GetBulk whose repetition count is 0 or 1, or whose non-repeater
    count covers all its variables, is answered exactly like a GetNext of
    the same variables, whenever its reply buffer can be made; when it
    cannot, [handleGetBulk] panics. *)
Theorem handleGetBulk_as_GetNext (packet : SnmpPacket)
    (valueMap : gmap string SnmpPDU) (sortedOIDs : list string) :
  (MaxRepetitions packet <= 1)%N \/
  (length (Variables packet) <= N.to_nat (NonRepeaters packet))%nat ->
  handleGetBulk packet valueMap sortedOIDs =
  if makeslice (bulkCapacity packet)
  then Some (handleGetNext (Variables packet) valueMap sortedOIDs)
  else None.
Proof.
  intros H. rewrite handleGetBulk_eq, handleGetNext_map.
  destruct (makeslice (bulkCapacity packet)); [|done]. f_equal.
  destruct H as [H|H].
  - replace (clampMaxRepetitions packet) with 1%nat
      by (unfold clampMaxRepetitions; lia).
    rewrite <- (take_drop (clampNonRepeaters packet) (Variables packet)) at 3.
    rewrite map_app. f_equal.
    induction (skipn _ _) as [|vb l IH]; [done|].
    cbn [map concat]. rewrite IH. unfold nextReply. simpl.
    by destruct (nextOID sortedOIDs (normalizeOID (Name vb))).
  - replace (clampNonRepeaters packet) with (length (Variables packet))
      by (unfold clampNonRepeaters; lia).
    by rewrite firstn_all, skipn_all, app_nil_r.
Qed.

(** ** What one write changes *)

Lemma Write_Some s r s' : Write s r = Some s' -> WriteStep s r s'.
Proof.
  intros Hw. destruct (Write_step s r) as (s'' & Hw' & W).
  - intros Hfull Hc. apply Z.leb_le in Hfull.
    unfold Write in Hw. by rewrite Hfull, Hc in Hw.
  - by replace s' with s'' by congruence.
Qed.

(** X7: a write that returns leaves the aggregate and the index of every
    other site as they were, never changes an index that the written site
    already has, keeps the configuration, the capacity and the start time,
    and leaves the written site with an aggregate; the index counter moves
    only when the site is new, and then by one. *)
Theorem Write_touches_one_site (s : SNMPOutput) (r : TestResult) (s' : SNMPOutput) :
  Write s r = Some s' ->
  (forall n, n <> siteKey r ->
     stats s' !! n = stats s !! n /\ siteIndex s' !! n = siteIndex s !! n) /\
  (forall i, siteIndex s !! siteKey r = Some i -> siteIndex s' !! siteKey r = Some i) /\
  is_Some (stats s' !! siteKey r) /\
  config s' = config s /\ maxSize s' = maxSize s /\ startTime s' = startTime s /\
  (nextSiteIndex s' = nextSiteIndex s /\ siteIndex s' = siteIndex s \/
   stats s !! siteKey r = None /\ siteIndex s !! siteKey r = None /\
   nextSiteIndex s' = wrap64 (nextSiteIndex s + 1) /\
   siteIndex s' !! siteKey r = Some (nextSiteIndex s')).
Proof.
  intros [Hc Ht Hm _ Hs Hi Hn]%Write_Some.
  split; [|split; [|split; [|split; [|split; [|split]]]]]; try done.
  - intros n Hne. rewrite Hs, Hi. split; [by apply lookup_insert_ne|].
    destruct (stats s !! siteKey r), (siteIndex s !! siteKey r); try done.
    by apply lookup_insert_ne.
  - intros i Hsi. rewrite Hi, Hsi. by destruct (stats s !! siteKey r).
  - rewrite Hs, lookup_insert_eq. by eexists.
  - rewrite Hi, Hn.
    destruct (stats s !! siteKey r) eqn:Es; [by left|].
    destruct (siteIndex s !! siteKey r) eqn:Ei; [by left|].
    right. by rewrite lookup_insert_eq.
Qed.

(** X8: [Write] fails (the slice expression panics) exactly on a store whose
    capacity is not positive and whose cache is empty; an agent made by
    [NewSNMPOutput] has capacity 100, so no run of writes to it fails. *)
Theorem Write_panics_only_without_capacity (s : SNMPOutput) (r : TestResult) :
  (Write s r = None <-> maxSize s <= 0 /\ cache s = []) /\
  (forall cfg now rs, s = newOutput cfg now -> is_Some (writes s rs)).
Proof.
  split.
  - split.
    + intros Hw. destruct (decide (maxSize s <= 0 /\ cache s = [])) as [|Hn]; [done|].
      destruct (Write_step s r) as (s' & Hw' & _); [|congruence].
      intros Hfull Hc. apply Hn. rewrite Hc in Hfull. simpl in Hfull. split; [lia|done].
    + intros [Hm Hc]. apply Z.leb_le in Hm. unfold Write. rewrite Hc.
      change (Z.of_nat (length (@nil TestResult))) with 0. by rewrite Hm.
  - intros cfg now rs ->. destruct (writes_reached cfg now rs) as (s' & -> & _).
    by eexists.
Qed.

(** ** What an aggregate records *)

Lemma siteResults_snoc n rs r :
  siteResults n (rs ++ [r]) =
  siteResults n rs ++ (if bool_decide (siteKey r = n) then [r] else []).
Proof.
  unfold siteResults. rewrite filter_app, filter_cons, filter_nil.
  by case_bool_decide; [rewrite decide_True|rewrite decide_False].
Qed.

Lemma successes_snoc h r :
  successes (h ++ [r]) = successes h ++ (if Success r then [r] else []).
Proof.
  unfold successes. rewrite filter_app, filter_cons, filter_nil.
  by destruct (Success r); [rewrite decide_True|rewrite decide_False].
Qed.

Lemma failures_snoc h r :
  failures (h ++ [r]) = failures h ++ (if Success r then [] else [r]).
Proof.
  unfold failures. rewrite filter_app, filter_cons, filter_nil.
  by destruct (Success r); [rewrite decide_False|rewrite decide_True].
Qed.

Lemma wrap64_of_nat_succ (k : nat) :
  wrap64 (wrap64 (Z.of_nat k) + 1) = wrap64 (Z.of_nat (k + 1)).
Proof. rewrite wrap64_succ. f_equal. lia. Qed.

Lemma Summarises_first r : Summarises (updateStats (newStats r) r) [r].
Proof.
  constructor; simpl; unfold successes, failures; rewrite ?filter_cons, ?filter_nil.
  - done.
  - by destruct (Success r); [rewrite decide_True|rewrite decide_False].
  - by destruct (Success r); [rewrite decide_False|rewrite decide_True].
  - done.
  - by destruct (Success r); [rewrite decide_True|rewrite decide_False].
  - by destruct (Success r); [rewrite decide_False|rewrite decide_True].
  - constructor; [|done].
    destruct (_ <? _) eqn:E1, (_ >? _) eqn:E2; lia.
  - constructor. by destruct (_ <? _).
  - constructor. by destruct (_ >? _).
Qed.

Lemma Summarises_next st h r :
  Summarises st h -> Summarises (updateStats st r) (h ++ [r]).
Proof.
  intros [Ht Hs Hf Hl Hls Hlf Hb Hmin Hmax].
  constructor; simpl; rewrite ?successes_snoc, ?failures_snoc, ?length_app,
    ?map_app, ?last_snoc.
  - rewrite Ht. apply wrap64_of_nat_succ.
  - destruct (Success r); simpl; [|by rewrite Nat.add_0_r].
    rewrite Hs. apply wrap64_of_nat_succ.
  - destruct (Success r); simpl; [by rewrite Nat.add_0_r|].
    rewrite Hf. apply wrap64_of_nat_succ.
  - simpl. by rewrite last_snoc.
  - destruct (Success r); simpl; [by rewrite last_snoc|by rewrite app_nil_r].
  - destruct (Success r); simpl; [by rewrite app_nil_r|by rewrite last_snoc].
  - apply Forall_app. split.
    + eapply Forall_impl; [exact Hb|]. intros x Hx. simpl in Hx.
      destruct (_ <? _) eqn:E1, (_ >? _) eqn:E2; lia.
    + constructor; [|done].
      destruct (_ <? _) eqn:E1, (_ >? _) eqn:E2; lia.
  - apply Exists_app. destruct (_ <? _); [right; by constructor|by left].
  - apply Exists_app. destruct (_ >? _); [right; by constructor|by left].
Qed.

(** The aggregate of a site summarises the results of that site, and a site
    without results has none. *)
Lemma aggregateOf_Summarises n rs :
  match aggregateOf n rs with
  | None => siteResults n rs = []
  | Some st => siteResults n rs <> [] /\ Summarises st (siteResults n rs)
  end.
Proof.
  induction rs as [|r rs IH] using rev_ind; [done|].
  rewrite aggregateOf_snoc, siteResults_snoc.
  case_bool_decide as Hk; [|by rewrite app_nil_r].
  destruct (aggregateOf n rs) as [st|]; simpl.
  - destruct IH as [_ IH]. split; [by destruct (siteResults n rs)|].
    by apply Summarises_next.
  - rewrite IH. split; [done|]. apply Summarises_first.
Qed.

Lemma last_map {A B} (f : A -> B) (l : list A) : last (map f l) = f <$> last l.
Proof.
  induction l as [|x l IH]; [done|].
  simpl map. rewrite !last_cons, IH. by destruct (last l).
Qed.

Lemma successes_failures_length h :
  length h = (length (successes h) + length (failures h))%nat.
Proof.
  unfold successes, failures. induction h as [|r h IH]; [done|].
  rewrite !filter_cons. destruct (Success r).
  - rewrite decide_True, decide_False by done. simpl. lia.
  - rewrite decide_False, decide_True by done. simpl. lia.
Qed.

Lemma filter_length_le {A} (P : A -> Prop) `{!forall x, Decision (P x)} (l : list A) :
  (length (filter P l) <= length l)%nat.
Proof.
  induction l as [|x l IH]; [done|].
  rewrite filter_cons. case_decide; simpl; lia.
Qed.

Lemma wrap64_of_nat (k : nat) : Z.of_nat k < 2 ^ 63 -> wrap64 (Z.of_nat k) = Z.of_nat k.
Proof. intros H. apply wrap64_small, in_int64_iff. change (2 ^ 63) with 9223372036854775808 in H. lia. Qed.

(** X9: after any run of writes a site has an aggregate exactly when a
    result was written for it, and its three counters are the numbers of its
    results, of its successes and of its failures, each reduced to the
    64-bit range; below 2^63 results they are these numbers, and the total
    is the sum of the other two. *)
Theorem site_counters_count_results (cfg : SNMPConfig) (now : Time)
    (rs : list TestResult) (n : string) :
  exists s, writes (newOutput cfg now) rs = Some s /\
    let h := siteResults n rs in
    (stats s !! n = None <-> h = []) /\
    forall st, stats s !! n = Some st ->
      TotalTests st = wrap64 (Z.of_nat (length h)) /\
      SuccessfulTests st = wrap64 (Z.of_nat (length (successes h))) /\
      FailedTests st = wrap64 (Z.of_nat (length (failures h))) /\
      (Z.of_nat (length h) < 2 ^ 63 ->
       TotalTests st = Z.of_nat (length h) /\
       SuccessfulTests st = Z.of_nat (length (successes h)) /\
       FailedTests st = Z.of_nat (length (failures h)) /\
       TotalTests st = SuccessfulTests st + FailedTests st /\
       1 <= TotalTests st).
Proof.
  destruct (writes_reached cfg now rs) as (s & Hw & _).
  exists s. split; [done|]. cbv zeta.
  pose proof (aggregateOf_Summarises n rs) as Ha.
  rewrite <- (writes_stats cfg now rs s n Hw) in Ha.
  destruct (stats s !! n) as [st|].
  - destruct Ha as [Hne [Ht Hs Hf _ _ _ _ _ _]]. split; [done|].
    intros ? [= <-]. do 3 (split; [done|]). intros Hlt.
    pose proof (successes_failures_length (siteResults n rs)) as Hsum.
    rewrite Ht, Hs, Hf, !wrap64_of_nat by lia.
    repeat split; try lia.
    destruct (siteResults n rs); [done|simpl; lia].
  - split; [done|]. intros st [=].
Qed.

(** X10: the aggregate of a site holds the duration of the site's last
    result, and its minimum and maximum are the smallest and the largest
    duration among the site's results, so that minimum <= last <= maximum. *)
Theorem site_durations_are_extremes (cfg : SNMPConfig) (now : Time)
    (rs : list TestResult) (n : string) :
  exists s, writes (newOutput cfg now) rs = Some s /\
    let h := siteResults n rs in
    forall st, stats s !! n = Some st ->
      last (map TotalDurationMs h) = Some (LastDurationMs st) /\
      Forall (fun r => MinDurationMs st <= TotalDurationMs r <= MaxDurationMs st) h /\
      Exists (fun r => TotalDurationMs r = MinDurationMs st) h /\
      Exists (fun r => TotalDurationMs r = MaxDurationMs st) h /\
      MinDurationMs st <= LastDurationMs st <= MaxDurationMs st.
Proof.
  destruct (writes_reached cfg now rs) as (s & Hw & _).
  exists s. split; [done|]. cbv zeta. intros st Hst.
  pose proof (aggregateOf_Summarises n rs) as Ha.
  rewrite <- (writes_stats cfg now rs s n Hw), Hst in Ha.
  destruct Ha as [_ [_ _ _ Hl _ _ Hb Hmin Hmax]].
  do 4 (split; [done|]).
  symmetry in Hl. rewrite last_map in Hl.
  destruct (last (siteResults n rs)) as [r|] eqn:El; [|done].
  injection Hl as <-. apply last_Some_elem_of in El.
  rewrite Forall_forall in Hb. by apply Hb.
Qed.

(** X11: the last-success time of a site is the timestamp of the success
    written last for it, whatever the timestamps of earlier or later
    results, and the zero time while it has no success; likewise for the
    last-failure time. *)
Theorem site_times_follow_write_order (cfg : SNMPConfig) (now : Time)
    (rs : list TestResult) (n : string) :
  exists s, writes (newOutput cfg now) rs = Some s /\
    let h := siteResults n rs in
    forall st, stats s !! n = Some st ->
      LastSuccessTime st = default zeroTime (last (map Timestamp (successes h))) /\
      LastFailureTime st = default zeroTime (last (map Timestamp (failures h))).
Proof.
  destruct (writes_reached cfg now rs) as (s & Hw & _).
  exists s. split; [done|]. cbv zeta. intros st Hst.
  pose proof (aggregateOf_Summarises n rs) as Ha.
  rewrite <- (writes_stats cfg now rs s n Hw), Hst in Ha.
  by destruct Ha as [_ [_ _ _ _ Hs Hf _ _ _]].
Qed.

(** ** What a request can cause *)

Ltac no_send :=
  let d := fresh "d" in
  let Hd := fresh "Hd" in
  intros d Hd;
  repeat (apply elem_of_cons in Hd as [Hd|Hd]; [discriminate Hd|]);
  by apply elem_of_nil in Hd.

Section Replies.
Variable oor : Float64.float64 -> Z.
Variable MarshalMsg : SnmpPacket -> option (list Byte.byte).

(** [handleRequest] panics on the datagrams of [fatal], and on no other. *)
Lemma handleRequest_fatal (s : SNMPOutput) (elapsed : Z)
    (listener write_ok : bool) (decoded : Decoded) :
  if fatal s decoded
  then handleRequest oor MarshalMsg s elapsed listener write_ok decoded = [Panic]
  else panicked (handleRequest oor MarshalMsg s elapsed listener write_ok decoded) = false.
Proof.
  unfold handleRequest, fatal.
  destruct decoded as [| |p]; [done..|].
  destruct (N.eqb (Version p) Version2c), (N.eqb (Version p) Version1);
    cbn [negb andb orb]; try done;
    (destruct (String.eqb (Community p) (cfgCommunity (config s)));
       cbn [negb andb]; [|done]);
    unfold buildResponse;
    destruct (buildOIDSnapshot oor s elapsed) as [sorted values];
    (destruct (PDUType_ p); cbn [andb];
     try (rewrite handleGetBulk_eq; destruct (makeslice (bulkCapacity p)); cbn [negb]);
     try done;
     match goal with
     | |- context [MarshalMsg ?r] => destruct (MarshalMsg r)
     end; by destruct listener, write_ok).
Qed.

Lemma handleRequest_sends_once (s : SNMPOutput) (elapsed : Z)
    (listener write_ok : bool) (decoded : Decoded) :
  (length (filter (fun e => is_send e = true)
             (handleRequest oor MarshalMsg s elapsed listener write_ok decoded)) <= 1)%nat.
Proof.
  unfold handleRequest.
  destruct decoded as [| |p]; [simpl; lia..|].
  destruct (negb (N.eqb (Version p) Version2c) && negb (N.eqb (Version p) Version1));
    [simpl; lia|].
  destruct (negb (String.eqb (Community p) (cfgCommunity (config s)))); [simpl; lia|].
  destruct (buildResponse oor s elapsed p) as [[resp logs]|] eqn:Eb; [|simpl; lia].
  assert (filter (fun e => is_send e = true) logs = []) as Hlogs.
  { unfold buildResponse in Eb.
    destruct (buildOIDSnapshot oor s elapsed) as [sorted values].
    destruct (PDUType_ p); try (by injection Eb as <- <-).
    destruct (handleGetBulk p values sorted); [by injection Eb as <- <-|done]. }
  destruct (MarshalMsg resp), listener, write_ok; simpl;
    rewrite ?filter_app, ?Hlogs, ?filter_cons, ?filter_nil;
    repeat case_decide; simpl in *; try discriminate; lia.
Qed.

(** X12: one call of [handleRequest] hands at most one datagram to the
    socket, and none when the datagram does not decode, when no socket is
    set or when the reply cannot be encoded.  A datagram that is sent is the
    encoding of a GetResponse that repeats the version, the community, the
    request identifier and the message identifier of the request; its error
    status is "no error" for Get, GetNext and GetBulk and "general error"
    for every other kind of request, whose variables it returns untouched. *)
Theorem handleRequest_single_echoing_reply (s : SNMPOutput) (elapsed : Z)
    (listener write_ok : bool) (decoded : Decoded) :
  let trace := handleRequest oor MarshalMsg s elapsed listener write_ok decoded in
  (length (filter (fun e => is_send e = true) trace) <= 1)%nat /\
  (forall datagram, Send datagram ∈ trace ->
     listener = true /\
     exists p resp,
       decoded = DecodedPacket p /\
       (exists logs, buildResponse oor s elapsed p = Some (resp, logs)) /\
       MarshalMsg resp = Some datagram /\
       PDUType_ resp = GetResponse /\
       Version resp = Version p /\ Community resp = Community p /\
       RequestID resp = RequestID p /\ MsgID resp = MsgID p /\
       Error resp = (if supported (PDUType_ p) then NoError else GenErr) /\
       (supported (PDUType_ p) = false -> Variables resp = Variables p) /\
       (PDUType_ p = GetRequest ->
        Variables resp = handleGet (Variables p) (snapshotValues oor s elapsed)) /\
       (PDUType_ p = GetNextRequest ->
        Variables resp = handleGetNext (Variables p) (snapshotValues oor s elapsed)
                           (snapshotOIDs oor s elapsed)) /\
       (PDUType_ p = GetBulkRequest ->
        handleGetBulk p (snapshotValues oor s elapsed) (snapshotOIDs oor s elapsed)
        = Some (Variables resp))).
Proof.
  cbv zeta. split; [apply handleRequest_sends_once|].
  unfold handleRequest.
  destruct decoded as [| |p]; [no_send..|].
  destruct (negb (N.eqb (Version p) Version2c) && negb (N.eqb (Version p) Version1));
    [no_send|].
  destruct (negb (String.eqb (Community p) (cfgCommunity (config s))));
    [no_send|].
  unfold buildResponse, snapshotValues, snapshotOIDs.
  destruct (buildOIDSnapshot oor s elapsed) as [sorted values]. simpl.
  destruct (PDUType_ p) eqn:Et; simpl;
    try (destruct (handleGetBulk p values sorted) as [vars|] eqn:Eg; [|no_send]);
    match goal with
    | |- context [MarshalMsg ?r] => destruct (MarshalMsg r) as [bytes|] eqn:Em
    end;
    destruct listener, write_ok; simpl;
    intros d Hd; rewrite ?elem_of_cons, ?elem_of_nil in Hd;
    repeat (destruct Hd as [Hd|Hd]; try discriminate Hd); try done;
    injection Hd as ->; (split; [done|]);
    eexists p, _; (split; [done|]);
    (split; [rewrite Et, ?Eg; eexists; reflexivity|]);
    (split; [exact Em|]); simpl; rewrite ?Et;
    repeat split; done.
Qed.

End Replies.

(** ** The sorted table in full *)

Lemma StronglySorted_map_elem {A B} (R1 : A -> A -> Prop) (R2 : B -> B -> Prop)
    (f : A -> B) (l : list A) :
  (forall x y, x ∈ l -> y ∈ l -> R1 x y -> R2 (f x) (f y)) ->
  StronglySorted R1 l -> StronglySorted R2 (map f l).
Proof.
  intros Hf Hs. induction Hs as [|x l Hl IH Hx]; simpl; [constructor|].
  constructor.
  - apply IH. intros a b Ha Hb. apply Hf; by right.
  - apply Forall_forall. intros y (a & <- & Ha)%list_elem_of_In%in_map_iff.
    apply list_elem_of_In in Ha. apply Hf; [left|by right|].
    rewrite Forall_forall in Hx. by apply Hx.
Qed.

Lemma seqZ_sorted (m : nat) : StronglySorted Z.lt (seqZ 1 (Z.of_nat m)).
Proof.
  induction m as [|m IH]; [constructor|].
  rewrite seqZ_S. apply StronglySorted_app_2; [|done|repeat constructor].
  intros a b Ha%elem_of_seqZ Hb%list_elem_of_singleton. lia.
Qed.

Lemma compare_values_row i j i' j' :
  i < i' \/ (i = i' /\ j < j') -> compare_values [5; i; j] [5; i'; j'] < 0.
Proof.
  intros H. unfold compare_values. simpl.
  destruct (Z.ltb_spec i i'); [done|].
  destruct (Z.gtb_spec i i'); [lia|].
  destruct (Z.ltb_spec j j'); [done|lia].
Qed.

Lemma compare_values_scalar_row a i j :
  a < 5 -> compare_values [a; 0] [5; i; j] < 0.
Proof.
  intros H. unfold compare_values. simpl.
  by destruct (Z.ltb_spec a 5); [|lia].
Qed.

Lemma leafColumns_sorted : StronglySorted Z.lt leafColumns.
Proof. unfold leafColumns. repeat constructor; lia. Qed.

Lemma allSuffixes_sorted idxs :
  StronglySorted Z.lt idxs ->
  StronglySorted (fun x y => compare_values x y < 0) (allSuffixes idxs).
Proof.
  intros Hs. unfold allSuffixes. apply StronglySorted_app_2.
  - intros x y Hx (idx & _ & Hy)%elem_of_concat_map.
    apply list_elem_of_fmap in Hy as (j & -> & _).
    unfold scalarSuffixes in Hx. rewrite !elem_of_cons, elem_of_nil in Hx.
    repeat (destruct Hx as [->|Hx]; [by apply compare_values_scalar_row|]). done.
  - unfold scalarSuffixes. repeat constructor; by vm_compute.
  - induction Hs as [|i l Hl IH Hi]; cbn [map concat]; [constructor|].
    apply StronglySorted_app_2; [| |done].
    + intros x y (j & -> & _)%list_elem_of_fmap (i' & Hi' & Hy)%elem_of_concat_map.
      apply list_elem_of_fmap in Hy as (j' & -> & _).
      apply compare_values_row. left. rewrite Forall_forall in Hi. by apply Hi.
    + unfold leafSuffixes. eapply StronglySorted_map_elem; [|apply leafColumns_sorted].
      intros j j' _ _ Hj. apply compare_values_row. by right.
Qed.

Lemma allSuffixes_length idxs :
  length (allSuffixes idxs) = (4 + 10 * length idxs)%nat.
Proof.
  unfold allSuffixes. rewrite length_app.
  induction idxs as [|i l IH]; [done|].
  cbn [map concat]. rewrite length_app. simpl in *. lia.
Qed.

Section Table.
Variable oor : Float64.float64 -> Z.

(** The indices in use after the results [rs] are 1, 2, ..., one per site. *)
Lemma reached_indices cfg now rs s idx :
  Reached cfg now rs s ->
  Z.of_nat (length (distinctSites rs)) < 2 ^ 63 ->
  idx ∈ map index (snapshotEntries s) <->
  idx ∈ seqZ 1 (Z.of_nat (length (distinctSites rs))).
Proof.
  intros Hr Hc. rewrite elem_of_seqZ.
  pose proof (reached_index_exact _ _ _ _ Hr Hc) as Hi. split.
  - intros (n & Hn & _)%snapshotEntries_index.
    apply Hi in Hn as (k & Hk & ->). apply lookup_lt_Some in Hk. lia.
  - intros Hidx.
    destruct (lookup_lt_is_Some_2 (distinctSites rs) (Z.to_nat (idx - 1))) as [n Hn];
      [lia|].
    assert (siteIndex s !! n = Some idx) as Hsi.
    { apply Hi. exists (Z.to_nat (idx - 1)). split; [done|lia]. }
    assert (is_Some (stats s !! n)) as [st Hst].
    { eapply reached_stats_index; [done|]. by eexists. }
    apply list_elem_of_fmap.
    exists {| name := n; index := idx; entry_stats := st |}. split; [done|].
    by apply elem_of_snapshotEntries.
Qed.

Lemma snapshot_table_eq cfg now rs s elapsed :
  Reached cfg now rs s ->
  Z.of_nat (length (distinctSites rs)) < 2 ^ 63 ->
  snapshotOIDs oor s elapsed =
  map (leaf_oid (snapshotBase cfg))
      (allSuffixes (seqZ 1 (Z.of_nat (length (distinctSites rs))))).
Proof.
  intros Hr Hc.
  pose proof (reached_int64 _ _ _ _ Hr) as Hi.
  pose proof (reached_index_inj _ _ _ _ Hr Hc) as Hinj.
  set (idxs := seqZ 1 (Z.of_nat (length (distinctSites rs)))).
  assert (Hint : Forall (fun i => in_int64 i = true) idxs).
  { apply Forall_forall. intros i Hin%elem_of_seqZ. apply in_int64_iff.
    change (2 ^ 63) with 9223372036854775808 in Hc. lia. }
  assert (Hsorted : StronglySorted (fun a b => compareOIDs a b < 0)
                      (map (leaf_oid (snapshotBase cfg)) (allSuffixes idxs))).
  { eapply StronglySorted_map_elem; [|apply allSuffixes_sorted, seqZ_sorted].
    intros x y Hx Hy Hxy. simpl.
    rewrite compareOIDs_leaf; [done|apply snapshotBase_nonempty|..];
      by eapply allSuffixes_int64. }
  assert (Helem : forall k, k ∈ map (leaf_oid (snapshotBase cfg)) (allSuffixes idxs) <->
                            k ∈ snapshotOIDs oor s elapsed).
  { intros k. rewrite snapshotOIDs_elem.
    assert (forall sfx, sfx ∈ allSuffixes idxs <->
                        sfx ∈ allSuffixes (map index (snapshotEntries s))) as Hsfx.
    { intros sfx. rewrite !allSuffixes_elem.
      by setoid_rewrite (reached_indices cfg now rs s _ Hr Hc). }
    rewrite <- (reached_config _ _ _ _ Hr). split.
    - intros (sfx & <- & Hs)%list_elem_of_In%in_map_iff.
      apply list_elem_of_In, Hsfx in Hs.
      assert (leaf_oid (snapshotBase (config s)) sfx
                ∈ (snapshotBindings oor s elapsed).*1) as Hk.
      { rewrite snapshotBindings_keys. apply list_elem_of_In, in_map.
        by apply list_elem_of_In. }
      apply list_elem_of_fmap in Hk as ([k v] & Hk & Hkv). simpl in Hk.
      exists v. apply snapshotValues_lookup; [done..|]. by rewrite Hk.
    - intros Hv. destruct (snapshot_key_suffix oor s elapsed k Hv) as (sfx & Hs & ->).
      apply list_elem_of_In, in_map, list_elem_of_In. by apply Hsfx. }
  symmetry. apply (StronglySorted_unique_strong (fun a b => compareOIDs a b <= 0)).
  - intros a b Ha%Helem Hb Hab Hba.
    apply (snapshotOIDs_separated oor s elapsed); [done..|].
    rewrite (compareOIDs_opp a b) in Hba. lia.
  - eapply StronglySorted_mono; [|exact Hsorted]. intros a b. simpl. lia.
  - eapply StronglySorted_mono; [|by apply snapshotOIDs_sorted]. intros a b. simpl. lia.
  - apply NoDup_Permutation; [|apply snapshotOIDs_NoDup|done].
    clear Helem. induction Hsorted as [|x l Hl IH Hx]; constructor; [|done].
    intros Hin. rewrite Forall_forall in Hx. specialize (Hx _ Hin). simpl in Hx.
    rewrite compareOIDs_refl in Hx. lia.
Qed.

(** X13: after any run of writes the sorted table is, in this order, the
    four scalars [base.1.0] to [base.4.0] and then, for the site indices
    1, 2, ... up to the number of sites, the ten columns [base.5.index.1]
    to [base.5.index.10]; it has four addresses and ten more per site. *)
Theorem snapshot_table_in_full (cfg : SNMPConfig) (now : Time)
    (rs : list TestResult) (elapsed : Z) :
  Z.of_nat (length (distinctSites rs)) < 2 ^ 63 ->
  exists s, writes (newOutput cfg now) rs = Some s /\
    let sites := length (distinctSites rs) in
    snapshotOIDs oor s elapsed =
      map (leaf_oid (snapshotBase cfg)) (allSuffixes (seqZ 1 (Z.of_nat sites))) /\
    length (snapshotOIDs oor s elapsed) = (4 + 10 * sites)%nat /\
    size (snapshotValues oor s elapsed) = (4 + 10 * sites)%nat.
Proof.
  intros Hc. destruct (writes_reached cfg now rs) as (s & Hw & Hr).
  exists s. split; [done|]. cbv zeta.
  pose proof (snapshot_table_eq cfg now rs s elapsed Hr Hc) as Ht.
  assert (length (snapshotOIDs oor s elapsed)
          = (4 + 10 * length (distinctSites rs))%nat) as Hl.
  { rewrite Ht, length_map, allSuffixes_length, length_seqZ. lia. }
  split; [done|]. split; [done|].
  rewrite <- Hl. unfold snapshotOIDs, snapshotValues.
  rewrite buildOIDSnapshot_oids.
  rewrite (Permutation_length (sort_Slice_perm _ _)), length_fmap.
  by rewrite length_map_to_list.
Qed.

End Table.

(** * The health check and the data view *)

Lemma Snmpcheck_normalizeOID_eq oid :
  Snmpcheck.normalizeOID oid =
  if String.eqb (TrimSpace oid) "" then defaultBase else normalizeOID oid.
Proof. unfold Snmpcheck.normalizeOID, normalizeOID. by destruct (String.eqb _ ""). Qed.

(** X14: the health check and the agent derive the same base address from
    the same text, the default base included, unless the text is made of
    dots only: then the agent falls back to the default base while the
    check asks under the root ".". *)
Theorem check_base_agrees_with_agent (cfg : SNMPConfig) :
  let oid := EnterpriseOID cfg in
  (TrimSpace oid = "" ->
   Snmpcheck.normalizeOID oid = defaultBase /\ snapshotBase cfg = defaultBase) /\
  (normalizeOID oid <> "." ->
   Snmpcheck.normalizeOID oid = snapshotBase cfg /\ snapshotBase cfg = normalizeOID oid) /\
  (TrimSpace oid <> "" -> normalizeOID oid = "." ->
   Snmpcheck.normalizeOID oid = "." /\ snapshotBase cfg = defaultBase) /\
  (Snmpcheck.normalizeOID oid = snapshotBase cfg <->
   TrimSpace oid = "" \/ normalizeOID oid <> ".").
Proof.
  cbv zeta. rewrite Snmpcheck_normalizeOID_eq. unfold snapshotBase.
  destruct (String.eqb (TrimSpace (EnterpriseOID cfg)) "") eqn:Et.
  - apply String.eqb_eq in Et.
    assert (normalizeOID (EnterpriseOID cfg) = ".") as Hn
      by (unfold normalizeOID; by rewrite Et).
    rewrite Hn. simpl. repeat split; try done; by left.
  - apply String.eqb_neq in Et.
    destruct (String.eqb (normalizeOID (EnterpriseOID cfg)) ".") eqn:En.
    + apply String.eqb_eq in En. rewrite En.
      repeat split; try done. intros [?|?]; done.
    + apply String.eqb_neq in En. repeat split; try done. by right.
Qed.

(** ** Counting the walk *)

Lemma HasPrefix_app_same b x y : HasPrefix (b +:+ x) (b +:+ y) = HasPrefix x y.
Proof.
  induction b as [|c b IH]; [done|].
  rewrite !append_cons. simpl. by rewrite Ascii.eqb_refl, IH.
Qed.

Lemma walkFn_Name p counts pdu :
  Snmpcheck.walkFn p counts pdu = Snmpcheck.walkFn p counts (request (Name pdu)).
Proof. done. Qed.

Lemma walkFn_scalar base c sfx :
  sfx ∈ scalarSuffixes ->
  Snmpcheck.walkFn (base +:+ ".5.") c (request (leaf_oid base sfx))
  = (wrap64 (c.1 + 1), c.2).
Proof.
  intros Hs. destruct c as [t e]. unfold Snmpcheck.walkFn, leaf_oid. simpl.
  rewrite HasPrefix_app_same.
  unfold scalarSuffixes in Hs. rewrite !elem_of_cons, elem_of_nil in Hs.
  by repeat (destruct Hs as [->|Hs]; [done|]).
Qed.

Lemma walkFn_row base c idx j :
  j ∈ leafColumns ->
  Snmpcheck.walkFn (base +:+ ".5.") c (request (leaf_oid base [5; idx; j]))
  = (wrap64 (c.1 + 1), if j =? 1 then wrap64 (c.2 + 1) else c.2).
Proof.
  intros Hj. destruct c as [t e]. unfold Snmpcheck.walkFn.
  rewrite leaf_oid_site. simpl.
  rewrite HasPrefix_app_same.
  replace (HasPrefix (".5." +:+ FormatInt idx +:+ "." +:+ FormatInt j) ".5.")
    with true by (by rewrite !append_cons, append_nil_l).
  replace (base +:+ ".5." +:+ FormatInt idx +:+ "." +:+ FormatInt j)
    with ((base +:+ ".5." +:+ FormatInt idx) +:+ "." +:+ FormatInt j)
    by (by rewrite !append_assoc).
  unfold HasSuffix. rewrite rev_string_app.
  unfold leafColumns in Hj. rewrite !elem_of_cons, elem_of_nil in Hj.
  by repeat (destruct Hj as [->|Hj]; [done|]).
Qed.

Lemma walkCounts_names p (names : list string) acc :
  fold_left (Snmpcheck.walkFn p) (map request names) acc
  = fold_left (fun c k => Snmpcheck.walkFn p c (request k)) names acc.
Proof.
  revert acc. induction names as [|k l IH]; intros acc; [done|]. simpl. apply IH.
Qed.

Lemma wrap64_plus z k : wrap64 (wrap64 z + k) = wrap64 (z + k).
Proof.
  unfold wrap64. f_equal.
  replace ((z + 2 ^ 63) mod 2 ^ 64 - 2 ^ 63 + k + 2 ^ 63)
    with ((z + 2 ^ 63) mod 2 ^ 64 + k) by lia.
  rewrite Zplus_mod_idemp_l. f_equal. lia.
Qed.

Lemma fold_walk_row base idx a b :
  fold_left (fun c k => Snmpcheck.walkFn (base +:+ ".5.") c (request k))
    (map (leaf_oid base) (leafSuffixes idx)) (wrap64 a, wrap64 b)
  = (wrap64 (a + 10), wrap64 (b + 1)).
Proof.
  unfold leafSuffixes, leafColumns. cbn [map fold_left].
  rewrite !walkFn_row by (unfold leafColumns; set_solver).
  cbn [fst snd Z.eqb Pos.eqb]. repeat (rewrite wrap64_plus || rewrite <- Z.add_assoc).
  f_equal; f_equal; lia.
Qed.

Lemma fold_walk_rows base idxs a b :
  fold_left (fun c k => Snmpcheck.walkFn (base +:+ ".5.") c (request k))
    (map (leaf_oid base) (concat (map leafSuffixes idxs))) (wrap64 a, wrap64 b)
  = (wrap64 (a + 10 * Z.of_nat (length idxs)), wrap64 (b + Z.of_nat (length idxs))).
Proof.
  revert a b. induction idxs as [|idx l IH]; intros a b.
  - simpl. by rewrite !Z.add_0_r.
  - cbn [map concat]. rewrite map_app, fold_left_app, fold_walk_row, IH.
    f_equal; f_equal; simpl length; lia.
Qed.

Lemma fold_walk_table base idxs :
  fold_left (fun c k => Snmpcheck.walkFn (base +:+ ".5.") c (request k))
    (map (leaf_oid base) (allSuffixes idxs)) (0, 0)
  = (wrap64 (4 + 10 * Z.of_nat (length idxs)), wrap64 (Z.of_nat (length idxs))).
Proof.
  unfold allSuffixes. rewrite map_app, fold_left_app.
  unfold scalarSuffixes at 1. cbn [map fold_left].
  rewrite !walkFn_scalar by (unfold scalarSuffixes; set_solver).
  cbn [fst snd]. repeat (rewrite wrap64_plus || rewrite <- Z.add_assoc).
  change 0 with (wrap64 0) at 2. rewrite fold_walk_rows. f_equal; f_equal; lia.
Qed.

Lemma fold_walk_delivered p (values : gmap string SnmpPDU) (table : list string) acc :
  (forall k, k ∈ table -> Name (index_map values k) = k) ->
  fold_left (Snmpcheck.walkFn p) (map (index_map values) table) acc
  = fold_left (fun c k => Snmpcheck.walkFn p c (request k)) table acc.
Proof.
  revert acc. induction table as [|k l IH]; intros acc Hname; [done|].
  simpl. rewrite walkFn_Name, Hname by left. apply IH.
  intros k' Hk'. apply Hname. by right.
Qed.

Section Check.
Variable oor : Float64.float64 -> Z.

(** X15: run with the agent's base, the health check finds the cache size
    under its cache address, and a walk that delivers the agent's table
    counts four variables and ten more per site, and one site entry per
    site; the check passes exactly when a result has been written. *)
Theorem check_counts_agent_table (cfg : SNMPConfig) (now : Time)
    (rs : list TestResult) (elapsed : Z) (baseFlag : string) :
  Snmpcheck.normalizeOID baseFlag = snapshotBase cfg ->
  4 + 10 * Z.of_nat (length (distinctSites rs)) < 2 ^ 63 ->
  exists s, writes (newOutput cfg now) rs = Some s /\
    let values := snapshotValues oor s elapsed in
    let delivered := map (index_map values) (snapshotOIDs oor s elapsed) in
    let counts := walkCounts (Snmpcheck.sitePrefix baseFlag) delivered in
    handleGet [request (Snmpcheck.cacheOID baseFlag)] values
      = [gaugePDU (Snmpcheck.cacheOID baseFlag)
           (Z.of_nat (Nat.min (length rs) 100))] /\
    counts = (4 + 10 * Z.of_nat (length (distinctSites rs)),
              Z.of_nat (length (distinctSites rs))) /\
    (Snmpcheck.walkHealthy counts = true <-> rs <> []).
Proof.
  intros Hbase Hc. destruct (writes_reached cfg now rs) as (s & Hw & Hr).
  exists s. split; [done|]. cbv zeta.
  assert (Hm : Z.of_nat (length (distinctSites rs)) < 2 ^ 63) by lia.
  pose proof (reached_int64 _ _ _ _ Hr) as Hi.
  pose proof (reached_index_inj _ _ _ _ Hr Hm) as Hinj.
  unfold Snmpcheck.cacheOID, Snmpcheck.sitePrefix. rewrite Hbase.
  split; [|].
  - pose proof (snapshot_scalars oor s elapsed Hi Hinj) as Hs.
    unfold scalarBindings in Hs. cbv zeta in Hs.
    apply Forall_cons_1 in Hs as [Hs _]. simpl in Hs.
    rewrite (reached_config _ _ _ _ Hr) in Hs.
    rewrite handleGet_map. simpl. unfold getReply. simpl.
    rewrite (snapshot_address_normal oor s elapsed) by (by eexists).
    rewrite Hs. do 2 f_equal.
    rewrite (reached_cache _ _ _ _ Hr), length_drop. unfold uint32.
    rewrite Z.mod_small; [lia|]. change (2 ^ 32) with 4294967296. lia.
  - assert (walkCounts (snapshotBase cfg +:+ ".5.")
              (map (index_map (snapshotValues oor s elapsed)) (snapshotOIDs oor s elapsed))
            = (4 + 10 * Z.of_nat (length (distinctSites rs)),
               Z.of_nat (length (distinctSites rs)))) as Hcount.
    { unfold walkCounts.
      transitivity (fold_left (fun c k => Snmpcheck.walkFn (snapshotBase cfg +:+ ".5.") c (request k))
                      (snapshotOIDs oor s elapsed) (0, 0)).
      - apply fold_walk_delivered.
        intros k [v Hv]%snapshotOIDs_elem. unfold index_map. rewrite Hv. simpl.
        by eapply snapshot_Name.
      - rewrite (snapshot_table_eq oor cfg now rs s elapsed Hr Hm).
        rewrite fold_walk_table, length_seqZ, Z2Nat.id by lia.
        rewrite !wrap64_small; [done|apply in_int64_iff..];
          change (2 ^ 63) with 9223372036854775808 in Hc; lia. }
    rewrite Hcount. split; [done|].
    unfold Snmpcheck.walkHealthy. simpl.
    rewrite andb_true_iff, !negb_true_iff, !Z.eqb_neq.
    unfold distinctSites. split.
    + intros [_ Hne] ->. by apply Hne.
    + intros Hne. destruct rs as [|r rs']; [done|].
      assert (siteKey r ∈ firstSeen (map siteKey (r :: rs'))) as Hin
        by (apply firstSeen_elem; left).
      destruct (firstSeen (map siteKey (r :: rs'))); [by apply elem_of_nil in Hin|].
      simpl length. lia.
Qed.

End Check.

(** ** The data view *)

Lemma fold_insert_fmap {A B} (f : A -> B) (l : list (string * A)) :
  NoDup l.*1 ->
  fold_left (fun (acc : gmap string B) '(k, v) => <[k := f v]> acc) l ∅
  = f <$> (list_to_map l : gmap string A).
Proof.
  induction l as [|[k v] l IH] using rev_ind; intros Hnd.
  - simpl. by rewrite fmap_empty.
  - rewrite fmap_app in Hnd. apply NoDup_app in Hnd as (Hl & Hk & _).
    rewrite fold_left_app. simpl. rewrite IH by done.
    rewrite list_to_map_snoc, fmap_insert; [done|].
    intros Hin. apply (Hk _ Hin). simpl. left.
Qed.

Lemma fold_insert_map_to_list {A B} (f : A -> B) (m : gmap string A) :
  fold_left (fun (acc : gmap string B) '(k, v) => <[k := f v]> acc) (map_to_list m) ∅
  = f <$> m.
Proof.
  rewrite fold_insert_fmap by apply NoDup_fst_map_to_list.
  by rewrite list_to_map_to_list.
Qed.

Lemma reached_stats_size cfg now rs s :
  Reached cfg now rs s -> size (stats s) = length (distinctSites rs).
Proof.
  intros R. rewrite <- size_dom.
  assert (dom (stats s) = list_to_set (distinctSites rs)) as ->.
  { apply set_eq. intros n. rewrite elem_of_dom, elem_of_list_to_set.
    apply (reached_stats _ _ _ _ R). }
  apply size_list_to_set, firstSeen_NoDup.
Qed.

Section DataView.
Variable out_of_range_int : Float64.float64 -> Z.

(** X16: after any run of writes the data view reports the length of the
    cache, at most its capacity of 100; its site count, taken from the
    index map, is the number of entries of its site map, taken from the
    aggregates, one per site seen; each entry repeats the aggregate, but a
    site that never succeeded shows the Unix time of the zero instant,
    -62135596800, where the address tree shows 0.  [GetAllStats] returns the
    aggregates unchanged. *)
Theorem GetSNMPData_consistent (cfg : SNMPConfig) (now : Time)
    (rs : list TestResult) (elapsed : Z) :
  exists s, writes (newOutput cfg now) rs = Some s /\
    let data := GetSNMPData out_of_range_int s elapsed in
    cache_size data = Z.of_nat (Nat.min (length rs) 100) /\
    cache_max_size data = 100 /\
    monitored_sites data = Z.of_nat (size (sites data)) /\
    size (sites data) = length (distinctSites rs) /\
    (forall n, sites data !! n = siteDataOf <$> stats s !! n) /\
    (forall n sd, sites data !! n = Some sd ->
       (forall r, r ∈ rs -> siteKey r = n -> Success r = false) ->
       last_success_time sd = -62135596800) /\
    GetAllStats s = stats s.
Proof.
  destruct (writes_reached cfg now rs) as (s & Hw & Hr).
  exists s. split; [done|]. cbv zeta.
  assert (Hsites : sites (GetSNMPData out_of_range_int s elapsed) = siteDataOf <$> stats s).
  { unfold GetSNMPData. simpl. apply fold_insert_map_to_list. }
  rewrite Hsites. simpl.
  split; [rewrite (reached_cache _ _ _ _ Hr), length_drop; lia|].
  split; [apply (reached_maxSize _ _ _ _ Hr)|].
  rewrite map_size_fmap, (reached_size _ _ _ _ Hr), (reached_stats_size _ _ _ _ Hr).
  split; [done|]. split; [done|].
  split; [intros n; apply lookup_fmap|]. split.
  - intros n sd. rewrite lookup_fmap. intros Hsd Hnever.
    destruct (stats s !! n) as [st|] eqn:Hst; [|done].
    injection Hsd as <-. simpl.
    rewrite (writes_stats cfg now rs s n Hw) in Hst.
    by rewrite (aggregateOf_never_succeeded _ _ _ Hst Hnever).
  - unfold GetAllStats.
    rewrite <- (map_fmap_id (stats s)) at 2.
    apply (fold_insert_map_to_list id).
Qed.

End DataView.

(** * The browser's failure classification *)

Lemma phase_of_timings (t : Browser.TimingMetrics) (url : string) :
  Browser.inferFailurePhase (Some t) url =
  match Browser.DNSLookupMs t, Browser.TCPConnectionMs t, Browser.TLSHandshakeMs t with
  | None, _, _ => "dns"
  | Some _, None, _ => "tcp"
  | Some _, Some _, None => if HasPrefix url "https://" then "tls" else "http"
  | Some _, Some _, Some _ => "http"
  end.
Proof.
  unfold Browser.inferFailurePhase.
  destruct (Browser.DNSLookupMs t), (Browser.TCPConnectionMs t),
    (Browser.TLSHandshakeMs t), (Browser.TimeToFirstByteMs t),
    (HasPrefix url "https://"); reflexivity.
Qed.

(** Among floats, [0 < a] and [a < b] give [0 < b]. *)
Lemma gt_zero_trans (a b : Float64.float64) :
  Browser.gt a Float64.zero = true -> Browser.gt b a = true ->
  Browser.gt b Float64.zero = true.
Proof.
  unfold Browser.gt, Float64.zero, SFltb.
  destruct a as [[]|[]| |[] ma ea], b as [[]|[]| |[] mb eb]; simpl; try done.
Qed.

Lemma HasPrefix_app_l s p q : HasPrefix s (p +:+ q) = true -> HasPrefix s p = true.
Proof.
  revert s. induction p as [|c p IH]; intros s; [done|].
  rewrite append_cons. destruct s as [|d s]; simpl; [done|].
  intros [-> H]%andb_true_iff. simpl. by apply IH.
Qed.

Lemma HasPrefix_length s p : HasPrefix s p = true -> (String.length p <= String.length s)%nat.
Proof.
  revert s. induction p as [|c p IH]; intros s; simpl; [lia|].
  destruct s as [|d s]; [done|]. intros [_ H]%andb_true_iff.
  apply IH in H. simpl. lia.
Qed.

Lemma Index_unfold s substr :
  Browser.Index s substr =
  if HasPrefix s substr then Some 0%nat
  else match s with
       | EmptyString => None
       | String _ s' => option_map S (Browser.Index s' substr)
       end.
Proof. by destruct s. Qed.

Lemma Index_bound s sep i :
  Browser.Index s sep = Some i -> (i + String.length sep <= String.length s)%nat.
Proof.
  revert i. induction s as [|c s IH]; intros i; rewrite Index_unfold.
  - destruct (HasPrefix "" sep) eqn:E; [|done].
    intros [= <-]. by apply HasPrefix_length in E.
  - destruct (HasPrefix (String c s) sep) eqn:E.
    + intros [= <-]. by apply HasPrefix_length in E.
    + destruct (Browser.Index s sep) as [j|]; [|done].
      intros [= <-]. specialize (IH j eq_refl). simpl. lia.
Qed.

(** A string that contains [p ++ q] contains [p]. *)
Lemma Index_app_l s p q :
  is_Some (Browser.Index s (p +:+ q)) -> is_Some (Browser.Index s p).
Proof.
  induction s as [|c s IH].
  - rewrite (Index_unfold "" p), (Index_unfold "" (p +:+ q)).
    destruct (HasPrefix "" (p +:+ q)) eqn:E; [|by intros [x [=]]].
    rewrite (HasPrefix_app_l _ _ _ E). by eexists.
  - rewrite (Index_unfold (String c s) p), (Index_unfold (String c s) (p +:+ q)).
    destruct (HasPrefix (String c s) (p +:+ q)) eqn:E.
    + rewrite (HasPrefix_app_l _ _ _ E). by eexists.
    + destruct (HasPrefix (String c s) p); [by eexists|].
      destruct (Browser.Index s (p +:+ q)) as [k|]; [|simpl; by intros [x [=]]].
      intros _. destruct IH as [j ->]; by eexists.
Qed.

Section Classification.
Variable out_of_range_int : Float64.float64 -> Z.
Variable ToLower : string -> string.

Lemma merge_keeps_DNS t nt v :
  Browser.DNSLookupMs t = Some v ->
  Browser.DNSLookupMs (Browser.mergeNetworkTiming out_of_range_int t nt) = Some v.
Proof.
  intros H. destruct nt as [nt|]; [|done]. simpl. rewrite H.
  by rewrite bool_decide_eq_false_2.
Qed.

Lemma merge_keeps_TCP t nt v :
  Browser.TCPConnectionMs t = Some v ->
  Browser.TCPConnectionMs (Browser.mergeNetworkTiming out_of_range_int t nt) = Some v.
Proof.
  intros H. destruct nt as [nt|]; [|done]. simpl. rewrite H.
  by rewrite bool_decide_eq_false_2.
Qed.

Lemma merge_keeps_TLS t nt v :
  Browser.TLSHandshakeMs t = Some v ->
  Browser.TLSHandshakeMs (Browser.mergeNetworkTiming out_of_range_int t nt) = Some v.
Proof.
  intros H. destruct nt as [nt|]; [|done]. simpl. rewrite H.
  by rewrite bool_decide_eq_false_2.
Qed.

(** X17: merging the timing of the network event only fills gaps: a stage
    duration that is present is never replaced, the other metrics are
    untouched, and the failure phase inferred afterwards is never an earlier
    stage of the network stack than the one inferred before. *)
Theorem mergeNetworkTiming_fills_gaps (t : Browser.TimingMetrics)
    (nt : option Browser.ResourceTiming) (url : string) :
  let t' := Browser.mergeNetworkTiming out_of_range_int t nt in
  (forall v, Browser.DNSLookupMs t = Some v -> Browser.DNSLookupMs t' = Some v) /\
  (forall v, Browser.TCPConnectionMs t = Some v -> Browser.TCPConnectionMs t' = Some v) /\
  (forall v, Browser.TLSHandshakeMs t = Some v -> Browser.TLSHandshakeMs t' = Some v) /\
  Browser.TimeToFirstByteMs t' = Browser.TimeToFirstByteMs t /\
  Browser.DOMContentLoadedMs t' = Browser.DOMContentLoadedMs t /\
  Browser.FullPageLoadMs t' = Browser.FullPageLoadMs t /\
  Browser.NetworkIdleMs t' = Browser.NetworkIdleMs t /\
  Browser.TotalDurationMs t' = Browser.TotalDurationMs t /\
  (phaseRank (Browser.inferFailurePhase (Some t) url)
   <= phaseRank (Browser.inferFailurePhase (Some t') url))%nat.
Proof.
  cbv zeta.
  split; [intros v; apply merge_keeps_DNS|].
  split; [intros v; apply merge_keeps_TCP|].
  split; [intros v; apply merge_keeps_TLS|].
  do 5 (split; [by destruct nt|]).
  rewrite !phase_of_timings.
  destruct (Browser.DNSLookupMs t) as [d|] eqn:Ed.
  - rewrite (merge_keeps_DNS t nt d Ed).
    destruct (Browser.TCPConnectionMs t) as [c|] eqn:Ec.
    + rewrite (merge_keeps_TCP t nt c Ec).
      destruct (Browser.TLSHandshakeMs t) as [h|] eqn:Eh.
      * by rewrite (merge_keeps_TLS t nt h Eh).
      * destruct (Browser.TLSHandshakeMs (Browser.mergeNetworkTiming out_of_range_int t nt)),
          (HasPrefix url "https://"); vm_compute; lia.
    + destruct (Browser.TCPConnectionMs (Browser.mergeNetworkTiming out_of_range_int t nt)),
        (Browser.TLSHandshakeMs (Browser.mergeNetworkTiming out_of_range_int t nt)),
        (HasPrefix url "https://"); vm_compute; lia.
  - destruct (Browser.DNSLookupMs (Browser.mergeNetworkTiming out_of_range_int t nt)),
      (Browser.TCPConnectionMs (Browser.mergeNetworkTiming out_of_range_int t nt)),
      (Browser.TLSHandshakeMs (Browser.mergeNetworkTiming out_of_range_int t nt)),
      (HasPrefix url "https://"); vm_compute; lia.
Qed.

(** X18: [extractTimings] always reports the total duration it is given;
    without a performance entry it reports no stage at all; it reports a
    TLS handshake only together with a TCP connection, and the page-load
    and network-idle times are the same value. *)
Theorem extractTimings_stages (perfData : option (gmap string Browser.Dynamic))
    (totalMs : Z) :
  let t := Browser.extractTimings out_of_range_int perfData totalMs in
  Browser.TotalDurationMs t = totalMs /\
  (perfData = None ->
   Browser.DNSLookupMs t = None /\ Browser.TCPConnectionMs t = None /\
   Browser.TLSHandshakeMs t = None /\ Browser.TimeToFirstByteMs t = None /\
   Browser.DOMContentLoadedMs t = None /\ Browser.FullPageLoadMs t = None) /\
  (Browser.TLSHandshakeMs t <> None -> Browser.TCPConnectionMs t <> None) /\
  Browser.NetworkIdleMs t = Browser.FullPageLoadMs t.
Proof.
  cbv zeta. destruct perfData as [pd|]; simpl.
  - split; [done|]. split; [done|]. split; [|done].
    destruct (Browser.gt (Browser.getFloat pd "secureConnectionStart") Float64.zero) eqn:E1;
      [|done].
    destruct (Browser.gt (Browser.getFloat pd "connectEnd")
                (Browser.getFloat pd "secureConnectionStart")) eqn:E2; [|done].
    by rewrite (gt_zero_trans _ _ E1 E2).
  - repeat split; done.
Qed.

Lemma split_loop_S fuel s sep :
  Browser.split_loop (S fuel) s sep =
  match Browser.Index s sep with
  | None => [s]
  | Some i =>
      Browser.take_bytes i s
        :: Browser.split_loop fuel (drop_bytes (i + String.length sep) s) sep
  end.
Proof. done. Qed.

(** X19: when the Chrome error text contains "net::", [parseErrorType]
    returns what stands between the first "net::" and the next one (or the
    end of the text), trimmed, with any words that follow the error code;
    a text without "net::" is returned as it is, so that the branch that
    would cut the code at the first space is never taken; without a text,
    the result is "timeout" or "unknown". *)
Theorem parseErrorType_cases (err : option string) (chromeError : string) :
  (forall i, Browser.Index chromeError "net::" = Some i ->
     let rest := drop_bytes (i + 5) chromeError in
     Browser.parseErrorType ToLower err chromeError =
     TrimSpace (match Browser.Index rest "net::" with
                | Some j => Browser.take_bytes j rest
                | None => rest
                end)) /\
  (Browser.Index chromeError "net::" = None -> chromeError <> "" ->
   Browser.parseErrorType ToLower err chromeError = chromeError) /\
  (chromeError = "" ->
   Browser.parseErrorType ToLower err chromeError =
   match err with
   | None => "unknown"
   | Some e =>
       if Browser.Contains (ToLower e) "context deadline exceeded"
          || Browser.Contains (ToLower e) "timeout"
       then "timeout" else "unknown"
   end).
Proof.
  split; [|split].
  - intros i Hi. cbv zeta. unfold Browser.parseErrorType.
    pose proof (Index_bound _ _ _ Hi) as Hb. simpl in Hb.
    destruct (String.eqb chromeError "") eqn:Ee.
    { apply String.eqb_eq in Ee. subst. simpl in Hb. lia. }
    simpl negb. cbv iota. unfold Browser.Contains at 1. rewrite Hi.
    unfold Browser.Split.
    destruct (String.length chromeError) as [|[|f]] eqn:El; [lia..|].
    rewrite split_loop_S, Hi. change (String.length "net::") with 5%nat.
    rewrite split_loop_S.
    by destruct (Browser.Index (drop_bytes (i + 5) chromeError) "net::").
  - intros Hn Hne. unfold Browser.parseErrorType.
    apply String.eqb_neq in Hne. rewrite Hne. simpl negb. cbv iota.
    unfold Browser.Contains. rewrite Hn.
    destruct (Browser.Index chromeError "net::ERR_") eqn:E; [|done].
    destruct (Index_app_l chromeError "net::" "ERR_") as [j Hj]; [by eexists|].
    congruence.
  - intros ->. reflexivity.
Qed.

(** X20: what [TestSite] returns after the browser run.  The result is a
    success exactly when the run returned no error; a failed result carries
    the error text, the error type of [parseErrorType] and a failure phase
    that is one of "dns", "tcp", "tls" and "http", never "unknown" or empty;
    "tls" is reported for an https address only, and "dns" whenever neither
    a performance entry nor a network timing was captured. *)
Theorem TestSite_classifies_failures (siteURL : string) (err : option string)
    (navigationEntry : option (gmap string Browser.Dynamic)) (totalDuration : Z)
    (errorText : string) (timing : option Browser.ResourceTiming) :
  match Browser.TestSite out_of_range_int ToLower siteURL err navigationEntry
          totalDuration errorText timing with
  | Browser.ChromeStartupFailure =>
      exists e, err = Some e /\ Browser.isChromeStartupFailure ToLower e = true
  | Browser.Result status timings error =>
      Browser.TotalDurationMs timings = totalDuration /\
      (err = None ->
       Browser.Success status = true /\ Browser.HTTPStatus status = 200 /\ error = None) /\
      (forall e, err = Some e ->
         Browser.Success status = false /\
         exists info, error = Some info /\
           Browser.ErrorMessage info = e /\
           Browser.ErrorType info = Browser.parseErrorType ToLower err errorText /\
           Browser.FailurePhase info ∈ ["dns"; "tcp"; "tls"; "http"] /\
           (Browser.FailurePhase info = "tls" -> HasPrefix siteURL "https://" = true) /\
           (navigationEntry = None -> timing = None -> Browser.FailurePhase info = "dns"))
  end.
Proof.
  unfold Browser.TestSite.
  set (t := match timing with
            | Some _ =>
                Browser.mergeNetworkTiming out_of_range_int
                  (Browser.extractTimings out_of_range_int navigationEntry totalDuration)
                  timing
            | None => Browser.extractTimings out_of_range_int navigationEntry totalDuration
            end).
  assert (Ht : Browser.TotalDurationMs t = totalDuration).
  { unfold t. destruct timing; [|by destruct navigationEntry].
    simpl. by destruct navigationEntry. }
  destruct err as [e|].
  - destruct (Browser.isChromeStartupFailure ToLower e) eqn:Ec; [by exists e|].
    split; [done|]. split; [done|]. intros e' [= <-]. split; [done|].
    eexists. split; [done|].
    cbn [Browser.ErrorMessage Browser.ErrorType Browser.FailurePhase].
    split; [done|]. split; [done|].
    rewrite phase_of_timings. split; [|split].
    + destruct (Browser.DNSLookupMs t), (Browser.TCPConnectionMs t),
        (Browser.TLSHandshakeMs t), (HasPrefix siteURL "https://"); set_solver.
    + destruct (Browser.DNSLookupMs t), (Browser.TCPConnectionMs t),
        (Browser.TLSHandshakeMs t), (HasPrefix siteURL "https://"); done.
    + intros -> ->. done.
  - split; [done|]. split; [done|]. intros e [=].
Qed.

End Classification.

(** The cases of the repository's test [TestInferFailurePhase]. *)
Example test_infer_failure_phase :
  let timings dns tcp tls ttfb total :=
    Some {| Browser.DNSLookupMs := dns; Browser.TCPConnectionMs := tcp;
            Browser.TLSHandshakeMs := tls; Browser.TimeToFirstByteMs := ttfb;
            Browser.DOMContentLoadedMs := None; Browser.FullPageLoadMs := None;
            Browser.NetworkIdleMs := None; Browser.TotalDurationMs := total |} in
  let https := "https://example.com" in
  let http := "http://example.com" in
  Browser.inferFailurePhase None https = "unknown" /\
  Browser.inferFailurePhase (timings None None None None 10000) https = "dns" /\
  Browser.inferFailurePhase (timings (Some 12) None None None 30000) https = "tcp" /\
  Browser.inferFailurePhase (timings (Some 12) (Some 25) None None 30000) https = "tls" /\
  Browser.inferFailurePhase (timings (Some 12) (Some 25) (Some 50) None 30000) https = "http" /\
  Browser.inferFailurePhase (timings (Some 12) None None None 30000) http = "tcp" /\
  Browser.inferFailurePhase (timings (Some 8) (Some 15) None None 5000) http = "http" /\
  Browser.inferFailurePhase (timings (Some 8) (Some 15) (Some 25) (Some 100) 5000) https = "http".
Proof. repeat split. Qed.

(** The cases of the repository's test [TestParseErrorType], on texts in
    lower case, which [strings.ToLower] leaves alone.  For the text with
    trailing words the function returns the words too, where the test
    expects "ERR_ABORTED". *)
Example test_parse_error_type :
  let parse := Browser.parseErrorType (fun s => s) in
  parse None "net::ERR_NAME_NOT_RESOLVED" = "ERR_NAME_NOT_RESOLVED" /\
  parse None "net::ERR_CONNECTION_REFUSED" = "ERR_CONNECTION_REFUSED" /\
  parse None "page load error net::ERR_ABORTED" = "ERR_ABORTED" /\
  parse None "net::ERR_CONNECTION_TIMED_OUT" = "ERR_CONNECTION_TIMED_OUT" /\
  parse None "net::ERR_CERT_AUTHORITY_INVALID" = "ERR_CERT_AUTHORITY_INVALID" /\
  parse None "net::ERR_ABORTED at navigation" = "ERR_ABORTED at navigation" /\
  parse (Some "context deadline exceeded") "" = "timeout" /\
  parse (Some "timeout waiting for page") "" = "timeout" /\
  parse (Some "some other error") "" = "unknown" /\
  parse None "" = "unknown" /\
  parse (Some "context deadline exceeded") "net::ERR_CONNECTION_REFUSED"
    = "ERR_CONNECTION_REFUSED".
Proof. by vm_compute. Qed.
(** * The agent loop *)

Lemma sent_app t1 t2 : sent (t1 ++ t2) = sent t1 ++ sent t2.
Proof. unfold sent. by rewrite flat_map_app. Qed.

Lemma sent_length trace :
  length (sent trace) = length (filter (fun e => is_send e = true) trace).
Proof.
  induction trace as [|[msg|d|] trace IH]; [done|..]; rewrite filter_cons.
  - by rewrite decide_False.
  - rewrite decide_True by done. simpl. by rewrite <- IH.
  - by rewrite decide_False.
Qed.

Section Loop.
Variable oor : Float64.float64 -> Z.
Variable MarshalMsg : SnmpPacket -> option (list Byte.byte).

(** An iteration after which the loop reads again. *)
Lemma goes_on_inv it :
  stops it = false -> crashes it = false ->
  done_closed it = false /\
  match read it with
  | ReadClosed => False
  | ReadFailed => done_closed_after_read it = false
  | ReadPacket decoded =>
      panicked (handleRequest oor MarshalMsg (store it) (elapsed_ns it) true
                  (write_succeeds it) decoded) = false
  | ReadTimeout => True
  end.
Proof.
  intros Hs Hc. unfold crashes in Hc. rewrite Hs in Hc. unfold stops in Hs.
  apply orb_false_iff in Hs as [Hd Hr]. split; [done|].
  destruct (read it) as [| | |d]; try done.
  pose proof (handleRequest_fatal oor MarshalMsg (store it) (elapsed_ns it) true
                (write_succeeds it) d) as Hf.
  simpl in Hc. by rewrite Hc in Hf.
Qed.

Lemma runSNMPAgent_app script more :
  Forall (fun it => stops it = false /\ crashes it = false) script ->
  runSNMPAgent oor MarshalMsg (script ++ more) =
  ((runSNMPAgent oor MarshalMsg script).1 ++ (runSNMPAgent oor MarshalMsg more).1,
   (runSNMPAgent oor MarshalMsg more).2).
Proof.
  induction 1 as [|it script [Hs Hc] _ IH]; simpl.
  - by destruct (runSNMPAgent oor MarshalMsg more).
  - destruct (goes_on_inv it Hs Hc) as [-> Hr].
    rewrite IH.
    destruct (runSNMPAgent oor MarshalMsg script) as [t1 r1],
      (runSNMPAgent oor MarshalMsg more) as [t2 r2]. simpl.
    destruct (read it); try done; rewrite ?Hr; simpl; rewrite <- ?app_assoc; done.
Qed.

Lemma runSNMPAgent_reading script :
  Forall (fun it => stops it = false /\ crashes it = false) script ->
  (runSNMPAgent oor MarshalMsg script).2 = Reading /\
  sent (runSNMPAgent oor MarshalMsg script).1 = flat_map (answers oor MarshalMsg) script.
Proof.
  induction 1 as [|it script [Hs Hc] _ [IH1 IH2]]; [done|].
  cbn [runSNMPAgent flat_map].
  destruct (goes_on_inv it Hs Hc) as [-> Hr].
  destruct (runSNMPAgent oor MarshalMsg script) as [t r].
  cbn [fst snd] in IH1, IH2. subst r. unfold answers at 1.
  destruct (read it); try done; rewrite ?Hr; cbn [fst snd]; (split; [done|]);
    rewrite ?sent_app, IH2; by destruct (deadline_ok it).
Qed.

(** X21: the loop of [runSNMPAgent] ends in three ways only: it returns
    when the done channel is closed or the socket is closed, and it dies,
    with the panic of [handleRequest], at a GetBulk request of a supported
    version and the right community whose reply buffer cannot be made.
    Through timeouts, read errors and every other datagram it goes on, and
    it answers the datagrams in the order read, each with at most one
    reply; once it has returned or died, nothing that comes later is read
    or answered, and the datagram it died at is not answered. *)
Theorem runSNMPAgent_serves_until_closed (script more : list Iteration)
    (last_it : Iteration) :
  (Forall (fun it => stops it = false /\ crashes it = false) script ->
   (runSNMPAgent oor MarshalMsg script).2 = Reading /\
   sent (runSNMPAgent oor MarshalMsg script).1 = flat_map (answers oor MarshalMsg) script /\
   Forall (fun it => (length (answers oor MarshalMsg it) <= 1)%nat) script /\
   (stops last_it = true ->
    (runSNMPAgent oor MarshalMsg (script ++ last_it :: more)).2 = Returned /\
    sent (runSNMPAgent oor MarshalMsg (script ++ last_it :: more)).1
      = flat_map (answers oor MarshalMsg) script) /\
   (crashes last_it = true ->
    (runSNMPAgent oor MarshalMsg (script ++ last_it :: more)).2 = Panicked /\
    sent (runSNMPAgent oor MarshalMsg (script ++ last_it :: more)).1
      = flat_map (answers oor MarshalMsg) script)) /\
  ((runSNMPAgent oor MarshalMsg script).2 = Returned ->
   Exists (fun it => stops it = true) script) /\
  ((runSNMPAgent oor MarshalMsg script).2 = Panicked ->
   Exists (fun it => crashes it = true) script).
Proof.
  split; [|split].
  - intros Hgo. destruct (runSNMPAgent_reading script Hgo) as [Hr Hs].
    split; [done|]. split; [done|]. split; [|split].
    + apply Forall_forall. intros it _. unfold answers.
      destruct (read it) as [| | |d]; simpl; try lia.
      pose proof (handleRequest_sends_once oor MarshalMsg (store it) (elapsed_ns it)
                    true (write_succeeds it) d) as H.
      by rewrite sent_length.
    + intros Hstop. rewrite runSNMPAgent_app by done. simpl.
      unfold stops in Hstop.
      destruct (done_closed last_it) eqn:Ed; simpl.
      * by rewrite app_nil_r.
      * simpl in Hstop.
        destruct (read last_it); try done; rewrite ?Hstop; simpl;
          (split; [done|]); rewrite sent_app, Hs;
          destruct (deadline_ok last_it); simpl; by rewrite app_nil_r.
    + intros Hcrash. rewrite runSNMPAgent_app by done. simpl.
      unfold crashes in Hcrash. apply andb_true_iff in Hcrash as [Hstop Hf].
      apply negb_true_iff in Hstop. unfold stops in Hstop.
      apply orb_false_iff in Hstop as [-> _].
      destruct (read last_it) as [| | |d]; try done.
      pose proof (handleRequest_fatal oor MarshalMsg (store last_it)
                    (elapsed_ns last_it) true (write_succeeds last_it) d) as Hp.
      rewrite Hf in Hp. rewrite Hp. simpl. split; [done|].
      rewrite sent_app, Hs. destruct (deadline_ok last_it); simpl; by rewrite app_nil_r.
  - induction script as [|it script IH]; simpl; [done|].
    destruct (stops it) eqn:Hit; [intros _; by left|].
    unfold stops in Hit. apply orb_false_iff in Hit as [-> Hr].
    destruct (runSNMPAgent oor MarshalMsg script) as [t r]. simpl in IH.
    destruct (read it); try done; rewrite ?Hr; simpl;
      try (intros ->; right; by apply IH).
    destruct (panicked _); [done|]. simpl. intros ->; right; by apply IH.
  - induction script as [|it script IH]; simpl; [done|].
    destruct (crashes it) eqn:Hit; [intros _; by left|].
    unfold crashes in Hit.
    destruct (stops it) eqn:Hs.
    + unfold stops in Hs. destruct (done_closed it); [done|]. simpl in Hs.
      destruct (read it); try done. by rewrite Hs.
    + destruct (goes_on_inv it Hs) as [-> Hr]; [by unfold crashes; rewrite Hs|].
      destruct (runSNMPAgent oor MarshalMsg script) as [t r]. simpl in IH.
      destruct (read it); try done; rewrite ?Hr; simpl; intros ->; right; by apply IH.
Qed.

End Loop.

(** * Instances *)

(** X2 at the base address of the repository's test. *)
Lemma normalizeOID_fixed_point_witness :
  TrimSpace ".1.3.6.1.4.1.55555" = ".1.3.6.1.4.1.55555" /\
  HasPrefix ".1.3.6.1.4.1.55555" "." = true /\
  HasSuffix ".1.3.6.1.4.1.55555" "." = false /\
  normalizeOID ".1.3.6.1.4.1.55555" = ".1.3.6.1.4.1.55555".
Proof.
  split; [reflexivity|]. split; [reflexivity|]. split; [reflexivity|].
  apply normalizeOID_fixed_point; [reflexivity..|left; reflexivity].
Defined.

(** X6 at a bulk request with one repetition on the table of the test. *)
Lemma handleGetBulk_as_GetNext_witness :
  (MaxRepetitions (bulkOne ".1.3.6.1.4.1.55555.1.0") <= 1)%N /\
  handleGetBulk (bulkOne ".1.3.6.1.4.1.55555.1.0") testValues testOIDs
  = Some (handleGetNext [request ".1.3.6.1.4.1.55555.1.0"] testValues testOIDs).
Proof.
  assert ((MaxRepetitions (bulkOne ".1.3.6.1.4.1.55555.1.0") <= 1)%N) as H
    by (simpl; lia).
  split; [exact H|].
  apply (handleGetBulk_as_GetNext (bulkOne ".1.3.6.1.4.1.55555.1.0")).
  left. exact H.
Defined.

(** X7 at the first write of the test. *)
Lemma Write_touches_one_site_witness :
  exists s',
    Write (newOutput testConfig testNow) resultSuccess = Some s' /\
    is_Some (stats s' !! "example.com") /\
    siteIndex s' !! "example.com" = Some 1 /\
    maxSize s' = 100.
Proof.
  destruct (Write (newOutput testConfig testNow) resultSuccess) as [s'|] eqn:E;
    [|by vm_compute in E].
  exists s'. split; [reflexivity|].
  destruct (Write_touches_one_site _ _ _ E) as (_ & _ & Hs & _ & Hm & _ & Hn).
  split; [exact Hs|]. split; [|exact Hm].
  destruct Hn as [[_ Hi]|(_ & _ & Hn & Hi)].
  - apply (f_equal (fun m => m !! "example.com")) in Hi.
    injection E as <-. by vm_compute in Hi.
  - etransitivity; [exact Hi|]. rewrite Hn. reflexivity.
Defined.

(** X13 at the store of the test: one site, fourteen addresses. *)
Lemma snapshot_table_in_full_witness :
  Z.of_nat (length (distinctSites [resultSuccess; resultFailure])) < 2 ^ 63 /\
  exists s,
    writes (newOutput testConfig testNow) [resultSuccess; resultFailure] = Some s /\
    length (snapshotOIDs zero_out_of_range s 5000000000) = 14%nat.
Proof.
  assert (Z.of_nat (length (distinctSites [resultSuccess; resultFailure])) < 2 ^ 63)
    as Hc by (by vm_compute).
  split; [exact Hc|].
  destruct (snapshot_table_in_full zero_out_of_range testConfig testNow
              [resultSuccess; resultFailure] 5000000000 Hc)
    as (s & Hs & _ & Hl & _).
  exists s. split; [exact Hs|exact Hl].
Defined.

(** X15 at the store of the test, the check run with the base of the test. *)
Lemma check_counts_agent_table_witness :
  Snmpcheck.normalizeOID ".1.3.6.1.4.1.55555" = snapshotBase testConfig /\
  4 + 10 * Z.of_nat (length (distinctSites [resultSuccess; resultFailure])) < 2 ^ 63 /\
  exists s,
    writes (newOutput testConfig testNow) [resultSuccess; resultFailure] = Some s /\
    walkCounts (Snmpcheck.sitePrefix ".1.3.6.1.4.1.55555")
      (map (index_map (snapshotValues zero_out_of_range s 5000000000))
         (snapshotOIDs zero_out_of_range s 5000000000))
    = (14, 1).
Proof.
  assert (Snmpcheck.normalizeOID ".1.3.6.1.4.1.55555" = snapshotBase testConfig)
    as Hb by reflexivity.
  assert (4 + 10 * Z.of_nat (length (distinctSites [resultSuccess; resultFailure]))
          < 2 ^ 63) as Hc by (by vm_compute).
  split; [exact Hb|]. split; [exact Hc|].
  destruct (check_counts_agent_table zero_out_of_range testConfig testNow
              [resultSuccess; resultFailure] 5000000000 ".1.3.6.1.4.1.55555" Hb Hc)
    as (s & Hs & _ & Hn & _).
  exists s. split; [exact Hs|exact Hn].
Defined.
